(** * The iteration-level engine core of [vllm/engine/llm_engine.py]

    A shallow embedding of [LLMEngine]: the stop check, the beam-search
    bookkeeping of [_process_sequence_group_samples], the step driver, the
    worker fan-out and the start-up of the KV cache, followed by the
    properties the specification states about them.

    Conventions.
    - Python [int] is [Z]; Python [float] scores are rationals [Q] (only
      their order is ever used by the engine).
    - Python [str] is [string]; slicing and [endswith] are written out on
      the list of characters with Python's index rules.
    - A [Sequence] object is identified by its [seq_id]: the store
      [gmap Z Sequence] is the heap of live [Sequence] objects, and the test
      [seq is parent] is equality of ids.
    - Calls into the scheduler ([fork_seq], [free_seq]) are recorded, in
      order, in a list of [SchedCall].
    - An uncaught Python exception is the [Raise] result. *)

From Stdlib Require Import ZArith QArith Qround Lqa List String Ascii Bool Lia.
From Stdlib Require Import Sorting.Sorted Sorting.Permutation.
From stdpp Require Import base option list sorting strings gmap.

Open Scope Z_scope.

(* ================================================================== *)
(** ** Python values and exceptions *)

Inductive PyError : Type :=
| KeyError
| IndexError
| ValueError
| AssertionError.

Inductive result (A : Type) : Type :=
| Ok (a : A)
| Raise (e : PyError).
Arguments Ok {A} a.
Arguments Raise {A} e.

Definition rbind {A B : Type} (r : result A) (k : A -> result B) : result B :=
  match r with
  | Ok a => k a
  | Raise e => Raise e
  end.

Notation "'do' x <- c ; k" := (rbind c (fun x => k))
  (at level 10, x pattern, c at level 100, k at level 200).

(** [assert b]. *)
Definition py_assert (b : bool) : result unit :=
  if b then Ok tt else Raise AssertionError.

(** [len(l)] as a Python integer. *)
Definition py_len {A : Type} (l : list A) : Z := Z.of_nat (List.length l).

(** The bound of the slice [l[:stop]]: a negative [stop] counts from the
    end, and the result is clipped to [0 .. len(l)]. *)
Definition py_bound {A : Type} (l : list A) (i : Z) : nat :=
  if i <? 0 then Z.to_nat (Z.max (py_len l + i) 0)
  else Z.to_nat (Z.min i (py_len l)).

(** [l[:stop]]. *)
Definition py_slice_to {A : Type} (l : list A) (stop : Z) : list A :=
  take (py_bound l stop) l.

(** [l[start:]]. *)
Definition py_slice_from {A : Type} (l : list A) (start : Z) : list A :=
  drop (py_bound l start) l.

(** [l[i]]: negative indices count from the end; out of range raises. *)
Definition py_index {A : Type} (l : list A) (i : Z) : result A :=
  let j := if i <? 0 then py_len l + i else i in
  if (j <? 0) || (py_len l <=? j) then Raise IndexError
  else match l !! Z.to_nat j with
       | Some a => Ok a
       | None => Raise IndexError
       end.

(** [s.endswith(suffix)]. *)
Definition endswith (s suffix : string) : bool :=
  let l := list_ascii_of_string s in
  let k := list_ascii_of_string suffix in
  (List.length k <=? List.length l)%nat &&
  bool_decide (drop (List.length l - List.length k)%nat l = k).

(** [s[:stop]] on a string. *)
Definition str_slice_to (s : string) (stop : Z) : string :=
  string_of_list_ascii (py_slice_to (list_ascii_of_string s) stop).

(** [len(s)] on a string. *)
Definition str_len (s : string) : Z := Z.of_nat (String.length s).

(* ================================================================== *)
(** ** Sequences and sampling parameters *)

Inductive SequenceStatus : Type :=
| WAITING
| RUNNING
| SWAPPED
| FINISHED_STOPPED
| FINISHED_LENGTH_CAPPED
| FINISHED_ABORTED
| FINISHED_IGNORED.

Global Instance SequenceStatus_eq_dec : EqDecision SequenceStatus.
Proof. solve_decision. Defined.

(** Modelled from the spec: [SequenceStatus.is_finished] of
    [vllm/sequence_status.py], which is not part of the sources; a status is
    finished iff it is one of the four [FINISHED_*] values. *)
Definition status_is_finished (st : SequenceStatus) : bool :=
  match st with
  | FINISHED_STOPPED | FINISHED_LENGTH_CAPPED
  | FINISHED_ABORTED | FINISHED_IGNORED => true
  | WAITING | RUNNING | SWAPPED => false
  end.

(** Modelled from the spec: the [Sequence] class of [vllm/sequence.py], which
    is not part of the sources.  The fields are the attributes the engine
    reads or writes; the [seq_id] is the key of the object in the store. *)
Record Sequence : Type := mkSequence {
  prompt_token_ids : list Z;
  output_token_ids : list Z;
  cumulative_logprob : Q;
  status : SequenceStatus;
  tokens : option (list string);
  prefix_offset : Z;
  read_offset : Z;
  output_text : string;
  prompt_processing_finished : bool
}.

Definition get_token_ids (seq : Sequence) : list Z :=
  prompt_token_ids seq ++ output_token_ids seq.

Definition get_len (seq : Sequence) : Z := py_len (get_token_ids seq).

Definition get_prompt_len (seq : Sequence) : Z := py_len (prompt_token_ids seq).

Definition get_output_len (seq : Sequence) : Z := py_len (output_token_ids seq).

(** The last token id, [None] for a sequence without any token. *)
Definition get_last_token_id (seq : Sequence) : option Z :=
  last (get_token_ids seq).

Definition is_finished (seq : Sequence) : bool :=
  status_is_finished (status seq).

Definition is_prompt_processing_finished (seq : Sequence) : bool :=
  prompt_processing_finished seq.

Definition set_status (st : SequenceStatus) (seq : Sequence) : Sequence :=
  mkSequence (prompt_token_ids seq) (output_token_ids seq)
    (cumulative_logprob seq) st (tokens seq) (prefix_offset seq)
    (read_offset seq) (output_text seq) (prompt_processing_finished seq).

Definition set_output_text (t : string) (seq : Sequence) : Sequence :=
  mkSequence (prompt_token_ids seq) (output_token_ids seq)
    (cumulative_logprob seq) (status seq) (tokens seq) (prefix_offset seq)
    (read_offset seq) t (prompt_processing_finished seq).

(** [early_stopping: Union[bool, str]]. *)
Inductive EarlyStopping : Type :=
| ES_bool (b : bool)
| ES_str (s : string).

Global Instance EarlyStopping_eq_dec : EqDecision EarlyStopping.
Proof. solve_decision. Defined.

(** Modelled from the spec: the fields of [SamplingParams]
    ([vllm/sampling_params.py], not part of the sources) that the engine
    reads. *)
Record SamplingParams : Type := mkSamplingParams {
  n : Z;
  best_of : Z;
  use_beam_search : bool;
  length_penalty : Q;
  early_stopping : EarlyStopping;
  stop : list string;
  ignore_eos : bool;
  max_tokens : Z
}.

(** The immutable part of [self] that the modelled methods read:
    [self.scheduler_config.max_model_len], [self.tokenizer.eos_token_id],
    [self.replica_id], [self.parallel_config.world_size] and
    [self.parallel_config.worker_use_ray]. *)
Record LLMEngine : Type := mkLLMEngine {
  max_model_len : Z;
  eos_token_id : Z;
  replica_id : Z;
  world_size : Z;
  worker_use_ray : bool
}.

(* ================================================================== *)
(** ** [_check_stop] *)

(** A sequence under the stop check together with the statuses that
    [set_status] has assigned to it during the call, oldest first. *)
Definition Checked : Type := (Sequence * list SequenceStatus)%type.

Definition do_set_status (st : SequenceStatus) (c : Checked) : Checked :=
  (set_status st (fst c), snd c ++ [st]).

Definition do_set_output_text (t : string) (c : Checked) : Checked :=
  (set_output_text t (fst c), snd c).

(** The loop [for stop_str in sampling_params.stop]: [Some] is the early
    [return] from inside the loop, [None] is the loop running to its end. *)
Fixpoint check_stop_strings (stops : list string) (c : Checked)
  : option Checked :=
  match stops with
  | [] => None
  | stop_str :: rest =>
      if endswith (output_text (fst c)) stop_str
      then Some (do_set_status FINISHED_STOPPED
                   (do_set_output_text
                      (str_slice_to (output_text (fst c)) (- str_len stop_str))
                      c))
      else check_stop_strings rest c
  end.

Definition check_stop_traced (self : LLMEngine) (seq : Sequence)
    (sampling_params : SamplingParams) : Checked :=
  let c : Checked := (seq, []) in
  match check_stop_strings (stop sampling_params) c with
  | Some c' => c'
  | None =>
      if max_model_len self <? get_len seq
      then do_set_status FINISHED_LENGTH_CAPPED c
      else if get_output_len seq =? max_tokens sampling_params
      then do_set_status FINISHED_LENGTH_CAPPED c
      else if negb (ignore_eos sampling_params)
              && bool_decide (get_last_token_id seq = Some (eos_token_id self))
      then do_set_status FINISHED_STOPPED c
      else c
  end.

(** [_check_stop(seq, sampling_params)]: the sequence after the call. *)
Definition _check_stop (self : LLMEngine) (seq : Sequence)
    (sampling_params : SamplingParams) : Sequence :=
  fst (check_stop_traced self seq sampling_params).

(* ================================================================== *)
(** ** Sorting as [list.sort] does it *)

(** Insertion of [x] in front of the first element [y] with [before x y]. *)
Fixpoint py_insert {A : Type} (before : A -> A -> bool) (x : A) (l : list A)
  : list A :=
  match l with
  | [] => [x]
  | y :: l' => if before x y then x :: y :: l'
               else y :: py_insert before x l'
  end.

(** A stable sort: an element stays in front of every later element that it
    may stand [before]. *)
Definition py_sort {A : Type} (before : A -> A -> bool) (l : list A) : list A :=
  foldr (py_insert before) [] l.

(** [l.sort(key=key, reverse=True)]: descending keys; elements with equal
    keys keep their original order. *)
Definition sort_by_key_desc {A : Type} (key : A -> Q) (l : list A) : list A :=
  py_sort (fun x y => Qle_bool (key y) (key x)) l.

(** [sorted(l)] on integers. *)
Definition py_sorted (l : list Z) : list Z := py_sort Z.leb l.

(** [min(l)]: raises [ValueError] on an empty argument. *)
Definition py_min (l : list Z) : result Z :=
  match l with
  | [] => Raise ValueError
  | x :: l' => Ok (foldl Z.min x l')
  end.

(** [max(l)]: raises [ValueError] on an empty argument. *)
Definition py_max (l : list Z) : result Z :=
  match l with
  | [] => Raise ValueError
  | x :: l' => Ok (foldl Z.max x l')
  end.

(** [list(range(lo, hi))]. *)
Definition py_range (lo hi : Z) : list Z :=
  map (fun i => lo + Z.of_nat i) (seq 0 (Z.to_nat (hi - lo))).

(* ================================================================== *)
(** ** The collaborators of the engine *)

(** [SequenceOutputs]: one sampled token, as a worker returns it. *)
Record SequenceOutputs : Type := mkSequenceOutputs {
  parent_seq_id : Z;
  output_token : Z;
  logprobs : list (Z * Q)
}.

(** [SamplerOutput = List[List[SequenceOutputs]]]. *)
Definition SamplerOutput : Type := list (list SequenceOutputs).

(** The methods of classes outside the sources that the engine calls and
    whose results it only passes on or compares:
    - [Sequence.append_token_id(token, logprobs, probs, prompt_chunk_len)];
    - [Sequence.get_beam_search_score(length_penalty, eos_token_id, seq_len)],
      [seq_len] being the optional override;
    - [detokenize_incrementally(tokenizer, all_input_ids, prev_tokens,
      prefix_offset, read_offset, skip_special_tokens=True)];
    - the comparison [==] of two sampler outputs.
    They are total functions here: the model covers the runs in which each
    of these calls returns.  Scores are rationals, so a
    [ZeroDivisionError] or an [OverflowError] out of the float arithmetic of
    [get_beam_search_score] (a length of zero, an exponent out of range) and
    scores that are not numbers lie outside the model; what is proved of a
    beam search holds of the runs in which every score is computed. *)
Class Collaborators : Type := {
  append_token_id : Sequence -> SequenceOutputs -> Z -> Sequence;
  get_beam_search_score : Sequence -> Q -> Z -> option Z -> Q;
  detokenize_incrementally :
    list Z -> option (list string) -> Z -> Z ->
    list string * string * Z * Z;
  sampler_output_eq : SamplerOutput -> SamplerOutput -> bool
}.

(** Modelled from the spec: [Sequence.fork(new_seq_id)], a copy of the
    sequence; the copy is stored under the new id by the caller. *)
Definition fork (seq : Sequence) : Sequence := seq.

(** Modelled from the spec: [SequenceGroup] of [vllm/sequence.py], which is
    not part of the sources: the request id, the ids of the member sequences
    in the order of insertion into [seqs_dict], and the sampling
    parameters. *)
Record SequenceGroup : Type := mkSequenceGroup {
  request_id : string;
  seqs : list Z;
  sampling_params : SamplingParams
}.

(** [seq_group.add(seq)]. *)
Definition group_add (id : Z) (g : SequenceGroup) : SequenceGroup :=
  mkSequenceGroup (request_id g) (seqs g ++ [id]) (sampling_params g).

(** [seq_group.remove(seq_id)]. *)
Definition group_remove (id : Z) (g : SequenceGroup) : SequenceGroup :=
  mkSequenceGroup (request_id g)
    (filter (fun i => i <> id) (seqs g)) (sampling_params g).

(** The calls the output processor makes into the scheduler. *)
Inductive SchedCall : Type :=
| fork_seq (parent child : Z)
| free_seq (seq : Z)
| free_finished_seq_groups.

Global Instance SchedCall_eq_dec : EqDecision SchedCall.
Proof. solve_decision. Defined.

Definition is_fork_call (c : SchedCall) : bool :=
  match c with fork_seq _ _ => true | _ => false end.

Definition is_free_call (c : SchedCall) : bool :=
  match c with free_seq _ => true | _ => false end.

(** The mutable state the output processor works on: the heap of
    [Sequence] objects, [self.seq_counter], and the scheduler calls made so
    far. *)
Record World : Type := mkWorld {
  store : gmap Z Sequence;
  seq_counter : Z;
  sched_calls : list SchedCall
}.

Definition set_store (s : gmap Z Sequence) (w : World) : World :=
  mkWorld s (seq_counter w) (sched_calls w).

Definition call_scheduler (c : SchedCall) (w : World) : World :=
  mkWorld (store w) (seq_counter w) (sched_calls w ++ [c]).

(** [next(self.seq_counter)]. *)
Definition next_seq_id (w : World) : Z * World :=
  (seq_counter w, mkWorld (store w) (seq_counter w + 1) (sched_calls w)).

(** The status of the object with the given id ([None]: no such object). *)
Definition status_of (w : World) (id : Z) : option SequenceStatus :=
  status <$> store w !! id.

Definition finished_in (w : World) (id : Z) : bool :=
  match store w !! id with
  | Some s => is_finished s
  | None => false
  end.

(** [seq_group.get_seqs(status=st)]. *)
Definition get_seqs (w : World) (g : SequenceGroup) (st : SequenceStatus)
  : list Z :=
  filter (fun id => status_of w id = Some st) (seqs g).

(** [seq_group.get_finished_seqs()]. *)
Definition get_finished_seqs (w : World) (g : SequenceGroup) : list Z :=
  filter (fun id => finished_in w id = true) (seqs g).

(** The object an id denotes.  Every id the output processor handles comes
    from the group's [RUNNING] or finished members or from a fork of one of
    them, so it denotes a stored object; [blank_sequence] only makes the
    accessor total. *)
Definition blank_sequence : Sequence :=
  mkSequence [] [] 0%Q WAITING None 0 0 EmptyString false.

Definition deref (w : World) (id : Z) : Sequence :=
  default blank_sequence (store w !! id).

(** In-place mutation of the object with the given id. *)
Definition mutate (f : Sequence -> Sequence) (id : Z) (w : World) : World :=
  set_store (alter f id (store w)) w.

(** Allocation of a new object under the given id. *)
Definition allocate (id : Z) (s : Sequence) (w : World) : World :=
  set_store (<[id := s]> (store w)) w.

(** Entries of [all_finished_seqs]: the tuple [(seq, None, False)] of an
    existing finished sequence, or [(seq, parent, True)] of a sequence that
    finished in this step. *)
Inductive FinishedEntry : Type :=
| existing_finished (seq : Z)
| new_finished (seq parent : Z).

Definition fe_seq (e : FinishedEntry) : Z :=
  match e with
  | existing_finished seq => seq
  | new_finished seq _ => seq
  end.

(** [child_seqs]: the list of [(child, parent)] pairs. *)
Abbreviation ChildSeqs := (list (Z * Z)).

Section OutputProcessor.

Context {collab : Collaborators}.
Variable self : LLMEngine.

(** [_decode_sequence]. *)
Definition _decode_sequence (seq : Sequence) : Sequence :=
  let '(new_tokens, new_output_text, prefix_offset', read_offset') :=
    detokenize_incrementally (get_token_ids seq) (tokens seq)
      (prefix_offset seq) (read_offset seq) in
  mkSequence (prompt_token_ids seq) (output_token_ids seq)
    (cumulative_logprob seq) (status seq)
    (match tokens seq with
     | None => Some new_tokens
     | Some old => Some (old ++ new_tokens)
     end)
    prefix_offset' read_offset'
    (String.append (output_text seq) new_output_text)
    (prompt_processing_finished seq).

(** [_check_beam_search_early_stopping]. *)
Definition _check_beam_search_early_stopping (early_stopping : EarlyStopping)
    (sampling_params : SamplingParams)
    (best_running_seq current_worst_seq : Sequence) : result bool :=
  do _ <- py_assert (use_beam_search sampling_params);
  let length_penalty := length_penalty sampling_params in
  match early_stopping with
  | ES_bool true => Ok true
  | _ =>
    let current_worst_score :=
      get_beam_search_score current_worst_seq length_penalty
        (eos_token_id self) None in
    do highest_attainable_score <-
      match early_stopping with
      | ES_bool false =>
          Ok (get_beam_search_score best_running_seq length_penalty
                (eos_token_id self) None)
      | _ =>
          do _ <- py_assert
                    (bool_decide (early_stopping = ES_str "never"%string));
          if negb (Qle_bool length_penalty 0)
          then
            let max_possible_length :=
              Z.max (get_prompt_len best_running_seq
                     + max_tokens sampling_params)
                    (max_model_len self) in
            Ok (get_beam_search_score best_running_seq length_penalty
                  (eos_token_id self) (Some max_possible_length))
          else
            Ok (get_beam_search_score best_running_seq length_penalty
                  (eos_token_id self) None)
      end;
    Ok (Qle_bool highest_attainable_score current_worst_score)
  end.

(** *** Phase 1: the samples of each parent *)

(** The bucket [parent_child_dict[parent.seq_id]]. *)
Definition child_samples_of (samples : list SequenceOutputs) (parent : Z)
  : list SequenceOutputs :=
  filter (fun s => parent_seq_id s = parent) samples.

(** One turn of [for child_sample in child_samples[:-1]]. *)
Definition fork_child (parent prompt_chunk_len : Z)
    (acc : World * ChildSeqs) (child_sample : SequenceOutputs)
  : World * ChildSeqs :=
  let '(new_child_seq_id, w) := next_seq_id (fst acc) in
  let child :=
    append_token_id (fork (deref w parent)) child_sample prompt_chunk_len in
  (allocate new_child_seq_id child w,
   snd acc ++ [(new_child_seq_id, parent)]).

(** One turn of [for parent in parent_seqs]. *)
Definition process_parent (samples : list SequenceOutputs)
    (prompt_chunk_len : Z) (acc : SequenceGroup * World * ChildSeqs)
    (parent : Z) : SequenceGroup * World * ChildSeqs :=
  let '(seq_group, w, child_seqs) := acc in
  let child_samples := child_samples_of samples parent in
  match last child_samples with
  | None =>
      (* [len(child_samples) == 0] *)
      let w := mutate (set_status FINISHED_ABORTED) parent w in
      let seq_group := group_remove parent seq_group in
      let w := call_scheduler (free_seq parent) w in
      (seq_group, w, child_seqs)
  | Some last_child_sample =>
      let '(w, child_seqs) :=
        foldl (fork_child parent prompt_chunk_len) (w, child_seqs)
          (py_slice_to child_samples (-1)) in
      let w :=
        mutate (fun p => append_token_id p last_child_sample prompt_chunk_len)
          parent w in
      (seq_group, w, child_seqs ++ [(parent, parent)])
  end.

(** *** Phase 2: detokenize and check for a stop *)

Definition decode_and_check (sampling_params : SamplingParams) (w : World)
    (entry : Z * Z) : World :=
  mutate (fun seq =>
            if negb (is_prompt_processing_finished seq) then seq
            else _check_stop self (_decode_sequence seq) sampling_params)
    (fst entry) w.

(** *** Phase 3: the loops over selected and unselected children *)

(** [for seq, parent in ...: if seq is not parent: seq_group.add(seq);
    if not seq.is_finished(): self.scheduler.fork_seq(parent, seq)]. *)
Definition add_and_fork (acc : SequenceGroup * World) (entry : Z * Z)
  : SequenceGroup * World :=
  let '(seq, parent) := entry in
  if bool_decide (seq <> parent) then
    let seq_group := group_add seq (fst acc) in
    if negb (finished_in (snd acc) seq)
    then (seq_group, call_scheduler (fork_seq parent seq) (snd acc))
    else (seq_group, snd acc)
  else acc.

(** [for seq, parent in ...: if seq is parent and seq.is_finished():
    self.scheduler.free_seq(seq)]. *)
Definition free_finished_parent (w : World) (entry : Z * Z) : World :=
  let '(seq, parent) := entry in
  if bool_decide (seq = parent) && finished_in w seq
  then call_scheduler (free_seq seq) w
  else w.

(** [for seq, parent in unselected_child_seqs: if seq is parent:
    seq_group.remove(seq.seq_id); self.scheduler.free_seq(seq)]. *)
Definition remove_unselected (acc : SequenceGroup * World) (entry : Z * Z)
  : SequenceGroup * World :=
  let '(seq, parent) := entry in
  if bool_decide (seq = parent)
  then (group_remove seq (fst acc), call_scheduler (free_seq seq) (snd acc))
  else acc.

(** *** The beam-search selection *)

(** The sort key [x[0].get_beam_search_score(length_penalty=length_penalty,
    eos_token_id=self.tokenizer.eos_token_id)]. *)
Definition beam_score (w : World) (length_penalty : Q) (id : Z) : Q :=
  get_beam_search_score (deref w id) length_penalty (eos_token_id self) None.

(** [all_finished_seqs] before the sort. *)
Definition all_finished_unsorted (w : World) (existing_finished_seqs : list Z)
    (child_seqs : ChildSeqs) : list FinishedEntry :=
  let existing_finished_seqs := map existing_finished existing_finished_seqs in
  let new_finished_seqs :=
    map (fun e => new_finished (fst e) (snd e))
      (filter (fun e => finished_in w (fst e) = true) child_seqs) in
  existing_finished_seqs ++ new_finished_seqs.

(** [all_finished_seqs] after [all_finished_seqs.sort(..., reverse=True)]. *)
Definition all_finished_sorted (w : World) (length_penalty : Q)
    (existing_finished_seqs : list Z) (child_seqs : ChildSeqs)
  : list FinishedEntry :=
  sort_by_key_desc (fun x => beam_score w length_penalty (fe_seq x))
    (all_finished_unsorted w existing_finished_seqs child_seqs).

(** [running_child_seqs] after its sort. *)
Definition running_sorted (w : World) (length_penalty : Q)
    (child_seqs : ChildSeqs) : ChildSeqs :=
  sort_by_key_desc (fun x => beam_score w length_penalty (fst x))
    (filter (fun e => finished_in w (fst e) = false) child_seqs).

(** The pairs appended by [for seq, parent, is_new in
    all_finished_seqs[:beam_width]: if is_new: ...append((seq, parent))] and
    by its twin over [all_finished_seqs[beam_width:]]. *)
Definition new_pairs (entries : list FinishedEntry) : ChildSeqs :=
  omap (fun e => match e with
                 | new_finished seq parent => Some (seq, parent)
                 | existing_finished _ => None
                 end) entries.

(** The [seq_group.remove(seq.seq_id)] of the existing finished sequences
    among [all_finished_seqs[beam_width:]]. *)
Definition remove_existing (seq_group : SequenceGroup)
    (entries : list FinishedEntry) : SequenceGroup :=
  foldl (fun g e => match e with
                    | existing_finished seq => group_remove seq g
                    | new_finished _ _ => g
                    end) seq_group entries.

(** The decision [stop_beam_search]. *)
Definition stop_beam_search (sampling_params : SamplingParams) (w : World)
    (all_finished_seqs : list FinishedEntry) (running_child_seqs : ChildSeqs)
  : result bool :=
  let beam_width := best_of sampling_params in
  if py_len running_child_seqs =? 0 then Ok true
  else if py_len all_finished_seqs <? beam_width then Ok false
  else
    do best <- py_index running_child_seqs 0;
    do worst <- py_index all_finished_seqs (beam_width - 1);
    let best_running_seq := deref w (fst best) in
    let current_worst_seq := deref w (fe_seq worst) in
    _check_beam_search_early_stopping (early_stopping sampling_params)
      sampling_params best_running_seq current_worst_seq.

(** *** [_process_sequence_group_samples] *)

(** Lines 398-436: the parents, the buckets, and the loop over the parents.
    A sample whose parent is not a running member raises [KeyError]. *)
Definition apply_samples (seq_group : SequenceGroup) (prompt_chunk_len : Z)
    (samples : list SequenceOutputs) (w : World)
  : result (SequenceGroup * World * ChildSeqs) :=
  let parent_seqs := get_seqs w seq_group RUNNING in
  if forallb (fun s => bool_decide (parent_seq_id s ∈ parent_seqs)) samples
  then Ok (foldl (process_parent samples prompt_chunk_len)
             (seq_group, w, []) parent_seqs)
  else Raise KeyError.

(** The state after the call and the exception that ended it, if any. *)
Definition Outcome : Type := (SequenceGroup * World * option PyError)%type.

Definition _process_sequence_group_samples (seq_group : SequenceGroup)
    (prompt_chunk_len : Z) (samples : list SequenceOutputs) (w0 : World)
  : Outcome :=
  let sampling_params := sampling_params seq_group in
  let existing_finished_seqs := get_finished_seqs w0 seq_group in
  match apply_samples seq_group prompt_chunk_len samples w0 with
  | Raise e => (seq_group, w0, Some e)
  | Ok (seq_group, w, child_seqs) =>
    let w := foldl (decode_and_check sampling_params) w child_seqs in
    if negb (use_beam_search sampling_params) then
      (* Non-beam search case *)
      let '(seq_group, w) := foldl add_and_fork (seq_group, w) child_seqs in
      let w := foldl free_finished_parent w child_seqs in
      (seq_group, w, None)
    else
      (* Beam search case *)
      let beam_width := best_of sampling_params in
      let length_penalty := length_penalty sampling_params in
      let all_finished_seqs :=
        all_finished_sorted w length_penalty existing_finished_seqs
          child_seqs in
      let selected_child_seqs :=
        new_pairs (py_slice_to all_finished_seqs beam_width) in
      let unselected_child_seqs :=
        new_pairs (py_slice_from all_finished_seqs beam_width) in
      let seq_group :=
        remove_existing seq_group
          (py_slice_from all_finished_seqs beam_width) in
      let running_child_seqs := running_sorted w length_penalty child_seqs in
      match stop_beam_search sampling_params w all_finished_seqs
              running_child_seqs with
      | Raise e => (seq_group, w, Some e)
      | Ok stop =>
        let '(selected_child_seqs, unselected_child_seqs) :=
          if stop
          then (selected_child_seqs,
                unselected_child_seqs ++ running_child_seqs)
          else (selected_child_seqs
                  ++ py_slice_to running_child_seqs beam_width,
                unselected_child_seqs
                  ++ py_slice_from running_child_seqs beam_width) in
        let '(seq_group, w) :=
          foldl add_and_fork (seq_group, w) selected_child_seqs in
        let w := foldl free_finished_parent w selected_child_seqs in
        let '(seq_group, w) :=
          foldl remove_unselected (seq_group, w) unselected_child_seqs in
        (seq_group, w, None)
      end
  end.

End OutputProcessor.

(* ================================================================== *)
(** ** The worker fan-out *)

(** The fields of [CacheConfig] the engine reads and writes;
    [num_gpu_blocks] and [num_cpu_blocks] are [None] until the profiling. *)
Record CacheConfig : Type := mkCacheConfig {
  block_size : Z;
  gpu_memory_utilization : Q;
  swap_space_bytes : Z;
  num_gpu_blocks : option Z;
  num_cpu_blocks : option Z
}.

(** [SequenceGroupMetadata] is produced by the scheduler and handed to the
    workers unread. *)
Record SequenceGroupMetadata : Type := mkSequenceGroupMetadata {
  md_request_id : string
}.

(** The arguments of [execute_model]. *)
Record ExecuteModelArgs : Type := mkExecuteModelArgs {
  seq_group_metadata_list : list SequenceGroupMetadata;
  arg_blocks_to_swap_in : gmap Z Z;
  arg_blocks_to_swap_out : gmap Z Z;
  arg_blocks_to_copy : gmap Z (list Z)
}.

(** A worker, by the answers of the methods whose results the engine
    uses. *)
Record Worker : Type := mkWorker {
  profile_num_available_blocks : Z -> Q -> Z -> Z * Z;
  execute_model : ExecuteModelArgs -> SamplerOutput * Q;
  get_gpu_id : Z
}.

(** A method call as [_run_workers] submits it to one worker. *)
Inductive WorkerMethod : Type :=
| m_init_worker
| m_init_model (rendezvous_id : Z)
| m_get_gpu_id
| m_profile_num_available_blocks
    (block_size : Z) (gpu_memory_utilization : Q) (cpu_swap_space : Z)
| m_init_cache_engine (cache_config : CacheConfig)
| m_execute_model (args : ExecuteModelArgs).

(** The log of the calls submitted to the workers: the index of the worker
    in [self.workers] and the method. *)
Definition WorkerLog : Type := list (nat * WorkerMethod).

Definition is_init_cache_engine (c : nat * WorkerMethod) : bool :=
  match snd c with m_init_cache_engine _ => true | _ => false end.

Definition is_init_model (c : nat * WorkerMethod) : bool :=
  match snd c with m_init_model _ => true | _ => false end.

(** What [_run_workers] returns: the list of all outputs under
    [get_all_outputs=True], otherwise the single agreed output. *)
Inductive RunOutput (R : Type) : Type :=
| AllOutputs (all_outputs : list R)
| OneOutput (output : R).
Arguments AllOutputs {R} all_outputs.
Arguments OneOutput {R} output.

(** [_run_workers(method, get_all_outputs=..., **kwargs)]: [executor] is the
    method applied to its arguments, [eqb] is [==] on its results. *)
Definition _run_workers {R : Type} (eqb : R -> R -> bool)
    (workers : list Worker) (method : WorkerMethod) (executor : Worker -> R)
    (get_all_outputs : bool) (log : WorkerLog)
  : WorkerLog * result (RunOutput R) :=
  let all_outputs := map executor workers in
  let log := log ++ imap (fun i _ => (i, method)) workers in
  if get_all_outputs then (log, Ok (AllOutputs all_outputs))
  else
    match all_outputs with
    | [] => (log, Raise IndexError)
    | output :: others =>
        if forallb (fun other_output => eqb output other_output) others
        then (log, Ok (OneOutput output))
        else (log, Raise AssertionError)
    end.

(** The list a call with [get_all_outputs=True] returned. *)
Definition all_outputs_of {R : Type} (r : result (RunOutput R)) : list R :=
  match r with
  | Ok (AllOutputs all_outputs) => all_outputs
  | _ => []
  end.

(** [==] on the [None] that [init_model] and [init_cache_engine] return. *)
Definition none_eq (_ _ : unit) : bool := true.

(** [==] on the tuples that [profile_num_available_blocks] returns. *)
Definition blocks_eq (a b : Z * Z) : bool :=
  (fst a =? fst b) && (snd a =? snd b).

(* ================================================================== *)
(** ** Start-up: the rendezvous id and the cache *)

(** [random.randint(a, b)]: an integer [N] with [a <= N <= b]; the argument
    [entropy] stands for the state of the generator. *)
Definition randint (a b : Z) (entropy : Z) : Z :=
  a + entropy mod (b - a + 1).

(** The right-hand side of
    [rendezvous_id = random.randint(0, 2**32 - 1) + self.replica_id]. *)
Definition rendezvous_id_of (self : LLMEngine) (entropy : Z) : Z :=
  randint 0 (2 ^ 32 - 1) entropy + replica_id self.

(** [_init_workers]: the workers, the log, and the exception if any. *)
Definition _init_workers (self : LLMEngine) (worker : Worker) (entropy : Z)
    (log : WorkerLog) : list Worker * WorkerLog * option PyError :=
  if negb (world_size self =? 1) then ([], log, Some AssertionError)
  else
    let workers := [worker] in
    let rendezvous_id := rendezvous_id_of self entropy in
    let '(log, _) :=
      _run_workers none_eq workers (m_init_model rendezvous_id)
        (fun _ => tt) true log in
    (workers, log, None).

(** [_check_consecutive_gpu_allocation]. *)
Definition _check_consecutive_gpu_allocation (self : LLMEngine)
    (workers : list Worker) (log : WorkerLog) : WorkerLog * option PyError :=
  if negb (worker_use_ray self) then (log, None)
  else
    let '(log, r) :=
      _run_workers Z.eqb workers m_get_gpu_id get_gpu_id true log in
    let gpu_ids := all_outputs_of r in
    match py_min gpu_ids, py_max gpu_ids with
    | Ok lo, Ok hi =>
        if bool_decide (py_range lo (hi + 1) = py_sorted gpu_ids)
        then (log, None)
        else (log, Some AssertionError)
    | Raise e, _ => (log, Some e)
    | _, Raise e => (log, Some e)
    end.

(** [_init_workers_ray]: [bundles] lists, for every bundle of the placement
    group, its ["GPU"] entry and the worker a GPU bundle gets. *)
Definition _init_workers_ray (self : LLMEngine) (bundles : list (Z * Worker))
    (entropy : Z) (log : WorkerLog)
  : list Worker * WorkerLog * option PyError :=
  let workers :=
    map snd (filter (fun b => fst b <> 0) bundles) in
  let '(log, _) :=
    _run_workers none_eq workers m_init_worker (fun _ => tt) true log in
  match _check_consecutive_gpu_allocation self workers log with
  | (log, Some e) => (workers, log, Some e)
  | (log, None) =>
      let rendezvous_id := rendezvous_id_of self entropy in
      let '(log, _) :=
        _run_workers none_eq workers (m_init_model rendezvous_id)
          (fun _ => tt) true log in
      (workers, log, None)
  end.

(** [_init_cache]: the cache config, the log, and the exception if any. *)
Definition _init_cache (workers : list Worker) (cache_config : CacheConfig)
    (log : WorkerLog) : CacheConfig * WorkerLog * option PyError :=
  let '(log, r) :=
    _run_workers blocks_eq workers
      (m_profile_num_available_blocks (block_size cache_config)
         (gpu_memory_utilization cache_config)
         (swap_space_bytes cache_config))
      (fun wk => profile_num_available_blocks wk (block_size cache_config)
                   (gpu_memory_utilization cache_config)
                   (swap_space_bytes cache_config))
      true log in
  let num_blocks := all_outputs_of r in
  match py_min (map fst num_blocks), py_min (map snd num_blocks) with
  | Raise e, _ => (cache_config, log, Some e)
  | _, Raise e => (cache_config, log, Some e)
  | Ok num_gpu_blocks', Ok num_cpu_blocks' =>
      if num_gpu_blocks' <=? 0 then (cache_config, log, Some ValueError)
      else
        let cache_config :=
          mkCacheConfig (block_size cache_config)
            (gpu_memory_utilization cache_config)
            (swap_space_bytes cache_config)
            (Some num_gpu_blocks') (Some num_cpu_blocks') in
        match _run_workers none_eq workers (m_init_cache_engine cache_config)
                (fun _ => tt) false log with
        | (log, Raise e) => (cache_config, log, Some e)
        | (log, Ok _) => (cache_config, log, None)
        end
  end.

(* ================================================================== *)
(** ** The step driver *)

(** Modelled from the spec: [SchedulerOutputs] of
    [vllm/core/scheduler/base_scheduler.py], which is not part of the
    sources. *)
Record SchedulerOutputs : Type := mkSchedulerOutputs {
  scheduled_seq_groups : list SequenceGroup;
  prompt_chunk_lens : list Z;
  blocks_to_swap_in : gmap Z Z;
  blocks_to_swap_out : gmap Z Z;
  blocks_to_copy : gmap Z (list Z);
  ignored_seq_groups : list SequenceGroup;
  num_batched_prompt_tokens : Z;
  num_batched_output_tokens : Z
}.

(** Modelled from the spec: [SchedulerOutputs.is_empty()] holds iff there are
    no scheduled groups and no block movements. *)
Definition is_empty (so : SchedulerOutputs) : bool :=
  bool_decide (scheduled_seq_groups so = [])
  && bool_decide (blocks_to_swap_in so = ∅)
  && bool_decide (blocks_to_swap_out so = ∅)
  && bool_decide (blocks_to_copy so = ∅).

(** Modelled from the spec: [RequestOutput] of [vllm/outputs.py], which is
    not part of the sources: the request id, one entry [(seq_id, output_text,
    token_ids, cumulative_logprob, finish_reason)] for every member of the
    group, and the [finished] flag. *)
Record CompletionOutput : Type := mkCompletionOutput {
  co_seq_id : Z;
  co_text : string;
  co_token_ids : list Z;
  co_cumulative_logprob : Q;
  co_finish_reason : option SequenceStatus
}.

Record RequestOutput : Type := mkRequestOutput {
  ro_request_id : string;
  ro_outputs : list CompletionOutput;
  ro_finished : bool
}.

(** Modelled from the spec: [RequestOutput.from_seq_group(seq_group)]. *)
Definition from_seq_group (w : World) (seq_group : SequenceGroup)
  : RequestOutput :=
  mkRequestOutput (request_id seq_group)
    (map (fun id =>
            let seq := deref w id in
            mkCompletionOutput id (output_text seq) (output_token_ids seq)
              (cumulative_logprob seq)
              (if is_finished seq then Some (status seq) else None))
       (seqs seq_group))
    (forallb (finished_in w) (seqs seq_group)).

Section StepDriver.

Context {collab : Collaborators}.
Variable self : LLMEngine.

(** [_schedule]: [plan] is what [self.scheduler.schedule()] returned, and
    [w] the state it left behind. *)
Definition _schedule (w : World)
    (plan : list SequenceGroupMetadata * SchedulerOutputs)
  : list SequenceGroupMetadata * SchedulerOutputs * list RequestOutput :=
  let '(seq_group_metadata_list, scheduler_outputs) := plan in
  (seq_group_metadata_list, scheduler_outputs,
   map (from_seq_group w) (ignored_seq_groups scheduler_outputs)).

(** The loop [for seq_group, prompt_chunk_len, samples in zip(
    scheduled_seq_groups, prompt_chunk_lens, output)]: the groups as the
    loop leaves them, the state, and the exception that ended it, if any. *)
Fixpoint process_groups (groups : list SequenceGroup) (lens : list Z)
    (output : SamplerOutput) (w : World)
  : list SequenceGroup * World * option PyError :=
  match groups, lens, output with
  | seq_group :: groups', prompt_chunk_len :: lens', samples :: output' =>
      match _process_sequence_group_samples self seq_group prompt_chunk_len
              samples w with
      | (seq_group, w, Some e) => (seq_group :: groups', w, Some e)
      | (seq_group, w, None) =>
          let '(groups', w, err) := process_groups groups' lens' output' w in
          (seq_group :: groups', w, err)
      end
  | _, _, _ => (groups, w, None)
  end.

(** [_process_model_outputs].  The call of [_log_system_stats] only reads
    the clock and writes to the logger, and is left out. *)
Definition _process_model_outputs (output : SamplerOutput)
    (scheduler_outputs : SchedulerOutputs) (w : World)
  : World * result (list RequestOutput) :=
  match process_groups (scheduled_seq_groups scheduler_outputs)
          (prompt_chunk_lens scheduler_outputs) output w with
  | (_, w, Some e) => (w, Raise e)
  | (scheduled_seq_groups, w, None) =>
      let w := call_scheduler free_finished_seq_groups w in
      let request_outputs :=
        map (from_seq_group w)
          (scheduled_seq_groups ++ ignored_seq_groups scheduler_outputs) in
      (w, Ok request_outputs)
  end.

(** The equality gate of [step]:
    [outputs, model_execution_times = zip( *worker_outputs)];
    [assert all(output == outputs[0] for output in outputs)];
    [output = outputs[0]]. *)
Definition equality_gate (worker_outputs : list (SamplerOutput * Q))
  : result SamplerOutput :=
  match map fst worker_outputs with
  | [] => Raise ValueError
  | first :: rest =>
      let outputs := first :: rest in
      do _ <- py_assert
                (forallb (fun output => sampler_output_eq output first)
                   outputs);
      Ok first
  end.

(** [step]: the state, the log of worker calls, and what the call returns or
    raises.  The timers, [min(model_execution_times)] and the call of
    [metrics_store.on_batch_end] only feed the metrics and are left out. *)
Definition step (workers : list Worker)
    (plan : list SequenceGroupMetadata * SchedulerOutputs)
    (w : World) (log : WorkerLog)
  : World * WorkerLog * result (list RequestOutput) :=
  let '(seq_group_metadata_list, scheduler_outputs, ignored) :=
    _schedule w plan in
  if is_empty scheduler_outputs then (w, log, Ok ignored)
  else
    let args :=
      mkExecuteModelArgs seq_group_metadata_list
        (blocks_to_swap_in scheduler_outputs)
        (blocks_to_swap_out scheduler_outputs)
        (blocks_to_copy scheduler_outputs) in
    let '(log, r) :=
      _run_workers
        (fun a b => sampler_output_eq (fst a) (fst b) && Qeq_bool (snd a) (snd b))
        workers (m_execute_model args)
        (fun wk => execute_model wk args) true log in
    let worker_outputs := all_outputs_of r in
    match equality_gate worker_outputs with
    | Raise e => (w, log, Raise e)
    | Ok output =>
        match _process_model_outputs output scheduler_outputs w with
        | (w, Raise e) => (w, log, Raise e)
        | (w, Ok request_outputs) => (w, log, Ok (request_outputs ++ ignored))
        end
    end.

End StepDriver.

(* ================================================================== *)
(** ** Properties used in the statements *)

(** Every [fork_seq] call stands in front of every [free_seq] call. *)
Definition forks_precede_frees (calls : list SchedCall) : Prop :=
  forall (i j : nat) (s p c : Z),
    calls !! i = Some (free_seq s) ->
    calls !! j = Some (fork_seq p c) ->
    (j < i)%nat.

(** A list paired with the positions of its elements, counted from [k]. *)
Fixpoint indexed_from {A : Type} (k : nat) (l : list A) : list (nat * A) :=
  match l with
  | [] => []
  | x :: l' => (k, x) :: indexed_from (S k) l'
  end.

Definition indexed {A : Type} (l : list A) : list (nat * A) :=
  indexed_from 0 l.

(** On elements tagged with a position: higher key first; among equal keys
    the earlier position first. *)
Definition stable_desc {A : Type} (key : A -> Q) (a b : nat * A) : Prop :=
  (key (snd b) < key (snd a))%Q
  \/ ((key (snd a) == key (snd b))%Q /\ (fst a < fst b)%nat).

(** The comparison of [sort_by_key_desc] on tagged elements. *)
Definition tagged_before {A : Type} (key : A -> Q) (a b : nat * A) : bool :=
  Qle_bool (key (snd b)) (key (snd a)).

(** The order of [all_finished_seqs]: higher score first; among equal scores
    the earlier position in [existing_finished_seqs + new_finished_seqs]
    first; then the smaller sequence id. *)
Definition rank_before (score : Z -> Q) (a b : nat * FinishedEntry) : Prop :=
  (score (fe_seq (snd b)) < score (fe_seq (snd a)))%Q
  \/ ((score (fe_seq (snd a)) == score (fe_seq (snd b)))%Q
      /\ ((fst a < fst b)%nat
          \/ (fst a = fst b /\ fe_seq (snd a) <= fe_seq (snd b)))).

(** The running parents that received no sample: those the first loop of
    [_process_sequence_group_samples] aborts and frees. *)
Definition childless (samples : list SequenceOutputs) (parents : list Z)
  : list Z :=
  filter (fun p => child_samples_of samples p = []) parents.

(** The [fork_seq] calls of the loop [add_and_fork] over a list of pairs. *)
Definition forks_of (w : World) (l : ChildSeqs) : list SchedCall :=
  map (fun e => fork_seq (snd e) (fst e))
    (filter (fun e => fst e <> snd e /\ finished_in w (fst e) = false) l).

(** The ids the loop [add_and_fork] adds to the group. *)
Definition added_by (l : ChildSeqs) : list Z :=
  map fst (filter (fun e => fst e <> snd e) l).

(** The [free_seq] calls of the loop [free_finished_parent]. *)
Definition frees_of_finished (w : World) (l : ChildSeqs) : list SchedCall :=
  map (fun e => free_seq (fst e))
    (filter (fun e => fst e = snd e /\ finished_in w (fst e) = true) l).

(** The parents the loop [remove_unselected] removes and frees. *)
Definition dropped_parents (l : ChildSeqs) : list Z :=
  map fst (filter (fun e => fst e = snd e) l).

(** The ids of the existing finished sequences among some entries. *)
Definition existing_ids (entries : list FinishedEntry) : list Z :=
  omap (fun e => match e with
                 | existing_finished seq => Some seq
                 | new_finished _ _ => None
                 end) entries.

(** A group with its member list replaced. *)
Definition with_seqs (ids : list Z) (g : SequenceGroup) : SequenceGroup :=
  mkSequenceGroup (request_id g) ids (sampling_params g).

(** A world with more scheduler calls. *)
Definition with_calls (calls : list SchedCall) (w : World) : World :=
  mkWorld (store w) (seq_counter w) (sched_calls w ++ calls).

(** A value of an unsigned 32-bit integer. *)
Definition is_uint32 (x : Z) : Prop := 0 <= x < 2 ^ 32.

(** The number of outputs that a list holds for a request. *)
Definition outputs_for (rid : string) (outs : list RequestOutput) : nat :=
  List.length (filter (fun o => ro_request_id o = rid) outs).

(* ================================================================== *)
(** ** A concrete engine for the examples *)

Module Examples.

(** Modelled from the spec: [append_token_id] appends the token, adds its
    log-probability to the cumulative one and marks the prompt as
    processed. *)
Definition spec_append_token_id (seq : Sequence) (sample : SequenceOutputs)
    (prompt_chunk_len : Z) : Sequence :=
  mkSequence (prompt_token_ids seq)
    (output_token_ids seq ++ [output_token sample])
    (cumulative_logprob seq
     + default 0%Q (snd <$> List.find (fun e => fst e =? output_token sample)
                              (logprobs sample)))%Q
    (status seq) (tokens seq) (prefix_offset seq) (read_offset seq)
    (output_text seq) true.

(** Modelled from the spec: [get_beam_search_score] is
    [cumulative_logprob / len ^ length_penalty], [len] leaving out a trailing
    EOS token unless [seq_len] overrides it.  This instance serves the
    examples only and agrees with the formula where they use it, for an
    integral penalty and a non-zero [len ^ length_penalty]: the exponent is
    rounded down to an integer, and a division by zero, which raises in
    Python, has the value [0] of the rationals here. *)
Definition spec_get_beam_search_score (seq : Sequence) (length_penalty : Q)
    (eos : Z) (seq_len : option Z) : Q :=
  let len :=
    match seq_len with
    | Some l => l
    | None =>
        if bool_decide (get_last_token_id seq = Some eos)
        then get_len seq - 1 else get_len seq
    end in
  (cumulative_logprob seq / Qpower (inject_Z len) (Qfloor length_penalty))%Q.

(** A detokenizer that writes every token as one character. *)
Definition spec_detokenize_incrementally (all_input_ids : list Z)
    (prev_tokens : option (list string)) (prefix_offset read_offset : Z)
  : list string * string * Z * Z :=
  let new_text :=
    match last all_input_ids with
    | Some t => String (ascii_of_nat (Z.to_nat t)) EmptyString
    | None => EmptyString
    end in
  ([new_text], new_text, read_offset, py_len all_input_ids).

Definition sequence_outputs_eqb (a b : SequenceOutputs) : bool :=
  (parent_seq_id a =? parent_seq_id b)
  && (output_token a =? output_token b)
  && bool_decide (Forall2 (fun x y => fst x = fst y /\ Qeq_bool (snd x) (snd y) = true)
                    (logprobs a) (logprobs b)).

Definition spec_sampler_output_eq (a b : SamplerOutput) : bool :=
  bool_decide (Forall2 (Forall2 (fun x y => sequence_outputs_eqb x y = true)) a b).

Definition spec_collaborators : Collaborators :=
  Build_Collaborators spec_append_token_id spec_get_beam_search_score
    spec_detokenize_incrementally spec_sampler_output_eq.

(** [max_model_len = 2048], EOS token 2, replica 0, one in-process worker. *)
Definition engine : LLMEngine := mkLLMEngine 2048 2 0 1 false.

Definition running_seq (prompt : list Z) (text : string) : Sequence :=
  mkSequence prompt [] 0%Q RUNNING None 0 0 text true.

Definition greedy (stops : list string) : SamplingParams :=
  mkSamplingParams 1 1 false 1%Q (ES_bool false) stops false 16.

Definition beam (width : Z) (es : EarlyStopping) : SamplingParams :=
  mkSamplingParams width width true 1%Q es [] false 16.

Definition sample (parent token : Z) : SequenceOutputs :=
  mkSequenceOutputs parent token [(token, 0%Q)].

(** A world with the sequences 0 and 1 running on the prompt [[10; 20]]. *)
Definition two_beams : World :=
  mkWorld (<[0 := running_seq [10; 20] EmptyString]>
             (<[1 := running_seq [10; 20] EmptyString]> ∅)) 2 [].

Definition beam_group : SequenceGroup :=
  mkSequenceGroup "r1"%string [0; 1] (beam 2 (ES_bool false)).

(** A worker that answers every [execute_model] with the same sampler
    output and one second of execution time. *)
Definition const_worker (output : SamplerOutput) (blocks : Z * Z)
    (gpu_id : Z) : Worker :=
  mkWorker (fun _ _ _ => blocks) (fun _ => (output, 1%Q)) gpu_id.

(** A world with the running sequence 0 of request [r1] and the ignored
    sequence 5 of request [r2]. *)
Definition running_and_ignored : World :=
  mkWorld (<[0 := running_seq [10; 20; 30] EmptyString]>
             (<[5 := set_status FINISHED_IGNORED
                       (running_seq [1; 2; 3] EmptyString)]> ∅)) 6 [].

Definition running_group : SequenceGroup :=
  mkSequenceGroup "r1"%string [0] (greedy []).

Definition ignored_group : SequenceGroup :=
  mkSequenceGroup "r2"%string [5] (greedy []).

(** A plan without scheduled groups and block movements. *)
Definition empty_plan : list SequenceGroupMetadata * SchedulerOutputs :=
  ([], mkSchedulerOutputs [] [] ∅ ∅ ∅ [ignored_group] 0 0).

(** A plan that schedules [r1] for one decoding step and ignores [r2]. *)
Definition mixed_plan : list SequenceGroupMetadata * SchedulerOutputs :=
  ([mkSequenceGroupMetadata "r1"%string],
   mkSchedulerOutputs [running_group] [0] ∅ ∅ ∅ [ignored_group] 0 1).

(** A world with the finished sequence 0 (score -1/3) and the running
    sequence 1 (score -1) of a beam search of width 1. *)
Definition finished_and_running : World :=
  mkWorld (<[0 := mkSequence [10; 20] [7; 2] (-1)%Q FINISHED_STOPPED None
                    0 0 EmptyString true]>
             (<[1 := mkSequence [10; 20] [8] (-3)%Q RUNNING None
                       0 0 EmptyString true]> ∅)) 2 [].

(** A beam search of width 1 over the finished sequence 0 and the running
    sequences 1 and 2, all on the prompt [[10; 20]]. *)
Definition beam_world : World :=
  mkWorld (<[0 := mkSequence [10; 20] [7; 2] (-6)%Q FINISHED_STOPPED None
                    0 0 EmptyString true]>
             (<[1 := mkSequence [10; 20] [5] (-1)%Q RUNNING None
                       0 0 EmptyString true]>
                (<[2 := mkSequence [10; 20] [6] (-2)%Q RUNNING None
                          0 0 EmptyString true]> ∅))) 3 [].

Definition narrow_beam_group : SequenceGroup :=
  mkSequenceGroup "r1"%string [0; 1; 2] (beam 1 (ES_bool false)).

(** Sequence 1 samples the EOS token and sequence 2 the token 8. *)
Definition beam_samples : list SequenceOutputs := [sample 1 2; sample 2 8].

(** The value of a call that returned. *)
Definition returned {A : Type} (r : result A) (d : A) : A :=
  match r with Ok a => a | Raise _ => d end.

Definition cache_config0 : CacheConfig :=
  mkCacheConfig 16 (9 # 10) 4096 None None.

End Examples.

(* ================================================================== *)
(** ** Requests and the start-up sequence *)

(** Modelled from the spec: the constructor [Sequence(seq_id, prompt,
    prompt_token_ids, block_size, arrived_at)] of [vllm/sequence.py], which
    is not part of the sources: a new sequence holds its prompt tokens and
    nothing else, and waits. *)
Definition new_sequence (prompt_token_ids : list Z) : Sequence :=
  mkSequence prompt_token_ids [] 0%Q WAITING None 0 0 EmptyString false.

(** The request pool: the heap with the id counter, and the groups handed to
    [self.scheduler.add_seq_group], oldest first. *)
Record Pool : Type := mkPool {
  pool_world : World;
  pool_groups : list SequenceGroup
}.

(** [add_request]: [encode] is [self.tokenizer.encode]; the clock readings
    and the call of [metrics_store.on_request_arrival] only feed the metrics
    and are left out. *)
Definition add_request (encode : string -> list Z) (request_id : string)
    (prompt : option string) (sampling_params : SamplingParams)
    (prompt_token_ids : option (list Z)) (pool : Pool)
  : Pool * option PyError :=
  let tokens :=
    match prompt_token_ids with
    | Some ids => Ok ids
    | None =>
        do _ <- py_assert (bool_decide (prompt <> None));
        match prompt with
        | Some text => Ok (encode text)
        | None => Raise AssertionError
        end
    end in
  match tokens with
  | Raise e => (pool, Some e)
  | Ok prompt_token_ids =>
      let '(seq_id, w) := next_seq_id (pool_world pool) in
      let w := allocate seq_id (new_sequence prompt_token_ids) w in
      let seq_group := mkSequenceGroup request_id [seq_id] sampling_params in
      (mkPool w (pool_groups pool ++ [seq_group]), None)
  end.

(** The part of [__init__] that brings the workers up (lines 114-121):
    [_init_workers_ray] or [_init_workers], then [_init_cache]; an exception
    of the first ends the construction. *)
Definition init_workers_and_cache (self : LLMEngine)
    (bundles : list (Z * Worker)) (worker : Worker) (entropy : Z)
    (cache_config : CacheConfig) (log : WorkerLog)
  : list Worker * CacheConfig * WorkerLog * option PyError :=
  let '(workers, log, err) :=
    if worker_use_ray self
    then _init_workers_ray self bundles entropy log
    else _init_workers self worker entropy log in
  match err with
  | Some e => (workers, cache_config, log, Some e)
  | None =>
      let '(cache_config, log, err) := _init_cache workers cache_config log in
      (workers, cache_config, log, err)
  end.

(** Every stored sequence has an id that the counter has already passed. *)
Definition ids_below_counter (w : World) : Prop :=
  forall id, is_Some (store w !! id) -> id < seq_counter w.

(** The members of a group are distinct stored sequences. *)
Definition group_well_formed (w : World) (g : SequenceGroup) : Prop :=
  NoDup (seqs g) /\ Forall (fun id => is_Some (store w !! id)) (seqs g).

(** The conditions under which the stop check finishes a sequence. *)
Definition stop_condition (self : LLMEngine) (seq : Sequence)
    (sp : SamplingParams) : Prop :=
  Exists (fun s => endswith (output_text seq) s = true) (stop sp)
  \/ max_model_len self < get_len seq
  \/ get_output_len seq = max_tokens sp
  \/ (ignore_eos sp = false
      /\ get_last_token_id seq = Some (eos_token_id self)).

(** The run [lo, lo + 1, ..., lo + n - 1]. *)
Definition consecutive_from (lo : Z) (n : nat) : list Z :=
  seqZ lo (Z.of_nat n).

(** What the loop [for seq, _ in child_seqs] does to one sequence: nothing
    while the prompt is still being processed, else [_decode_sequence] and
    then [_check_stop]. *)
Definition second_phase {collab : Collaborators} (self : LLMEngine)
    (sampling_params : SamplingParams) (seq : Sequence) : Sequence :=
  if negb (is_prompt_processing_finished seq) then seq
  else _check_stop self (_decode_sequence seq) sampling_params.

(** The parents that got a sample. *)
Definition sampled (samples : list SequenceOutputs) (parents : list Z)
  : list Z :=
  filter (fun p => child_samples_of samples p <> []) parents.

(** The body of the loop of [_process_model_outputs] on one triple of
    [zip(scheduled_seq_groups, prompt_chunk_lens, output)]: [seen] are the
    groups of the triples met so far, and after an exception the remaining
    triples are only passed over. *)
Definition process_triple {collab : Collaborators} (self : LLMEngine)
    (acc : list SequenceGroup * World * option PyError)
    (triple : SequenceGroup * Z * list SequenceOutputs)
  : list SequenceGroup * World * option PyError :=
  let '(seen, w, err) := acc in
  let '(seq_group, prompt_chunk_len, samples) := triple in
  match err with
  | Some e => (seen ++ [seq_group], w, Some e)
  | None =>
      let '(seq_group, w, err) :=
        _process_sequence_group_samples self seq_group prompt_chunk_len
          samples w in
      (seen ++ [seq_group], w, err)
  end.

(* ================================================================== *)
(** * Properties *)

(** ** Strings and slices *)

Lemma string_of_list_ascii_app (a b : list ascii) :
  string_of_list_ascii (a ++ b)
  = String.append (string_of_list_ascii a) (string_of_list_ascii b).
Proof.
  induction a as [|x a IH]; simpl; [reflexivity|]. by rewrite IH.
Qed.

Lemma string_length_list_ascii (s : string) :
  List.length (list_ascii_of_string s) = String.length s.
Proof. induction s as [|a s IH]; simpl; [done | by rewrite IH]. Qed.

Lemma list_ascii_of_string_app (s t : string) :
  list_ascii_of_string (String.append s t)
  = list_ascii_of_string s ++ list_ascii_of_string t.
Proof. induction s as [|a s IH]; simpl; [done | by rewrite IH]. Qed.

Lemma py_bound_neg {A : Type} (l : list A) (k : nat) :
  (0 < k)%nat ->
  py_bound l (- Z.of_nat k) = (List.length l - k)%nat.
Proof.
  intros Hk. unfold py_bound, py_len.
  destruct (Z.ltb_spec (- Z.of_nat k) 0); lia.
Qed.

Lemma py_bound_nonneg {A : Type} (l : list A) (i : Z) :
  0 <= i -> py_bound l i = Nat.min (Z.to_nat i) (List.length l).
Proof.
  intros Hi. unfold py_bound, py_len.
  destruct (Z.ltb_spec i 0); lia.
Qed.

Lemma py_slice_to_from {A : Type} (l : list A) (i : Z) :
  py_slice_to l i ++ py_slice_from l i = l.
Proof. apply take_drop. Qed.

(** [endswith] holds exactly of the strings that are a prefix followed by
    the suffix. *)
Lemma endswith_spec (s suffix : string) :
  endswith s suffix = true <-> exists pre, s = String.append pre suffix.
Proof.
  unfold endswith. rewrite andb_true_iff, Nat.leb_le, bool_decide_eq_true.
  split.
  - intros [Hlen Hdrop].
    remember (List.length (list_ascii_of_string s)
              - List.length (list_ascii_of_string suffix))%nat as k.
    exists (string_of_list_ascii (take k (list_ascii_of_string s))).
    assert (Hs : list_ascii_of_string s
                 = take k (list_ascii_of_string s)
                   ++ list_ascii_of_string suffix)
      by (rewrite <- Hdrop; symmetry; apply take_drop).
    apply (f_equal string_of_list_ascii) in Hs.
    rewrite string_of_list_ascii_app in Hs.
    by rewrite !string_of_list_ascii_of_string in Hs.
  - intros [pre ->]. rewrite list_ascii_of_string_app, length_app.
    split; [lia|].
    replace (List.length (list_ascii_of_string pre)
             + List.length (list_ascii_of_string suffix)
             - List.length (list_ascii_of_string suffix))%nat
      with (List.length (list_ascii_of_string pre)) by lia.
    by rewrite drop_app_length.
Qed.

(** Cutting a non-empty suffix off with [s[:-len(suffix)]] leaves the rest
    of the string. *)
Lemma str_slice_to_suffix (pre suffix : string) :
  suffix <> EmptyString ->
  str_slice_to (String.append pre suffix) (- str_len suffix) = pre.
Proof.
  intros Hne. unfold str_slice_to, py_slice_to, str_len.
  rewrite py_bound_neg.
  - rewrite list_ascii_of_string_app, length_app, !string_length_list_ascii.
    replace (String.length pre + String.length suffix
             - String.length suffix)%nat
      with (List.length (list_ascii_of_string pre))
      by (rewrite string_length_list_ascii; lia).
    rewrite take_app_length. apply string_of_list_ascii_of_string.
  - destruct suffix; [done | simpl; lia].
Qed.

(** With the empty suffix the slice is [s[:0]], the empty string. *)
Lemma str_slice_to_empty_suffix (s : string) :
  str_slice_to s (- str_len EmptyString) = EmptyString.
Proof.
  unfold str_slice_to, py_slice_to.
  change (- str_len EmptyString) with 0.
  by rewrite py_bound_nonneg by lia.
Qed.

(** ** The stop check *)

Lemma check_stop_strings_none (stops : list string) (c : Checked) :
  check_stop_strings stops c = None
  <-> Forall (fun stop_str => endswith (output_text (fst c)) stop_str = false)
        stops.
Proof.
  induction stops as [|stop_str rest IH]; simpl.
  - split; [constructor | done].
  - destruct (endswith (output_text (fst c)) stop_str) eqn:E.
    + split; [done | inversion 1; congruence].
    + rewrite IH. split; [by constructor | by inversion 1].
Qed.

(** The loop returns at the first stop string, in list order, that is a
    suffix of the text. *)
Lemma check_stop_strings_some (stops : list string) (c c' : Checked) :
  check_stop_strings stops c = Some c'
  <-> exists pre stop_str post,
        stops = pre ++ stop_str :: post
        /\ Forall (fun s => endswith (output_text (fst c)) s = false) pre
        /\ endswith (output_text (fst c)) stop_str = true
        /\ c' = do_set_status FINISHED_STOPPED
                  (do_set_output_text
                     (str_slice_to (output_text (fst c)) (- str_len stop_str))
                     c).
Proof.
  induction stops as [|s rest IH]; simpl.
  - split; [done|]. intros (pre & ? & ? & H & _). by destruct pre.
  - destruct (endswith (output_text (fst c)) s) eqn:E.
    + split.
      * intros [= <-]. exists [], s, rest. repeat split; [constructor | done].
      * intros (pre & s' & post & Hst & Hpre & Hs' & ->).
        destruct pre as [|p pre]; simpl in Hst; injection Hst as -> ->.
        -- done.
        -- inversion Hpre; congruence.
    + rewrite IH. split.
      * intros (pre & s' & post & -> & Hpre & Hs' & ->).
        exists (s :: pre), s', post. repeat split; [by constructor | done].
      * intros (pre & s' & post & Hst & Hpre & Hs' & ->).
        destruct pre as [|p pre]; simpl in Hst; injection Hst as -> ->.
        -- congruence.
        -- exists pre, s', post. repeat split; [by inversion Hpre | done].
Qed.

Lemma check_stop_traced_no_match (self : LLMEngine) (seq : Sequence)
    (sp : SamplingParams) :
  Forall (fun s => endswith (output_text seq) s = false) (stop sp) ->
  check_stop_traced self seq sp
  = if max_model_len self <? get_len seq
    then (set_status FINISHED_LENGTH_CAPPED seq, [FINISHED_LENGTH_CAPPED])
    else if get_output_len seq =? max_tokens sp
    then (set_status FINISHED_LENGTH_CAPPED seq, [FINISHED_LENGTH_CAPPED])
    else if negb (ignore_eos sp)
            && bool_decide (get_last_token_id seq = Some (eos_token_id self))
    then (set_status FINISHED_STOPPED seq, [FINISHED_STOPPED])
    else (seq, []).
Proof.
  intros Hno. unfold check_stop_traced.
  assert (check_stop_strings (stop sp) (seq, []) = None) as ->
    by by apply check_stop_strings_none.
  reflexivity.
Qed.

(** The rules of the stop check in their order, for every input: a stop
    string wins over the length rules, those over the EOS rule, and a
    non-empty stop string is cut off the text. *)
Lemma check_stop_rule_order (self : LLMEngine) (seq : Sequence)
    (sp : SamplingParams) :
  let no_stop :=
    Forall (fun s => endswith (output_text seq) s = false) (stop sp) in
  let seq' := _check_stop self seq sp in
  (forall pre stop_str post,
      stop sp = pre ++ stop_str :: post ->
      Forall (fun s => endswith (output_text seq) s = false) pre ->
      endswith (output_text seq) stop_str = true ->
      status seq' = FINISHED_STOPPED
      /\ output_text seq'
         = str_slice_to (output_text seq) (- str_len stop_str)
      /\ (stop_str <> EmptyString ->
          String.append (output_text seq') stop_str = output_text seq))
  /\ (no_stop -> max_model_len self < get_len seq ->
      seq' = set_status FINISHED_LENGTH_CAPPED seq)
  /\ (no_stop -> get_len seq <= max_model_len self ->
      get_output_len seq = max_tokens sp ->
      seq' = set_status FINISHED_LENGTH_CAPPED seq)
  /\ (no_stop -> get_len seq <= max_model_len self ->
      get_output_len seq <> max_tokens sp ->
      ignore_eos sp = false ->
      get_last_token_id seq = Some (eos_token_id self) ->
      seq' = set_status FINISHED_STOPPED seq)
  /\ (no_stop -> get_len seq <= max_model_len self ->
      get_output_len seq <> max_tokens sp ->
      (ignore_eos sp = true
       \/ get_last_token_id seq <> Some (eos_token_id self)) ->
      seq' = seq).
Proof.
  intros no_stop seq'. subst no_stop seq'. unfold _check_stop.
  split; [|repeat split].
  - intros pre stop_str post Hst Hpre Hm.
    assert (check_stop_strings (stop sp) (seq, [])
            = Some (do_set_status FINISHED_STOPPED
                      (do_set_output_text
                         (str_slice_to (output_text seq) (- str_len stop_str))
                         (seq, [])))) as E.
    { apply check_stop_strings_some. exists pre, stop_str, post. done. }
    unfold check_stop_traced. rewrite E. simpl.
    repeat split. intros Hne.
    apply endswith_spec in Hm as [p Hp]. rewrite Hp.
    by rewrite str_slice_to_suffix.
  - intros Hno Hlen. rewrite check_stop_traced_no_match by done.
    destruct (Z.ltb_spec (max_model_len self) (get_len seq)); [done | lia].
  - intros Hno Hlen Hout. rewrite check_stop_traced_no_match by done.
    destruct (Z.ltb_spec (max_model_len self) (get_len seq)); [lia|].
    by rewrite (proj2 (Z.eqb_eq _ _) Hout).
  - intros Hno Hlen Hout Hign Heos. rewrite check_stop_traced_no_match by done.
    destruct (Z.ltb_spec (max_model_len self) (get_len seq)); [lia|].
    rewrite (proj2 (Z.eqb_neq _ _) Hout), Hign.
    by rewrite bool_decide_eq_true_2.
  - intros Hno Hlen Hout Heos. rewrite check_stop_traced_no_match by done.
    destruct (Z.ltb_spec (max_model_len self) (get_len seq)); [lia|].
    rewrite (proj2 (Z.eqb_neq _ _) Hout).
    destruct Heos as [-> | Hne]; [done|].
    rewrite bool_decide_eq_false_2 by done. by rewrite andb_false_r.
Qed.

(** What the stop check leaves alone, for every input: it assigns at most
    one status, never touches the tokens, and changes the text only when a
    stop string matched. *)
Lemma check_stop_frame (self : LLMEngine) (seq : Sequence)
    (sp : SamplingParams) :
  let '(seq', assigned) := check_stop_traced self seq sp in
  (List.length assigned <= 1)%nat
  /\ Forall (fun st => status_is_finished st = true /\ status seq' = st)
       assigned
  /\ (assigned = [] -> seq' = seq)
  /\ prompt_token_ids seq' = prompt_token_ids seq
  /\ output_token_ids seq' = output_token_ids seq
  /\ (Forall (fun s => endswith (output_text seq) s = false) (stop sp) ->
      output_text seq' = output_text seq).
Proof.
  destruct (check_stop_strings (stop sp) (seq, [])) as [c'|] eqn:E.
  - unfold check_stop_traced. rewrite E.
    pose proof E as E'.
    apply check_stop_strings_some in E
      as (pre & stop_str & post & Hst & Hpre & Hm & ->).
    simpl. repeat split; [lia | by repeat constructor | done |].
    intros Hno. rewrite Hst in Hno.
    apply Forall_app in Hno as [_ Hno]. simpl in Hm.
    inversion Hno; congruence.
  - apply check_stop_strings_none in E.
    rewrite check_stop_traced_no_match by done.
    destruct (_ <? _); [|destruct (_ =? _); [|destruct (_ && _)]];
      simpl; repeat split; try lia; try done; by repeat constructor.
Qed.

(** C3 (the code departs from the claim): with the empty string among the
    stop strings, rule (i) fires on any text, and the slice
    [output_text[:-len(stop_str)]] is [output_text[:0]]: the whole text is
    erased instead of the empty suffix being cut off. *)
Theorem check_stop_empty_stop_string_erases_text :
  let seq := Examples.running_seq [1] "abc"%string in
  let sp := Examples.greedy [EmptyString] in
  let seq' := _check_stop Examples.engine seq sp in
  endswith (output_text seq) EmptyString = true
  /\ status seq' = FINISHED_STOPPED
  /\ output_text seq' = EmptyString
  /\ String.append (output_text seq') EmptyString <> output_text seq.
Proof. vm_compute. repeat split; congruence. Qed.

(** C10 (the code departs from the claim): a single status is assigned and
    the tokens stay as they are, but with the empty stop string matched the
    text loses five characters although the matched stop string has none. *)
Theorem check_stop_empty_stop_string_breaks_frame :
  let seq := Examples.running_seq [1; 2; 3] "Hello"%string in
  let sp := Examples.greedy [EmptyString; "lo"%string] in
  let seq' := fst (check_stop_traced Examples.engine seq sp) in
  let assigned := snd (check_stop_traced Examples.engine seq sp) in
  assigned = [FINISHED_STOPPED]
  /\ get_token_ids seq' = get_token_ids seq
  /\ check_stop_strings (stop sp) (seq, [])
     = Some (do_set_status FINISHED_STOPPED
               (do_set_output_text
                  (str_slice_to (output_text seq) (- str_len EmptyString))
                  (seq, [])))
  /\ str_len (output_text seq) - str_len EmptyString = 5
  /\ str_len (output_text seq') = 0.
Proof. vm_compute. repeat split; congruence. Qed.

(** ** The worker fan-out and the step driver *)

Lemma foldl_min_le (l : list Z) (x : Z) :
  foldl Z.min x l <= x /\ Forall (fun y => foldl Z.min x l <= y) l
  /\ (foldl Z.min x l = x \/ foldl Z.min x l ∈ l).
Proof.
  revert x. induction l as [|y l IH]; intros x; simpl.
  - repeat split; [lia | constructor | by left].
  - destruct (IH (Z.min x y)) as (H1 & H2 & H3).
    repeat split; [lia | constructor; [lia | done] |].
    destruct H3 as [H3 | H3].
    + destruct (Z.min_spec x y) as [[_ E] | [_ E]]; rewrite E in *.
      * by left.
      * right. rewrite H3. apply list_elem_of_here.
    + right. by apply list_elem_of_further.
Qed.

(** [min] returns a least element of a non-empty list. *)
Lemma py_min_spec (l : list Z) :
  l <> [] ->
  exists m, py_min l = Ok m /\ m ∈ l /\ Forall (fun y => m <= y) l.
Proof.
  destruct l as [|x l]; [done|]. intros _. simpl.
  destruct (foldl_min_le l x) as (H1 & H2 & H3).
  eexists; repeat split.
  - destruct H3 as [-> | H3]; [by left | by right].
  - by constructor.
Qed.

Lemma Forall_imap_all {A B : Type} (P : B -> Prop) (f : nat -> A -> B)
    (l : list A) :
  (forall i x, P (f i x)) -> Forall P (imap f l).
Proof.
  revert f. induction l as [|a l IH]; intros f Hf; simpl; constructor.
  - apply Hf.
  - apply IH. intros i x. apply Hf.
Qed.

Lemma run_workers_all {R : Type} (eqb : R -> R -> bool)
    (workers : list Worker) (method : WorkerMethod) (executor : Worker -> R)
    (log : WorkerLog) :
  _run_workers eqb workers method executor true log
  = (log ++ imap (fun i _ => (i, method)) workers,
     Ok (AllOutputs (map executor workers))).
Proof. reflexivity. Qed.

(** C7: on an empty plan [step] returns the outputs of the ignored groups
    and nothing else happens: the state is the one [schedule] left, no call
    is submitted to a worker and none to the scheduler. *)
Theorem step_empty_plan {collab : Collaborators} (self : LLMEngine)
    (workers : list Worker)
    (plan : list SequenceGroupMetadata * SchedulerOutputs)
    (w : World) (log : WorkerLog) :
  is_empty (snd plan) = true ->
  step self workers plan w log
  = (w, log, Ok (map (from_seq_group w) (ignored_seq_groups (snd plan)))).
Proof.
  intros Hempty. destruct plan as [md so]. unfold step, _schedule.
  simpl in *. by rewrite Hempty.
Qed.

(** C2: on a non-empty plan every worker runs [execute_model]; if some
    worker's sampler output differs from the first worker's, [step] dies of
    an [AssertionError] before any output is processed; otherwise the first
    worker's output is the one processed.  [_run_workers] without
    [get_all_outputs] likewise returns the first result if all the others
    equal it and raises [AssertionError] if not. *)
Theorem equality_gate_is_fatal {collab : Collaborators} (self : LLMEngine)
    (workers : list Worker)
    (plan : list SequenceGroupMetadata * SchedulerOutputs)
    (w : World) (log : WorkerLog) (first : SamplerOutput)
    (rest : list SamplerOutput) :
  is_empty (snd plan) = false ->
  map (fun wk => fst (execute_model wk
                        (mkExecuteModelArgs (fst plan)
                           (blocks_to_swap_in (snd plan))
                           (blocks_to_swap_out (snd plan))
                           (blocks_to_copy (snd plan))))) workers
  = first :: rest ->
  let log' :=
    log ++ imap (fun i _ =>
                   (i, m_execute_model
                         (mkExecuteModelArgs (fst plan)
                            (blocks_to_swap_in (snd plan))
                            (blocks_to_swap_out (snd plan))
                            (blocks_to_copy (snd plan))))) workers in
  ((exists output, In output (first :: rest)
                   /\ sampler_output_eq output first = false) ->
   step self workers plan w log = (w, log', Raise AssertionError))
  /\ ((forall output, In output (first :: rest) ->
                      sampler_output_eq output first = true) ->
      step self workers plan w log
      = match _process_model_outputs self first (snd plan) w with
        | (w', Raise e) => (w', log', Raise e)
        | (w', Ok request_outputs) =>
            (w', log',
             Ok (request_outputs
                 ++ map (from_seq_group w) (ignored_seq_groups (snd plan))))
        end)
  /\ (forall (R : Type) (eqb : R -> R -> bool) (ws : list Worker)
        (method : WorkerMethod) (executor : Worker -> R) (lg : WorkerLog)
        (output : R) (others : list R),
        map executor ws = output :: others ->
        snd (_run_workers eqb ws method executor false lg)
        = if forallb (fun other_output => eqb output other_output) others
          then Ok (OneOutput output)
          else Raise AssertionError).
Proof.
  intros Hne Houts log'. destruct plan as [md so]. simpl in *.
  assert (Hstep : step self workers (md, so) w log
                  = match equality_gate
                            (map (fun wk => execute_model wk
                                    (mkExecuteModelArgs md
                                       (blocks_to_swap_in so)
                                       (blocks_to_swap_out so)
                                       (blocks_to_copy so))) workers) with
                    | Raise e => (w, log', Raise e)
                    | Ok output =>
                        match _process_model_outputs self output so w with
                        | (w', Raise e) => (w', log', Raise e)
                        | (w', Ok request_outputs) =>
                            (w', log',
                             Ok (request_outputs
                                 ++ map (from_seq_group w)
                                      (ignored_seq_groups so)))
                        end
                    end).
  { unfold step, _schedule. rewrite Hne, run_workers_all. reflexivity. }
  assert (Hgate : equality_gate
                    (map (fun wk => execute_model wk
                            (mkExecuteModelArgs md (blocks_to_swap_in so)
                               (blocks_to_swap_out so) (blocks_to_copy so)))
                       workers)
                  = if forallb (fun output => sampler_output_eq output first)
                         (first :: rest)
                    then Ok first else Raise AssertionError).
  { unfold equality_gate. rewrite map_map, Houts.
    by destruct (forallb _ (first :: rest)). }
  repeat split.
  - intros (output & Hin & Hneq). rewrite Hstep, Hgate.
    destruct (forallb _ (first :: rest)) eqn:E; [|done].
    rewrite forallb_forall in E. specialize (E _ Hin). congruence.
  - intros Hall. rewrite Hstep, Hgate.
    assert (forallb (fun output => sampler_output_eq output first)
              (first :: rest) = true) as ->; [|done].
    apply forallb_forall. intros x Hx. by apply Hall.
  - intros R eqb ws method executor lg output others Hmap.
    unfold _run_workers. rewrite Hmap.
    by destruct (forallb _ others).
Qed.

(** C8: the cache start-up on a non-empty list of workers.  The block
    counts are the least profiled GPU count and the least profiled CPU
    count.  With a GPU count of zero or less the call raises [ValueError]
    after the profiling calls alone, the config untouched; otherwise the
    counts are stored and [init_cache_engine] goes to every worker with the
    final config. *)
Theorem init_cache_takes_minimum (workers : list Worker)
    (cache_config : CacheConfig) (log : WorkerLog) :
  workers <> [] ->
  let profiled :=
    map (fun wk => profile_num_available_blocks wk (block_size cache_config)
                     (gpu_memory_utilization cache_config)
                     (swap_space_bytes cache_config)) workers in
  let profiling :=
    imap (fun i (_ : Worker) =>
            (i, m_profile_num_available_blocks (block_size cache_config)
                  (gpu_memory_utilization cache_config)
                  (swap_space_bytes cache_config))) workers in
  exists gpu cpu : Z,
    (gpu ∈ map fst profiled /\ Forall (fun x => gpu <= x) (map fst profiled))
    /\ (cpu ∈ map snd profiled
        /\ Forall (fun x => cpu <= x) (map snd profiled))
    /\ Forall (fun c => is_init_cache_engine c = false) profiling
    /\ (gpu <= 0 ->
        _init_cache workers cache_config log
        = (cache_config, log ++ profiling, Some ValueError))
    /\ (0 < gpu ->
        let final :=
          mkCacheConfig (block_size cache_config)
            (gpu_memory_utilization cache_config)
            (swap_space_bytes cache_config) (Some gpu) (Some cpu) in
        _init_cache workers cache_config log
        = (final,
           (log ++ profiling)
           ++ imap (fun i (_ : Worker) => (i, m_init_cache_engine final))
                workers,
           None)).
Proof.
  intros Hne profiled profiling.
  assert (Hp : profiled <> []) by (subst profiled; by destruct workers).
  destruct (py_min_spec (map fst profiled)) as (gpu & Eg & Hg1 & Hg2);
    [by destruct profiled|].
  destruct (py_min_spec (map snd profiled)) as (cpu & Ec & Hc1 & Hc2);
    [by destruct profiled|].
  exists gpu, cpu. repeat split; try done.
  - by apply Forall_imap_all.
  - intros Hle. unfold _init_cache. rewrite run_workers_all. simpl.
    fold profiled. rewrite Eg, Ec.
    by destruct (Z.leb_spec gpu 0); [|lia].
  - intros Hlt final. unfold _init_cache. rewrite run_workers_all. simpl.
    fold profiled. rewrite Eg, Ec.
    destruct (Z.leb_spec gpu 0); [lia|].
    unfold _run_workers. destruct workers as [|wk ws]; [done|].
    simpl. replace (forallb _ _) with true; [done|].
    symmetry. apply forallb_forall. done.
Qed.

Lemma step_empty_plan_witness :
  is_empty (snd Examples.empty_plan) = true
  /\ step (collab := Examples.spec_collaborators) Examples.engine
       [Examples.const_worker [] (8, 4) 0] Examples.empty_plan
       Examples.running_and_ignored []
     = (Examples.running_and_ignored, [],
        Ok (map (from_seq_group Examples.running_and_ignored)
              [Examples.ignored_group])).
Proof.
  split; [reflexivity|].
  apply (step_empty_plan (collab := Examples.spec_collaborators)).
  reflexivity.
Defined.

Lemma equality_gate_is_fatal_witness :
  step (collab := Examples.spec_collaborators) Examples.engine
    [Examples.const_worker [[Examples.sample 0 40]] (8, 4) 0;
     Examples.const_worker [[Examples.sample 0 41]] (8, 4) 1]
    Examples.mixed_plan Examples.running_and_ignored []
  = (Examples.running_and_ignored,
     [] ++ imap (fun i _ =>
                   (i, m_execute_model
                         (mkExecuteModelArgs (fst Examples.mixed_plan)
                            ∅ ∅ ∅)))
             [Examples.const_worker [[Examples.sample 0 40]] (8, 4) 0;
              Examples.const_worker [[Examples.sample 0 41]] (8, 4) 1],
     Raise AssertionError).
Proof.
  apply (equality_gate_is_fatal (collab := Examples.spec_collaborators)
           Examples.engine _ Examples.mixed_plan Examples.running_and_ignored
           [] [[Examples.sample 0 40]] [[[Examples.sample 0 41]]]).
  - reflexivity.
  - reflexivity.
  - exists [[Examples.sample 0 41]]. split; [right; left|]; reflexivity.
Defined.

Lemma init_cache_takes_minimum_witness :
  [Examples.const_worker [] (8, 4) 0; Examples.const_worker [] (6, 5) 1]
  <> []
  /\ exists gpu cpu : Z,
      _init_cache
        [Examples.const_worker [] (8, 4) 0; Examples.const_worker [] (6, 5) 1]
        Examples.cache_config0 []
      = (mkCacheConfig 16 (9 # 10) 4096 (Some gpu) (Some cpu),
         [(0%nat, m_profile_num_available_blocks 16 (9 # 10) 4096);
          (1%nat, m_profile_num_available_blocks 16 (9 # 10) 4096);
          (0%nat, m_init_cache_engine
                    (mkCacheConfig 16 (9 # 10) 4096 (Some gpu) (Some cpu)));
          (1%nat, m_init_cache_engine
                    (mkCacheConfig 16 (9 # 10) 4096 (Some gpu) (Some cpu)))],
         None).
Proof.
  split; [discriminate|].
  destruct (init_cache_takes_minimum
              [Examples.const_worker [] (8, 4) 0;
               Examples.const_worker [] (6, 5) 1]
              Examples.cache_config0 [])
    as (gpu & cpu & [Hg1 Hg2] & _ & _ & _ & Hok); [discriminate|].
  exists gpu, cpu. apply Hok.
  apply elem_of_cons in Hg1 as [-> | Hg1]; [simpl; lia|].
  apply elem_of_cons in Hg1 as [-> | Hg1]; [simpl; lia|].
  by apply elem_of_nil in Hg1.
Defined.

(** ** The rendezvous id *)

Lemma randint_range (a b entropy : Z) :
  a <= b -> a <= randint a b entropy <= b.
Proof.
  intros Hab. unfold randint.
  pose proof (Z.mod_pos_bound entropy (b - a + 1)). lia.
Qed.

(** C9, counterexample: replica 1 with the draw [2**32 - 1] broadcasts the
    id [2**32], which no unsigned 32-bit integer holds. *)
Lemma rendezvous_id_exceeds_32_bits :
  snd (fst (_init_workers (mkLLMEngine 2048 2 1 1 false)
              (Examples.const_worker [] (8, 4) 0) (2 ^ 32 - 1) []))
  = [(0%nat, m_init_model (2 ^ 32))]
  /\ ~ is_uint32 (2 ^ 32).
Proof. split; [reflexivity | unfold is_uint32; lia]. Qed.

(** C9, amended: the rendezvous id is an unsigned 32-bit draw plus the
    replica id, not reduced modulo [2**32]; both start-up paths send exactly
    this sum to [init_model] of every worker; and the sum is itself an
    unsigned 32-bit value iff the replica id [r] satisfies
    [-draw <= r < 2**32 - draw]. *)
Theorem rendezvous_id_is_draw_plus_replica (self : LLMEngine) (entropy : Z) :
  exists draw : Z,
    is_uint32 draw
    /\ rendezvous_id_of self entropy = draw + replica_id self
    /\ (forall worker log,
          world_size self = 1 ->
          _init_workers self worker entropy log
          = ([worker],
             log ++ [(0%nat, m_init_model (draw + replica_id self))], None))
    /\ (forall bundles log workers log',
          _init_workers_ray self bundles entropy log
          = (workers, log', None) ->
          exists earlier,
            Forall (fun c => is_init_model c = false) earlier
            /\ log' = (log ++ earlier)
                      ++ imap (fun i (_ : Worker) =>
                                 (i, m_init_model (draw + replica_id self)))
                           workers)
    /\ (is_uint32 (rendezvous_id_of self entropy)
        <-> - draw <= replica_id self < 2 ^ 32 - draw).
Proof.
  exists (randint 0 (2 ^ 32 - 1) entropy).
  pose proof (randint_range 0 (2 ^ 32 - 1) entropy ltac:(lia)) as Hr.
  repeat split; try (unfold is_uint32, rendezvous_id_of in *; lia).
  - intros worker log Hws. unfold _init_workers. by rewrite Hws.
  - intros bundles log workers log'. unfold _init_workers_ray.
    rewrite run_workers_all.
    unfold _check_consecutive_gpu_allocation.
    destruct (worker_use_ray self); simpl.
    + destruct (py_min _) as [lo|]; [|intros [=]].
      destruct (py_max _) as [hi|]; [|intros [=]].
      case_bool_decide; [|intros [=]].
      intros [= <- <-].
      set (ws := map snd (filter (fun b => fst b <> 0) bundles)).
      exists (imap (fun i (_ : Worker) => (i, m_init_worker)) ws
              ++ imap (fun i (_ : Worker) => (i, m_get_gpu_id)) ws).
      split.
      * apply Forall_app. split; by apply Forall_imap_all.
      * unfold rendezvous_id_of. by rewrite !app_assoc.
    + intros [= <- <-].
      set (ws := map snd (filter (fun b => fst b <> 0) bundles)).
      exists (imap (fun i (_ : Worker) => (i, m_init_worker)) ws).
      split.
      * by apply Forall_imap_all.
      * reflexivity.
Qed.

Lemma rendezvous_id_is_draw_plus_replica_witness :
  exists draw : Z,
    is_uint32 draw
    /\ _init_workers (mkLLMEngine 2048 2 3 1 false)
         (Examples.const_worker [] (8, 4) 0) 7 []
       = ([Examples.const_worker [] (8, 4) 0],
          [] ++ [(0%nat, m_init_model (draw + 3))], None).
Proof.
  destruct (rendezvous_id_is_draw_plus_replica
              (mkLLMEngine 2048 2 3 1 false) 7)
    as (draw & Hd & _ & Hinit & _).
  exists draw. split; [exact Hd|]. apply Hinit. reflexivity.
Defined.

(** ** The outputs of a step *)

(** What [step] returns on a non-empty plan, whenever it returns: the
    outputs of the scheduled groups, then those of the ignored groups as
    [_process_model_outputs] builds them, then those of the ignored groups
    once more as [_schedule] built them. *)
Lemma step_outputs {collab : Collaborators} (self : LLMEngine)
    (workers : list Worker)
    (plan : list SequenceGroupMetadata * SchedulerOutputs)
    (w w' : World) (log log' : WorkerLog) (outs : list RequestOutput) :
  is_empty (snd plan) = false ->
  step self workers plan w log = (w', log', Ok outs) ->
  exists scheduled,
    List.length scheduled = List.length (scheduled_seq_groups (snd plan))
    /\ outs = map (from_seq_group w') scheduled
              ++ map (from_seq_group w') (ignored_seq_groups (snd plan))
              ++ map (from_seq_group w) (ignored_seq_groups (snd plan)).
Proof.
  intros Hne. destruct plan as [md so]. simpl in *.
  unfold step, _schedule. rewrite Hne, run_workers_all.
  destruct (equality_gate _) as [output|]; [|intros [=]].
  unfold _process_model_outputs.
  assert (Hlen : forall groups lens output w0,
             List.length (fst (fst (process_groups self groups lens output w0)))
             = List.length groups).
  { induction groups as [|g groups IH]; intros lens out w0; [done|].
    destruct lens as [|len lens]; [done|].
    destruct out as [|samples out]; [done|]. simpl.
    destruct (_process_sequence_group_samples self g len samples w0)
      as [[g1 w1] [e|]]; [done|].
    specialize (IH lens out w1).
    destruct (process_groups self groups lens out w1) as [[gs w2] err].
    simpl in *. by rewrite IH. }
  specialize (Hlen (scheduled_seq_groups so) (prompt_chunk_lens so) output w).
  destruct (process_groups self _ _ output w) as [[gs w1] [e|]];
    [intros [=]|].
  intros [= <- <- <-]. exists gs. split; [done|].
  by rewrite map_app, <- app_assoc.
Qed.

(** C4 (the code departs from the claim): a step that schedules the request
    [r1] and ignores the request [r2] returns one output for [r1] and two
    for [r2]: [_process_model_outputs] already covers the ignored groups,
    and [step] appends the list [ignored] to its result again. *)
Theorem step_emits_ignored_group_twice :
  let '(_, _, r) :=
    step (collab := Examples.spec_collaborators) Examples.engine
      [Examples.const_worker [[Examples.sample 0 40]] (8, 4) 0]
      Examples.mixed_plan Examples.running_and_ignored [] in
  exists outs,
    r = Ok outs
    /\ map ro_request_id outs = ["r1"; "r2"; "r2"]%string
    /\ outputs_for "r1"%string outs = 1%nat
    /\ outputs_for "r2"%string outs = 2%nat.
Proof. vm_compute. eexists. repeat split. Qed.

(** ** The sort *)

Lemma py_insert_perm {A : Type} (before : A -> A -> bool) (x : A) (l : list A) :
  py_insert before x l ≡ₚ x :: l.
Proof.
  induction l as [|y l IH]; simpl; [done|].
  destruct (before x y); [done|].
  rewrite IH. apply Permutation_swap.
Qed.

Lemma py_sort_perm {A : Type} (before : A -> A -> bool) (l : list A) :
  py_sort before l ≡ₚ l.
Proof.
  induction l as [|x l IH]; simpl; [done|].
  rewrite py_insert_perm. by rewrite IH.
Qed.

Lemma py_sort_elem_of {A : Type} (before : A -> A -> bool) (l : list A) (x : A) :
  x ∈ py_sort before l <-> x ∈ l.
Proof. by rewrite py_sort_perm. Qed.

Lemma py_sort_length {A : Type} (before : A -> A -> bool) (l : list A) :
  List.length (py_sort before l) = List.length l.
Proof. apply Permutation_length, py_sort_perm. Qed.

(** Sorting pairs on their second components and dropping the first ones is
    sorting the second components. *)
Lemma py_sort_tagged {A T : Type} (before : A -> A -> bool)
    (p : list (T * A)) :
  map snd (py_sort (fun a b => before (snd a) (snd b)) p)
  = py_sort before (map snd p).
Proof.
  induction p as [|a p IH]; simpl; [done|]. rewrite <- IH.
  generalize (py_sort (fun a b => before (snd a) (snd b)) p). intros s.
  induction s as [|y s IHs]; simpl; [done|].
  destruct (before (snd a) (snd y)); simpl; [done | by rewrite IHs].
Qed.

Lemma indexed_from_snd {A : Type} (k : nat) (l : list A) :
  map snd (indexed_from k l) = l.
Proof.
  revert k. induction l as [|x l IH]; intros k; simpl; [done|].
  by rewrite IH.
Qed.

Lemma indexed_from_positions {A : Type} (k : nat) (l : list A) :
  StronglySorted (fun a b : nat * A => (fst a < fst b)%nat) (indexed_from k l)
  /\ Forall (fun a : nat * A => (k <= fst a)%nat) (indexed_from k l).
Proof.
  revert k. induction l as [|x l IH]; intros k; simpl.
  - split; constructor.
  - destruct (IH (S k)) as [IH1 IH2]. split.
    + constructor; [done|].
      eapply Forall_impl; [exact IH2|]. simpl. intros a Ha. lia.
    + constructor; [simpl; lia|].
      eapply Forall_impl; [exact IH2|]. simpl. intros a Ha. lia.
Qed.

Section Sorting.

Context {A : Type}.
Variable key : A -> Q.

Lemma stable_desc_key (a b : nat * A) :
  (stable_desc key) a b -> (key (snd b) <= key (snd a))%Q.
Proof. intros [H | [H _]]; [by apply Qlt_le_weak | rewrite H; apply Qle_refl]. Qed.

Lemma py_insert_stable (a : nat * A) (s : list (nat * A)) :
  StronglySorted (stable_desc key) s ->
  Forall (fun b => (fst a < fst b)%nat) s ->
  StronglySorted (stable_desc key) (py_insert (tagged_before key) a s).
Proof.
  induction s as [|y s IH]; intros Hs Hpos; simpl.
  - repeat constructor.
  - apply StronglySorted_inv in Hs as [Hs Hy].
    apply Forall_cons in Hpos as [Hay Hpos].
    unfold tagged_before at 1.
    destruct (Qle_bool (key (snd y)) (key (snd a))) eqn:E.
    + apply Qle_bool_iff in E.
      assert (Hlt : forall b, (key (snd b) <= key (snd a))%Q ->
                              (fst a < fst b)%nat -> (stable_desc key) a b).
      { intros b Hle Hp. destruct (Qlt_le_dec (key (snd b)) (key (snd a)));
          [by left|].
        right. split; [by apply Qle_antisym | done]. }
      constructor; [by constructor|]. constructor; [by apply Hlt|].
      rewrite Forall_forall in Hy, Hpos |- *. intros b Hb.
      apply Hlt; [|by apply Hpos].
      eapply Qle_trans; [|exact E]. by apply stable_desc_key, Hy.
    + assert (Hya : (key (snd a) < key (snd y))%Q).
      { apply Qnot_le_lt. intros Hle. apply Qle_bool_iff in Hle. congruence. }
      constructor; [by apply IH|].
      eapply Permutation_Forall; [symmetry; apply py_insert_perm|].
      constructor; [by left | done].
Qed.

(** The sort of a list whose tags are its positions puts higher keys first
    and keeps elements with equal keys in the order of their positions. *)
Lemma py_sort_stable (p : list (nat * A)) :
  StronglySorted (fun a b => (fst a < fst b)%nat) p ->
  StronglySorted (stable_desc key) (py_sort (tagged_before key) p).
Proof.
  induction p as [|a p IH]; intros Hp; simpl; [constructor|].
  apply StronglySorted_inv in Hp as [Hp Ha].
  apply py_insert_stable; [by apply IH|].
  eapply Permutation_Forall; [symmetry; apply py_sort_perm | done].
Qed.

(** [sort(key=..., reverse=True)] orders by descending key. *)
Lemma sort_by_key_desc_sorted (l : list A) :
  StronglySorted (fun a b => (key b <= key a)%Q) (sort_by_key_desc key l).
Proof.
  pose proof (py_sort_stable (indexed l)
                (proj1 (indexed_from_positions 0 l))) as Hs.
  assert (E : sort_by_key_desc key l
              = map snd (py_sort (tagged_before key) (indexed l))).
  { unfold tagged_before. rewrite (py_sort_tagged
      (fun x y => Qle_bool (key y) (key x)) (indexed l)).
    unfold indexed. by rewrite indexed_from_snd. }
  rewrite E. clear E.
  induction Hs as [|a s Hs IH Ha]; simpl; constructor; [done|].
  apply Forall_fmap. eapply Forall_impl; [exact Ha|].
  intros b Hb. by apply stable_desc_key.
Qed.

Lemma sort_by_key_desc_perm (l : list A) : sort_by_key_desc key l ≡ₚ l.
Proof. apply py_sort_perm. Qed.

End Sorting.

(** ** Indexing *)

Lemma py_index_head {A : Type} (x : A) (l : list A) :
  py_index (x :: l) 0 = Ok x.
Proof.
  unfold py_index, py_len. simpl.
  destruct (Z.leb_spec (Z.pos (Pos.of_succ_nat (List.length l))) 0);
    [lia | done].
Qed.

Lemma py_index_nonneg {A : Type} (l : list A) (i : Z) :
  0 <= i < py_len l ->
  exists x, py_index l i = Ok x /\ l !! Z.to_nat i = Some x.
Proof.
  intros Hi. unfold py_index.
  destruct (Z.ltb_spec i 0); [lia|].
  destruct (Z.ltb_spec i 0); [lia|].
  destruct (Z.leb_spec (py_len l) i); [lia|]. simpl.
  destruct (l !! Z.to_nat i) as [x|] eqn:E; [by exists x|].
  apply lookup_ge_None in E. unfold py_len in *. lia.
Qed.

Lemma py_slice_to_nonneg {A : Type} (l : list A) (i : Z) :
  0 <= i -> py_slice_to l i = take (Z.to_nat i) l.
Proof.
  intros Hi. unfold py_slice_to. rewrite py_bound_nonneg by done.
  destruct (Nat.min_spec (Z.to_nat i) (List.length l)) as [[_ ->] | [H ->]];
    [done|].
  by rewrite firstn_all, take_ge.
Qed.

Lemma py_slice_from_nonneg {A : Type} (l : list A) (i : Z) :
  0 <= i -> py_slice_from l i = drop (Z.to_nat i) l.
Proof.
  intros Hi. unfold py_slice_from. rewrite py_bound_nonneg by done.
  destruct (Nat.min_spec (Z.to_nat i) (List.length l)) as [[_ ->] | [H ->]];
    [done|].
  by rewrite drop_all, drop_ge.
Qed.

(** In a list sorted by descending key, the element at position [k] has the
    least key among the first [k + 1] elements and the greatest among the
    rest. *)
Lemma sorted_desc_at {A : Type} (key : A -> Q) (l : list A) (k : nat) (x : A) :
  StronglySorted (fun a b => (key b <= key a)%Q) l ->
  l !! k = Some x ->
  x ∈ take (S k) l
  /\ Forall (fun e => (key x <= key e)%Q) (take (S k) l)
  /\ Forall (fun e => (key e <= key x)%Q) (drop (S k) l).
Proof.
  intros Hs Hk.
  pose proof (take_drop_middle l k x Hk) as Hl.
  assert (Ht : take (S k) l = take k l ++ [x]) by by apply take_S_r.
  rewrite <- Hl in Hs.
  repeat split.
  - rewrite Ht. apply elem_of_app. right. apply list_elem_of_here.
  - rewrite Ht. apply Forall_app. split.
    + apply Forall_forall. intros e He.
      eapply (StronglySorted_app_1_elem_of _ _ _ e x Hs).
      * done.
      * apply list_elem_of_here.
    + constructor; [apply Qle_refl | constructor].
  - apply StronglySorted_app_1_r in Hs.
    by apply StronglySorted_inv in Hs as [_ Hs].
Qed.

(** ** The decision to stop the beam search *)

Lemma check_beam_search_early_stopping_cases {collab : Collaborators}
    (self : LLMEngine) (sp : SamplingParams) (best worst : Sequence) :
  use_beam_search sp = true ->
  let lp := length_penalty sp in
  let eos := eos_token_id self in
  let now := get_beam_search_score best lp eos None in
  let at_max :=
    get_beam_search_score best lp eos
      (Some (Z.max (get_prompt_len best + max_tokens sp)
               (max_model_len self))) in
  let floor := get_beam_search_score worst lp eos None in
  _check_beam_search_early_stopping self (ES_bool true) sp best worst
  = Ok true
  /\ _check_beam_search_early_stopping self (ES_bool false) sp best worst
     = Ok (Qle_bool now floor)
  /\ _check_beam_search_early_stopping self (ES_str "never") sp best worst
     = Ok (Qle_bool (if negb (Qle_bool lp 0) then at_max else now) floor).
Proof.
  intros Hb. unfold _check_beam_search_early_stopping. rewrite Hb. simpl.
  repeat split. by destruct (negb _).
Qed.

(** ** The loops of the output processor in closed form *)

Lemma filter_all {A : Type} (P : A -> Prop) `{forall x, Decision (P x)}
    (l : list A) :
  (forall x, x ∈ l -> P x) -> filter P l = l.
Proof.
  induction l as [|a l IH]; intros Hall; [done|].
  rewrite filter_cons_True by (apply Hall; apply list_elem_of_here).
  rewrite IH; [done|]. intros x Hx. apply Hall. by apply list_elem_of_further.
Qed.

Lemma with_calls_nil (w : World) : with_calls [] w = w.
Proof. destruct w. unfold with_calls. simpl. by rewrite app_nil_r. Qed.

Lemma with_calls_app (c1 c2 : list SchedCall) (w : World) :
  with_calls c2 (with_calls c1 w) = with_calls (c1 ++ c2) w.
Proof. unfold with_calls. simpl. by rewrite app_assoc. Qed.

Lemma with_seqs_id (g : SequenceGroup) : with_seqs (seqs g) g = g.
Proof. by destruct g. Qed.

Lemma with_seqs_filter_nil (g : SequenceGroup) :
  with_seqs (filter (fun i => i ∉ @nil Z) (seqs g)) g = g.
Proof.
  rewrite filter_all; [apply with_seqs_id|].
  intros x _. apply not_elem_of_nil.
Qed.

Lemma add_and_fork_loop (l : ChildSeqs) (g : SequenceGroup) (w : World) :
  foldl add_and_fork (g, w) l
  = (with_seqs (seqs g ++ added_by l) g, with_calls (forks_of w l) w).
Proof.
  revert g w. induction l as [|[s p] l IH]; intros g w.
  - cbn [foldl]. unfold added_by, forks_of. rewrite !filter_nil. cbn [map].
    by rewrite app_nil_r, with_seqs_id, with_calls_nil.
  - change (foldl add_and_fork (g, w) ((s, p) :: l))
      with (foldl add_and_fork (add_and_fork (g, w) (s, p)) l).
    unfold added_by, forks_of. rewrite !filter_cons.
    unfold add_and_fork at 2. cbn [fst snd].
    destruct (decide (s <> p)) as [Hne | Heq].
    + rewrite bool_decide_eq_true_2 by done.
      destruct (finished_in w s) eqn:Ef; cbn [negb].
      * rewrite IH. rewrite decide_False by (intros [_ ?]; done).
        unfold with_seqs, added_by, forks_of, group_add. cbn.
        by rewrite <- app_assoc.
      * rewrite IH. rewrite decide_True by done.
        unfold with_seqs, added_by, forks_of, with_calls, group_add,
          call_scheduler, finished_in. cbn.
        by rewrite <- !app_assoc.
    + rewrite bool_decide_eq_false_2 by done.
      rewrite IH. by rewrite decide_False by (intros [? _]; done).
Qed.

Lemma free_finished_parent_loop (l : ChildSeqs) (w : World) :
  foldl free_finished_parent w l = with_calls (frees_of_finished w l) w.
Proof.
  revert w. induction l as [|[s p] l IH]; intros w.
  - cbn [foldl]. unfold frees_of_finished. rewrite filter_nil.
    by rewrite with_calls_nil.
  - change (foldl free_finished_parent w ((s, p) :: l))
      with (foldl free_finished_parent (free_finished_parent w (s, p)) l).
    unfold frees_of_finished. rewrite filter_cons.
    unfold free_finished_parent at 2. cbn [fst snd].
    destruct (decide (s = p)) as [Heq | Hne].
    + rewrite bool_decide_eq_true_2 by done.
      destruct (finished_in w s) eqn:Ef; cbn [andb].
      * rewrite IH. rewrite decide_True by done.
        unfold frees_of_finished, with_calls, call_scheduler, finished_in.
        cbn. by rewrite <- !app_assoc.
      * rewrite IH. by rewrite decide_False by (intros [_ ?]; done).
    + rewrite bool_decide_eq_false_2 by done. cbn [andb].
      rewrite IH. by rewrite decide_False by (intros [? _]; done).
Qed.

Lemma remove_unselected_loop (l : ChildSeqs) (g : SequenceGroup) (w : World) :
  foldl remove_unselected (g, w) l
  = (with_seqs (filter (fun i => i ∉ dropped_parents l) (seqs g)) g,
     with_calls (map free_seq (dropped_parents l)) w).
Proof.
  revert g w. induction l as [|[s p] l IH]; intros g w.
  - cbn [foldl]. unfold dropped_parents. rewrite filter_nil. cbn [map].
    rewrite with_calls_nil.
    f_equal. rewrite <- (with_seqs_id g) at 1. f_equal.
    symmetry. apply filter_all. intros x _. apply not_elem_of_nil.
  - change (foldl remove_unselected (g, w) ((s, p) :: l))
      with (foldl remove_unselected (remove_unselected (g, w) (s, p)) l).
    unfold dropped_parents. rewrite filter_cons.
    unfold remove_unselected at 2. cbn [fst snd].
    destruct (decide (s = p)) as [Heq | Hne].
    + rewrite bool_decide_eq_true_2 by done. rewrite IH.
      unfold with_seqs, with_calls, dropped_parents, group_remove,
        call_scheduler. cbn.
      rewrite <- app_assoc. cbn. f_equal. f_equal.
      rewrite list_filter_filter. apply list_filter_iff.
      intros x. rewrite not_elem_of_cons. tauto.
    + rewrite bool_decide_eq_false_2 by done. by rewrite IH.
Qed.

Lemma remove_existing_seqs (entries : list FinishedEntry) (g : SequenceGroup) :
  remove_existing g entries
  = with_seqs (filter (fun i => i ∉ existing_ids entries) (seqs g)) g.
Proof.
  unfold remove_existing.
  revert g. induction entries as [|e entries IH]; intros g.
  - cbn. rewrite <- (with_seqs_id g) at 1. f_equal.
    symmetry. apply filter_all. intros x _. apply not_elem_of_nil.
  - cbn [foldl]. rewrite IH. destruct e as [s | s p]; [|done].
    unfold with_seqs, group_remove. cbn. f_equal.
    rewrite list_filter_filter. apply list_filter_iff.
    intros x. rewrite not_elem_of_cons. tauto.
Qed.

(** ** The first two phases *)

Section Phases.

Context {collab : Collaborators}.
Variable self : LLMEngine.

Lemma fork_children_spec (parent chunk : Z) (ss : list SequenceOutputs)
    (w : World) (cs : ChildSeqs) :
  exists w',
    foldl (fork_child parent chunk) (w, cs) ss
    = (w', cs ++ map (fun i => (i, parent))
                   (seqZ (seq_counter w) (Z.of_nat (List.length ss))))
    /\ sched_calls w' = sched_calls w
    /\ seq_counter w' = seq_counter w + Z.of_nat (List.length ss).
Proof.
  revert w cs. induction ss as [|s ss IH]; intros w cs.
  - exists w. cbn. rewrite app_nil_r. repeat split. lia.
  - change (foldl (fork_child parent chunk) (w, cs) (s :: ss))
      with (foldl (fork_child parent chunk)
              (fork_child parent chunk (w, cs) s) ss).
    unfold fork_child at 2. cbn [fst snd next_seq_id].
    match goal with
    | |- context [foldl _ (?w1, ?cs1) ss] =>
        destruct (IH w1 cs1) as (w' & E & Hc & Hn)
    end.
    exists w'. rewrite E. cbn in Hc, Hn |- *. repeat split; [|done|lia].
    f_equal. rewrite <- app_assoc. f_equal.
    rewrite (seqZ_cons (seq_counter w)) by lia. cbn [map].
    repeat f_equal; lia.
Qed.

Lemma process_parent_spec (samples : list SequenceOutputs) (chunk : Z)
    (g : SequenceGroup) (w : World) (cs : ChildSeqs) (parent : Z) :
  exists w' k,
    0 <= k
    /\ seq_counter w' = seq_counter w + k
    /\ (child_samples_of samples parent = [] ->
        process_parent samples chunk (g, w, cs) parent
        = (group_remove parent g, w', cs)
        /\ sched_calls w' = sched_calls w ++ [free_seq parent]
        /\ k = 0)
    /\ (child_samples_of samples parent <> [] ->
        process_parent samples chunk (g, w, cs) parent
        = (g, w',
           (cs ++ map (fun i => (i, parent)) (seqZ (seq_counter w) k))
           ++ [(parent, parent)])
        /\ sched_calls w' = sched_calls w).
Proof.
  unfold process_parent.
  destruct (last (child_samples_of samples parent)) as [lst|] eqn:El.
  - destruct (fork_children_spec parent chunk
                (py_slice_to (child_samples_of samples parent) (-1)) w cs)
      as (w1 & E & Hc & Hn).
    rewrite E.
    eexists _, _. split; [|split; [|split]].
    3:{ intros Hnil. rewrite Hnil in El. done. }
    3:{ intros _. split; [reflexivity|]. exact Hc. }
    + apply Nat2Z.is_nonneg.
    + exact Hn.
  - apply last_None in El.
    eexists _, 0. split; [lia|]. split; [|split].
    3:{ intros Hne. done. }
    2:{ intros _. split; [reflexivity|]. split; reflexivity. }
    cbn. lia.
Qed.

Lemma map_fst_pair_with (p : Z) (l : list Z) :
  map fst (map (fun i => (i, p)) l) = l.
Proof. induction l as [|x l IH]; cbn; [done | by rewrite IH]. Qed.

Lemma childless_cons (samples : list SequenceOutputs) (p : Z)
    (parents : list Z) :
  childless samples (p :: parents)
  = if decide (child_samples_of samples p = [])
    then p :: childless samples parents else childless samples parents.
Proof. unfold childless. by rewrite filter_cons. Qed.

(** The loop over the parents: the group loses the childless parents, the
    scheduler is told to free each of them, and every recorded pair is a
    parent that got samples, paired with itself or with a new id. *)
Lemma process_parents_spec (samples : list SequenceOutputs) (chunk : Z)
    (parents : list Z) (g : SequenceGroup) (w : World) (cs : ChildSeqs) :
  exists w' new,
    foldl (process_parent samples chunk) (g, w, cs) parents
    = (with_seqs (filter (fun i => i ∉ childless samples parents) (seqs g)) g,
       w', cs ++ new)
    /\ sched_calls w' = sched_calls w ++ map free_seq (childless samples parents)
    /\ seq_counter w <= seq_counter w'
    /\ Forall (fun e => snd e ∈ parents
                        /\ child_samples_of samples (snd e) <> []
                        /\ (fst e = snd e
                            \/ seq_counter w <= fst e < seq_counter w')) new
    /\ (NoDup parents -> Forall (fun p => p < seq_counter w) parents ->
        NoDup (map fst new)).
Proof.
  revert g w cs. induction parents as [|p parents IH]; intros g w cs.
  - exists w, []. cbn [foldl]. unfold childless. rewrite filter_nil.
    rewrite with_seqs_filter_nil, !app_nil_r.
    repeat split; try done; try lia.
  - change (foldl (process_parent samples chunk) (g, w, cs) (p :: parents))
      with (foldl (process_parent samples chunk)
              (process_parent samples chunk (g, w, cs) p) parents).
    destruct (process_parent_spec samples chunk g w cs p)
      as (w1 & k & Hk & Hn1 & Hnil & Hsome).
    rewrite childless_cons.
    destruct (decide (child_samples_of samples p = [])) as [Hc | Hc].
    + destruct (Hnil Hc) as (E & Hcalls & ->). rewrite E.
      destruct (IH (group_remove p g) w1 cs) as (w' & new & E' & Hc' & Hn' & Hall & Hnd).
      exists w', new. rewrite E'. split; [|split; [|split; [|split]]].
      * f_equal. f_equal. unfold with_seqs, group_remove. cbn. f_equal.
        rewrite list_filter_filter. apply list_filter_iff.
        intros x. rewrite not_elem_of_cons. tauto.
      * rewrite Hc', Hcalls. cbn. by rewrite <- app_assoc.
      * lia.
      * eapply Forall_impl; [exact Hall|]. intros [s q] (H1 & H2 & H3).
        cbn in *. repeat split; [by apply list_elem_of_further | done |].
        destruct H3; [by left | right; lia].
      * intros Hndp Hlt. apply NoDup_cons in Hndp as [_ Hndp].
        apply Forall_cons in Hlt as [_ Hlt]. apply Hnd; [done|].
        eapply Forall_impl; [exact Hlt|]. intros x Hx. cbn in Hx. lia.
    + destruct (Hsome Hc) as (E & Hcalls). rewrite E.
      destruct (IH g w1 ((cs ++ map (fun i => (i, p)) (seqZ (seq_counter w) k))
                         ++ [(p, p)]))
        as (w' & new & E' & Hc' & Hn' & Hall & Hnd).
      exists w', (map (fun i => (i, p)) (seqZ (seq_counter w) k)
                  ++ [(p, p)] ++ new).
      rewrite E'. split; [|split; [|split; [|split]]].
      * f_equal. by rewrite <- !app_assoc.
      * by rewrite Hc', Hcalls.
      * lia.
      * apply Forall_app. split; [|apply Forall_app; split].
        -- apply Forall_forall. intros e He.
           apply list_elem_of_fmap in He as (i & -> & Hi).
           apply elem_of_seqZ in Hi. cbn.
           repeat split; [apply list_elem_of_here | done | right; lia].
        -- constructor; [|constructor]. cbn.
           repeat split; [apply list_elem_of_here | done | by left].
        -- eapply Forall_impl; [exact Hall|]. intros [s q] (H1 & H2 & H3).
           cbn in *. repeat split; [by apply list_elem_of_further | done |].
           destruct H3; [by left | right; lia].
      * intros Hndp Hlt. apply NoDup_cons in Hndp as [Hp Hndp].
        apply Forall_cons in Hlt as [Hplt Hlt].
        rewrite !fmap_app. cbn.
        assert (Hnew : NoDup (map fst new)).
        { apply Hnd; [done|]. eapply Forall_impl; [exact Hlt|].
          intros x Hx. cbn in Hx. lia. }
        assert (Hfst : forall s, s ∈ map fst new ->
                                 s ∈ parents \/ seq_counter w1 <= s).
        { intros s Hs. apply list_elem_of_fmap in Hs as ([s' q] & -> & Hin).
          rewrite Forall_forall in Hall.
          destruct (Hall _ Hin) as (H1 & _ & [H3 | H3]); cbn in *.
          - left. by rewrite H3.
          - right. lia. }
        rewrite Forall_forall in Hlt.
        apply NoDup_app. split; [|split].
        -- rewrite map_fst_pair_with. apply NoDup_seqZ.
        -- intros s Hs Hs'.
           rewrite map_fst_pair_with in Hs.
           apply elem_of_seqZ in Hs. cbn in Hs'.
           apply elem_of_cons in Hs' as [-> | Hs']; [lia|].
           destruct (Hfst _ Hs') as [Hq | Hq]; [|lia].
           specialize (Hlt _ Hq). cbn in Hlt. lia.
        -- apply NoDup_cons. split; [|done].
           intros Hs'. destruct (Hfst _ Hs') as [Hq | Hq]; [done | lia].
Qed.

Lemma decode_and_check_loop (sp : SamplingParams) (cs : ChildSeqs) (w : World) :
  sched_calls (foldl (decode_and_check self sp) w cs) = sched_calls w
  /\ seq_counter (foldl (decode_and_check self sp) w cs) = seq_counter w.
Proof.
  revert w. induction cs as [|e cs IH]; intros w; [done|].
  cbn [foldl]. destruct (IH (decode_and_check self sp w e)) as [-> ->].
  done.
Qed.

End Phases.

(** ** The outcome of [_process_sequence_group_samples] *)

Lemma with_seqs_with_seqs (a b : list Z) (g : SequenceGroup) :
  with_seqs a (with_seqs b g) = with_seqs a g.
Proof. reflexivity. Qed.

Lemma frees_of_finished_with_calls (c : list SchedCall) (w : World)
    (l : ChildSeqs) :
  frees_of_finished (with_calls c w) l = frees_of_finished w l.
Proof. reflexivity. Qed.

Section Outcome.

Context {collab : Collaborators}.
Variable self : LLMEngine.

(** The state a call leaves behind, branch by branch, in terms of the state
    after the first two phases. *)
Lemma process_outcome (g : SequenceGroup) (chunk : Z)
    (samples : list SequenceOutputs) (w0 : World) (g1 : SequenceGroup)
    (w1 : World) (cs : ChildSeqs) :
  apply_samples g chunk samples w0 = Ok (g1, w1, cs) ->
  let sp := sampling_params g in
  let w2 := foldl (decode_and_check self sp) w1 cs in
  let all :=
    all_finished_sorted self w2 (length_penalty sp)
      (get_finished_seqs w0 g) cs in
  let running := running_sorted self w2 (length_penalty sp) cs in
  let bw := best_of sp in
  _process_sequence_group_samples self g chunk samples w0
  = if negb (use_beam_search sp)
    then (with_seqs (seqs g1 ++ added_by cs) g1,
          with_calls (forks_of w2 cs ++ frees_of_finished w2 cs) w2, None)
    else
      match stop_beam_search self sp w2 all running with
      | Raise e => (remove_existing g1 (py_slice_from all bw), w2, Some e)
      | Ok stop =>
          let selected :=
            new_pairs (py_slice_to all bw)
            ++ (if stop then [] else py_slice_to running bw) in
          let unselected :=
            new_pairs (py_slice_from all bw)
            ++ (if stop then running else py_slice_from running bw) in
          (with_seqs
             (filter (fun i => i ∉ dropped_parents unselected)
                (filter (fun i => i ∉ existing_ids (py_slice_from all bw))
                   (seqs g1)
                 ++ added_by selected)) g1,
           with_calls
             (forks_of w2 selected
              ++ frees_of_finished w2 selected
              ++ map free_seq (dropped_parents unselected)) w2,
           None)
      end.
Proof.
  intros Happly sp w2 all running bw.
  unfold _process_sequence_group_samples. rewrite Happly.
  fold sp. fold w2.
  destruct (use_beam_search sp); cbn [negb].
  - fold all. fold running. fold bw.
    destruct (stop_beam_search self sp w2 all running) as [stop|e]; [|done].
    rewrite remove_existing_seqs.
    destruct stop.
    + rewrite app_nil_r.
      rewrite add_and_fork_loop, free_finished_parent_loop,
        remove_unselected_loop.
      rewrite frees_of_finished_with_calls, !with_calls_app.
      cbn [seqs with_seqs]. rewrite !with_seqs_with_seqs.
      by rewrite <- ?app_assoc.
    + rewrite add_and_fork_loop, free_finished_parent_loop,
        remove_unselected_loop.
      rewrite frees_of_finished_with_calls, !with_calls_app.
      cbn [seqs with_seqs]. rewrite !with_seqs_with_seqs.
      by rewrite <- ?app_assoc.
  - rewrite add_and_fork_loop, free_finished_parent_loop.
    by rewrite frees_of_finished_with_calls, !with_calls_app.
Qed.

End Outcome.

(** ** What the selection is made of *)

Lemma py_slice_to_elem_of {A : Type} (l : list A) (i : Z) (x : A) :
  x ∈ py_slice_to l i -> x ∈ l.
Proof.
  intros Hx. rewrite <- (py_slice_to_from l i). apply elem_of_app. by left.
Qed.

Lemma py_slice_from_elem_of {A : Type} (l : list A) (i : Z) (x : A) :
  x ∈ py_slice_from l i -> x ∈ l.
Proof.
  intros Hx. rewrite <- (py_slice_to_from l i). apply elem_of_app. by right.
Qed.

Lemma new_pairs_elem_of (entries : list FinishedEntry) (s p : Z) :
  (s, p) ∈ new_pairs entries <-> new_finished s p ∈ entries.
Proof.
  unfold new_pairs. rewrite list_elem_of_omap. split.
  - intros ([s' | s' p'] & Hin & Heq); [done|]. by injection Heq as -> ->.
  - intros Hin. by exists (new_finished s p).
Qed.

Lemma existing_ids_elem_of (entries : list FinishedEntry) (s : Z) :
  s ∈ existing_ids entries <-> existing_finished s ∈ entries.
Proof.
  unfold existing_ids. rewrite list_elem_of_omap. split.
  - intros ([s' | s' p'] & Hin & Heq); [|done]. by injection Heq as ->.
  - intros Hin. by exists (existing_finished s).
Qed.

Lemma dropped_parents_elem_of (l : ChildSeqs) (s : Z) :
  s ∈ dropped_parents l <-> (s, s) ∈ l.
Proof.
  unfold dropped_parents. rewrite list_elem_of_fmap. split.
  - intros ([s' p'] & -> & Hin). apply list_elem_of_filter in Hin as [Heq Hin].
    cbn in *. by subst.
  - intros Hin. exists (s, s). split; [done|].
    by apply list_elem_of_filter.
Qed.

Lemma added_by_elem_of (l : ChildSeqs) (s : Z) :
  s ∈ added_by l <-> exists p, (s, p) ∈ l /\ s <> p.
Proof.
  unfold added_by. rewrite list_elem_of_fmap. split.
  - intros ([s' p'] & -> & Hin). apply list_elem_of_filter in Hin as [Hne Hin].
    by exists p'.
  - intros (p & Hin & Hne). exists (s, p). split; [done|].
    by apply list_elem_of_filter.
Qed.

Lemma forks_of_elem_of (w : World) (l : ChildSeqs) (p c : Z) :
  fork_seq p c ∈ forks_of w l
  <-> (c, p) ∈ l /\ c <> p /\ finished_in w c = false.
Proof.
  unfold forks_of. rewrite list_elem_of_fmap. split.
  - intros ([c' p'] & Heq & Hin). injection Heq as -> ->.
    apply list_elem_of_filter in Hin as [[Hne Hf] Hin]. done.
  - intros (Hin & Hne & Hf). exists (c, p). split; [done|].
    by apply list_elem_of_filter.
Qed.

Section Selection.

Context {collab : Collaborators}.
Variable self : LLMEngine.

Lemma all_finished_new_elem_of (w : World) (lp : Q) (existing : list Z)
    (cs : ChildSeqs) (s p : Z) :
  new_finished s p ∈ all_finished_sorted self w lp existing cs
  <-> (s, p) ∈ cs /\ finished_in w s = true.
Proof.
  unfold all_finished_sorted. rewrite sort_by_key_desc_perm.
  unfold all_finished_unsorted. rewrite elem_of_app, !list_elem_of_fmap. split.
  - intros [(x & Heq & _) | ([s' p'] & Heq & Hin)]; [done|].
    injection Heq as -> ->.
    apply list_elem_of_filter in Hin as [Hf Hin]. done.
  - intros [Hin Hf]. right. exists (s, p). split; [done|].
    by apply list_elem_of_filter.
Qed.

Lemma all_finished_existing_elem_of (w : World) (lp : Q) (existing : list Z)
    (cs : ChildSeqs) (s : Z) :
  existing_finished s ∈ all_finished_sorted self w lp existing cs
  <-> s ∈ existing.
Proof.
  unfold all_finished_sorted. rewrite sort_by_key_desc_perm.
  unfold all_finished_unsorted. rewrite elem_of_app, !list_elem_of_fmap. split.
  - intros [(x & Heq & Hin) | (x & Heq & _)]; [|done].
    by injection Heq as ->.
  - intros Hin. left. by exists s.
Qed.

Lemma running_sorted_elem_of (w : World) (lp : Q) (cs : ChildSeqs)
    (e : Z * Z) :
  e ∈ running_sorted self w lp cs <-> e ∈ cs /\ finished_in w (fst e) = false.
Proof.
  unfold running_sorted. rewrite sort_by_key_desc_perm.
  rewrite list_elem_of_filter. tauto.
Qed.

(** Whatever the decision, the selected and the unselected children are
    children. *)
Lemma selection_subset (w : World) (lp : Q) (existing : list Z)
    (cs : ChildSeqs) (bw : Z) (stop : bool) (e : Z * Z) :
  e ∈ new_pairs (py_slice_to (all_finished_sorted self w lp existing cs) bw)
      ++ (if stop then []
          else py_slice_to (running_sorted self w lp cs) bw)
  \/ e ∈ new_pairs
           (py_slice_from (all_finished_sorted self w lp existing cs) bw)
         ++ (if stop then running_sorted self w lp cs
             else py_slice_from (running_sorted self w lp cs) bw) ->
  e ∈ cs.
Proof.
  destruct e as [s p].
  assert (Hall : forall l, (forall x, x ∈ l ->
                   x ∈ all_finished_sorted self w lp existing cs) ->
                 (s, p) ∈ new_pairs l -> (s, p) ∈ cs).
  { intros l Hl Hin. apply new_pairs_elem_of in Hin.
    apply Hl in Hin. by apply all_finished_new_elem_of in Hin as [? _]. }
  assert (Hrun : (s, p) ∈ running_sorted self w lp cs -> (s, p) ∈ cs).
  { intros Hin. by apply running_sorted_elem_of in Hin as [? _]. }
  intros [Hin | Hin]; apply elem_of_app in Hin as [Hin | Hin].
  - eapply Hall; [|exact Hin]. intros x. apply py_slice_to_elem_of.
  - destruct stop; [by apply elem_of_nil in Hin|].
    by apply py_slice_to_elem_of, Hrun in Hin.
  - eapply Hall; [|exact Hin]. intros x. apply py_slice_from_elem_of.
  - destruct stop; [by apply Hrun|].
    by apply py_slice_from_elem_of, Hrun in Hin.
Qed.

End Selection.

(** ** The order of the scheduler calls *)

Section CallOrder.

Context {collab : Collaborators}.
Variable self : LLMEngine.

Lemma apply_samples_spec (g : SequenceGroup) (chunk : Z)
    (samples : list SequenceOutputs) (w0 : World) (g1 : SequenceGroup)
    (w1 : World) (cs : ChildSeqs) :
  apply_samples g chunk samples w0 = Ok (g1, w1, cs) ->
  let parents := get_seqs w0 g RUNNING in
  g1 = with_seqs (filter (fun i => i ∉ childless samples parents) (seqs g)) g
  /\ sched_calls w1
     = sched_calls w0 ++ map free_seq (childless samples parents)
  /\ seq_counter w0 <= seq_counter w1
  /\ Forall (fun e => snd e ∈ parents
                      /\ child_samples_of samples (snd e) <> []
                      /\ (fst e = snd e
                          \/ seq_counter w0 <= fst e < seq_counter w1)) cs
  /\ (NoDup parents -> Forall (fun p => p < seq_counter w0) parents ->
      NoDup (map fst cs)).
Proof.
  unfold apply_samples. intros H.
  set (parents := get_seqs w0 g RUNNING) in *.
  destruct (forallb _ samples); [|done].
  destruct (process_parents_spec samples chunk parents g w0 [])
    as (w' & new & E & Hc & Hn & Hall & Hnd).
  rewrite E in H. inversion H; subst; clear H. done.
Qed.

(** C1, counterexample: a beam search of width 2 over the running sequences
    0 and 1 whose two samples both continue sequence 1.  Sequence 0 got no
    sample and is freed in the first loop; the fork of sequence 1 into the
    new sequence 2 is issued after that. *)
Lemma childless_parent_is_freed_before_fork :
  let out :=
    _process_sequence_group_samples (collab := Examples.spec_collaborators)
      Examples.engine Examples.beam_group 0
      [Examples.sample 1 7; Examples.sample 1 8] Examples.two_beams in
  snd out = None
  /\ sched_calls (snd (fst out)) = [free_seq 0; fork_seq 1 2]
  /\ ~ forks_precede_frees (sched_calls (snd (fst out))).
Proof.
  assert (E : sched_calls
                (snd (fst (_process_sequence_group_samples
                             (collab := Examples.spec_collaborators)
                             Examples.engine Examples.beam_group 0
                             [Examples.sample 1 7; Examples.sample 1 8]
                             Examples.two_beams)))
              = [free_seq 0; fork_seq 1 2]) by (vm_compute; reflexivity).
  cbv zeta. split; [vm_compute; reflexivity|]. split; [exact E|].
  rewrite E. intros H.
  specialize (H 0%nat 1%nat 0 1 2 eq_refl eq_refl). lia.
Qed.

(** C1, amended: the scheduler calls of one call of
    [_process_sequence_group_samples] are, in this order: a [free_seq] for
    running parents that received no sample (for each of them when the call
    returns), then [fork_seq] calls only, then [free_seq] calls only.  The
    parent of every fork is a running parent that received samples, so it
    is not among the sequences freed before the forks: every free that
    follows from the samples of this step comes after all forks. *)
Theorem forks_follow_only_childless_frees (g : SequenceGroup) (chunk : Z)
    (samples : list SequenceOutputs) (w0 : World) :
  let '(_, w', err) :=
    _process_sequence_group_samples self g chunk samples w0 in
  exists aborted forks frees,
    sched_calls w'
    = sched_calls w0 ++ map free_seq aborted ++ forks ++ frees
    /\ Forall (fun s => s ∈ get_seqs w0 g RUNNING
                        /\ child_samples_of samples s = []) aborted
    /\ (err = None -> aborted = childless samples (get_seqs w0 g RUNNING))
    /\ Forall (fun c => is_fork_call c = true) forks
    /\ Forall (fun c => is_free_call c = true) frees
    /\ (forall p c, fork_seq p c ∈ forks ->
          p ∈ get_seqs w0 g RUNNING
          /\ child_samples_of samples p <> []
          /\ p ∉ aborted).
Proof.
  destruct (apply_samples g chunk samples w0) as [[[g1 w1] cs]|e] eqn:Ea.
  2:{ unfold _process_sequence_group_samples. rewrite Ea.
      exists [], [], []. cbn. rewrite app_nil_r.
      repeat split; try done; try constructor.
      all: by apply elem_of_nil in H. }
  rewrite (process_outcome self g chunk samples w0 g1 w1 cs Ea).
  destruct (apply_samples_spec g chunk samples w0 g1 w1 cs Ea)
    as (_ & Hcalls & _ & Hcs & _).
  destruct (decode_and_check_loop self (sampling_params g) cs w1)
    as [Hc2 _].
  set (w2 := foldl (decode_and_check self (sampling_params g)) w1 cs) in *.
  set (parents := get_seqs w0 g RUNNING) in *.
  assert (Hab : Forall (fun s => s ∈ parents
                                 /\ child_samples_of samples s = [])
                  (childless samples parents)).
  { apply Forall_forall. intros s Hs.
    apply list_elem_of_filter in Hs. tauto. }
  assert (Hfork : forall l p c,
             (forall e, e ∈ l -> e ∈ cs) -> fork_seq p c ∈ forks_of w2 l ->
             p ∈ parents /\ child_samples_of samples p <> []
             /\ p ∉ childless samples parents).
  { intros l p c Hl Hin. apply forks_of_elem_of in Hin as (Hin & _ & _).
    apply Hl in Hin. rewrite Forall_forall in Hcs.
    destruct (Hcs _ Hin) as (H1 & H2 & _). cbn in *.
    repeat split; [done | done |].
    intros Hch. apply list_elem_of_filter in Hch as [Hch _]. done. }
  assert (Hforks : forall l, Forall (fun c => is_fork_call c = true)
                               (forks_of w2 l)).
  { intros l. unfold forks_of. apply Forall_fmap, Forall_forall. done. }
  assert (Hfrees : forall l, Forall (fun c => is_free_call c = true)
                               (frees_of_finished w2 l)).
  { intros l. unfold frees_of_finished.
    apply Forall_fmap, Forall_forall. done. }
  assert (Hfrees' : forall l : list Z,
             Forall (fun c => is_free_call c = true) (map free_seq l)).
  { intros l. apply Forall_fmap, Forall_forall. done. }
  destruct (use_beam_search (sampling_params g)); cbn [negb].
  - destruct (stop_beam_search _ _ _ _ _) as [stop|e].
    + eexists (childless samples parents), (forks_of w2 _),
        (frees_of_finished w2 _ ++ map free_seq (dropped_parents _)).
      split; [|split; [|split; [|split; [|split]]]].
      * cbn. rewrite Hc2, Hcalls. by rewrite <- !app_assoc.
      * done.
      * done.
      * apply Hforks.
      * apply Forall_app. split; [apply Hfrees | apply Hfrees'].
      * intros p c. apply Hfork. intros e He.
        eapply (selection_subset self). left. exact He.
    + exists (childless samples parents), [], [].
      split; [|split; [|split; [|split; [|split]]]]; try done.
      * rewrite Hc2, Hcalls. by rewrite !app_nil_r.
      * intros p c Hin. by apply elem_of_nil in Hin.
  - exists (childless samples parents), (forks_of w2 cs),
      (frees_of_finished w2 cs).
    split; [|split; [|split; [|split; [|split]]]]; try done.
    + cbn. rewrite Hc2, Hcalls. by rewrite <- !app_assoc.
    + intros p c. by apply Hfork.
Qed.

End CallOrder.

(** ** The ranking of the finished sequences *)

Lemma StronglySorted_weaken {A : Type} (R S : A -> A -> Prop) (l : list A) :
  (forall a b, R a b -> S a b) -> StronglySorted R l -> StronglySorted S l.
Proof.
  intros HRS Hs. induction Hs as [|a l Hs IH Ha]; constructor; [done|].
  eapply Forall_impl; [exact Ha|]. intros b. apply HRS.
Qed.

Section Ranking.

Context {collab : Collaborators}.
Variable self : LLMEngine.

(** [all_finished_seqs] is [existing_finished_seqs + new_finished_seqs]
    reordered by descending score, entries of equal score staying in their
    order of insertion. *)
Lemma all_finished_ranking (w : World) (lp : Q) (existing : list Z)
    (cs : ChildSeqs) :
  exists ranked : list (nat * FinishedEntry),
    map snd ranked = all_finished_sorted self w lp existing cs
    /\ ranked ≡ₚ indexed (all_finished_unsorted w existing cs)
    /\ StronglySorted (rank_before (beam_score self w lp)) ranked.
Proof.
  set (key := fun x : FinishedEntry => beam_score self w lp (fe_seq x)).
  exists (py_sort (tagged_before key)
            (indexed (all_finished_unsorted w existing cs))).
  split; [|split].
  - unfold tagged_before.
    rewrite (py_sort_tagged (fun x y => Qle_bool (key y) (key x))).
    unfold indexed. by rewrite indexed_from_snd.
  - apply py_sort_perm.
  - eapply StronglySorted_weaken;
      [|apply py_sort_stable, indexed_from_positions].
    intros a b [Hlt | [Heq Hpos]]; [by left|].
    right. split; [done | by left].
Qed.

(** The selected and the unselected children together are the children. *)
Lemma selection_partition (w : World) (lp : Q) (existing : list Z)
    (cs : ChildSeqs) (bw : Z) (stop : bool) :
  (new_pairs (py_slice_to (all_finished_sorted self w lp existing cs) bw)
   ++ (if stop then []
       else py_slice_to (running_sorted self w lp cs) bw))
  ++ (new_pairs (py_slice_from (all_finished_sorted self w lp existing cs) bw)
      ++ (if stop then running_sorted self w lp cs
          else py_slice_from (running_sorted self w lp cs) bw))
  ≡ₚ cs.
Proof.
  set (all := all_finished_sorted self w lp existing cs).
  set (running := running_sorted self w lp cs).
  assert (Hfin : new_pairs (py_slice_to all bw)
                 ++ new_pairs (py_slice_from all bw)
                 ≡ₚ filter (fun e => finished_in w (fst e) = true) cs).
  { unfold new_pairs. rewrite <- omap_app, py_slice_to_from.
    subst all. unfold all_finished_sorted. rewrite sort_by_key_desc_perm.
    unfold all_finished_unsorted. rewrite omap_app.
    assert (E1 : forall l : list Z,
               omap (fun e => match e with
                              | new_finished seq parent => Some (seq, parent)
                              | existing_finished _ => None
                              end) (map existing_finished l) = [])
      by (induction l as [|x l IH]; cbn; done).
    assert (E2 : forall l : list (Z * Z),
               omap (fun e => match e with
                              | new_finished seq parent => Some (seq, parent)
                              | existing_finished _ => None
                              end)
                 (map (fun e => new_finished (fst e) (snd e)) l) = l).
    { induction l as [|[s p] l IH]; cbn; [done|]. by rewrite IH. }
    by rewrite E1, E2. }
  assert (Hrun : (if stop then [] else py_slice_to running bw)
                 ++ (if stop then running else py_slice_from running bw)
                 ≡ₚ filter (fun e => ~ finished_in w (fst e) = true) cs).
  { transitivity running.
    - destruct stop; [done | by rewrite py_slice_to_from].
    - subst running. unfold running_sorted. rewrite sort_by_key_desc_perm.
      erewrite list_filter_iff; [done|].
      intros e. cbn. by destruct (finished_in w (fst e)). }
  rewrite <- (filter_app_complement
                (fun e => finished_in w (fst e) = true) cs).
  rewrite <- Hfin, <- Hrun.
  rewrite <- !app_assoc. apply Permutation_app_head.
  rewrite !app_assoc. apply Permutation_app_tail.
  apply Permutation_app_comm.
Qed.

End Ranking.

(** ** The finished sequences that survive a beam-search step *)

Lemma get_seqs_running_not_finished (w : World) (g : SequenceGroup) (s : Z) :
  s ∈ get_seqs w g RUNNING -> s ∈ seqs g /\ finished_in w s = false.
Proof.
  unfold get_seqs. intros Hs. apply list_elem_of_filter in Hs as [Hst Hs].
  split; [done|]. unfold status_of, finished_in in *.
  destruct (store w !! s) as [q|]; [|done]. cbn in Hst.
  injection Hst as Hst. unfold is_finished. by rewrite Hst.
Qed.

Lemma get_finished_seqs_elem_of (w : World) (g : SequenceGroup) (s : Z) :
  s ∈ get_finished_seqs w g <-> s ∈ seqs g /\ finished_in w s = true.
Proof. unfold get_finished_seqs. rewrite list_elem_of_filter. tauto. Qed.

Section BeamSelection.

Context {collab : Collaborators}.
Variable self : LLMEngine.

(** C6: in a beam-search call that returns, for a group whose member ids
    are distinct and older than the id counter.  [all_finished_seqs] holds
    the existing finished sequences and the children that finished in this
    step, ordered by descending score, then by position of insertion, then
    by sequence id.  A newly finished sequence in [all_finished_seqs
    [:beam_width]] is a member of the group afterwards; a newly finished
    sequence in [all_finished_seqs[beam_width:]] is not; an existing
    finished sequence in [all_finished_seqs[beam_width:]] is not. *)
Theorem beam_search_keeps_top_finished (g : SequenceGroup) (chunk : Z)
    (samples : list SequenceOutputs) (w0 : World) (g1 : SequenceGroup)
    (w1 : World) (cs : ChildSeqs) (g' : SequenceGroup) (w' : World) :
  use_beam_search (sampling_params g) = true ->
  NoDup (seqs g) ->
  Forall (fun id => id < seq_counter w0) (seqs g) ->
  apply_samples g chunk samples w0 = Ok (g1, w1, cs) ->
  _process_sequence_group_samples self g chunk samples w0 = (g', w', None) ->
  let sp := sampling_params g in
  let w2 := foldl (decode_and_check self sp) w1 cs in
  let existing := get_finished_seqs w0 g in
  let all :=
    all_finished_sorted self w2 (length_penalty sp) existing cs in
  (exists ranked : list (nat * FinishedEntry),
      map snd ranked = all
      /\ ranked ≡ₚ indexed (all_finished_unsorted w2 existing cs)
      /\ StronglySorted
           (rank_before (beam_score self w2 (length_penalty sp))) ranked)
  /\ (forall s, existing_finished s ∈ all <-> s ∈ existing)
  /\ (forall s p, new_finished s p ∈ all
                  <-> (s, p) ∈ cs /\ finished_in w2 s = true)
  /\ (forall s p, new_finished s p ∈ py_slice_to all (best_of sp) ->
                  s ∈ seqs g')
  /\ (forall s p, new_finished s p ∈ py_slice_from all (best_of sp) ->
                  s ∉ seqs g')
  /\ (forall s, existing_finished s ∈ py_slice_from all (best_of sp) ->
                s ∉ seqs g').
Proof.
  intros Hbeam Hnd Hfresh Happly Hout sp w2 existing all.
  split; [apply all_finished_ranking|].
  split; [intros s; apply all_finished_existing_elem_of|].
  split; [intros s p; apply all_finished_new_elem_of|].
  destruct (apply_samples_spec g chunk samples w0 g1 w1 cs Happly)
    as (Hg1 & _ & _ & Hcs & Hndcs).
  set (parents := get_seqs w0 g RUNNING) in *.
  assert (Hpar : forall s, s ∈ parents ->
                           s ∈ seqs g /\ finished_in w0 s = false).
  { intros s. apply get_seqs_running_not_finished. }
  rewrite Forall_forall in Hfresh. rewrite Forall_forall in Hcs.
  assert (Hndfst : NoDup (map fst cs)).
  { apply Hndcs.
    - by apply NoDup_filter.
    - apply Forall_forall. intros s Hs. apply Hfresh. by apply Hpar. }
  rewrite (process_outcome self g chunk samples w0 g1 w1 cs Happly) in Hout.
  fold sp in Hbeam. fold sp w2 existing all in Hout.
  rewrite Hbeam in Hout. cbn [negb] in Hout.
  set (running := running_sorted self w2 (length_penalty sp) cs) in *.
  destruct (stop_beam_search self sp w2 all running) as [stop|e]; [|done].
  cbv zeta in Hout.
  set (selected := new_pairs (py_slice_to all (best_of sp))
                   ++ (if stop then [] else py_slice_to running (best_of sp)))
    in *.
  set (unselected := new_pairs (py_slice_from all (best_of sp))
                     ++ (if stop then running
                         else py_slice_from running (best_of sp))) in *.
  assert (Hg' : seqs g'
                = filter (fun i => i ∉ dropped_parents unselected)
                    (filter (fun i => i ∉ existing_ids
                                            (py_slice_from all (best_of sp)))
                       (seqs g1)
                     ++ added_by selected)).
  { inversion Hout. done. }
  clear Hout.
  assert (Hsub : forall e, e ∈ selected \/ e ∈ unselected -> e ∈ cs).
  { intros e. apply (selection_subset self). }
  assert (Hdisj : forall s p q, (s, p) ∈ selected -> (s, q) ∈ unselected ->
                                False).
  { intros s p q Hs Hu.
    pose proof (selection_partition self w2 (length_penalty sp) existing cs
                  (best_of sp) stop) as Hperm.
    fold all running selected unselected in Hperm.
    assert (Hnd' : NoDup (map fst (selected ++ unselected)))
      by by rewrite Hperm.
    rewrite fmap_app in Hnd'. apply NoDup_app in Hnd' as (_ & Hnd' & _).
    apply (Hnd' s).
    - apply list_elem_of_fmap. by exists (s, p).
    - apply list_elem_of_fmap. by exists (s, q). }
  assert (Hg1s : forall s, s ∈ seqs g1
                           <-> s ∈ seqs g /\ s ∉ childless samples parents).
  { intros s. rewrite Hg1. cbn. rewrite list_elem_of_filter. tauto. }
  split; [|split].
  - (* a newly finished sequence in the top is a member *)
    intros s p Hin.
    assert (Hsel : (s, p) ∈ selected).
    { apply elem_of_app. left. by apply new_pairs_elem_of. }
    rewrite Hg'. apply list_elem_of_filter. split.
    + intros Hd. apply dropped_parents_elem_of in Hd. by eapply Hdisj.
    + destruct (decide (s = p)) as [-> | Hne].
      * apply elem_of_app. left.
        destruct (Hcs _ (Hsub _ (or_introl Hsel))) as (Hp & Hch & _).
        cbn in Hp, Hch. destruct (Hpar _ Hp) as [Hpg Hpf].
        apply list_elem_of_filter. split.
        -- intros He. apply existing_ids_elem_of in He.
           apply py_slice_from_elem_of in He.
           apply all_finished_existing_elem_of in He.
           apply get_finished_seqs_elem_of in He as [_ He]. congruence.
        -- apply Hg1s. split; [done|]. intros Hc.
           apply list_elem_of_filter in Hc as [Hc _]. done.
      * apply elem_of_app. right. apply added_by_elem_of. by exists p.
  - (* a newly finished sequence below the top is not a member *)
    intros s p Hin.
    assert (Hun : (s, p) ∈ unselected).
    { apply elem_of_app. left. by apply new_pairs_elem_of. }
    rewrite Hg'. intros Hmem.
    apply list_elem_of_filter in Hmem as [Hnd' Hmem].
    destruct (decide (s = p)) as [-> | Hne].
    + apply Hnd'. by apply dropped_parents_elem_of.
    + apply elem_of_app in Hmem as [Hmem | Hmem].
      * apply list_elem_of_filter in Hmem as [_ Hmem].
        apply Hg1s in Hmem as [Hmem _].
        destruct (Hcs _ (Hsub _ (or_intror Hun))) as (_ & _ & [Heq | Hge]);
          cbn in *; [done|].
        specialize (Hfresh _ Hmem). cbn in Hfresh. lia.
      * apply added_by_elem_of in Hmem as (q & Hq & _). by eapply Hdisj.
  - (* an existing finished sequence below the top is not a member *)
    intros s Hin. rewrite Hg'. intros Hmem.
    apply list_elem_of_filter in Hmem as [_ Hmem].
    apply elem_of_app in Hmem as [Hmem | Hmem].
    + apply list_elem_of_filter in Hmem as [Hmem _].
      apply Hmem. by apply existing_ids_elem_of.
    + apply added_by_elem_of in Hmem as (q & Hq & Hne).
      destruct (Hcs _ (Hsub _ (or_introl Hq))) as (_ & _ & [Heq | Hge]);
        cbn in *; [done|].
      apply py_slice_from_elem_of in Hin.
      apply all_finished_existing_elem_of in Hin.
      apply get_finished_seqs_elem_of in Hin as [Hin _].
      specialize (Hfresh _ Hin). cbn in Hfresh. lia.
Qed.

End BeamSelection.

Lemma beam_search_keeps_top_finished_witness :
  let out :=
    _process_sequence_group_samples (collab := Examples.spec_collaborators)
      Examples.engine Examples.narrow_beam_group 0 Examples.beam_samples
      Examples.beam_world in
  snd out = None /\ 1 ∈ seqs (fst (fst out)) /\ 0 ∉ seqs (fst (fst out)).
Proof.
  set (out := _process_sequence_group_samples
                (collab := Examples.spec_collaborators) Examples.engine
                Examples.narrow_beam_group 0 Examples.beam_samples
                Examples.beam_world).
  set (phase1 := Examples.returned
                   (apply_samples (collab := Examples.spec_collaborators)
                      Examples.narrow_beam_group 0 Examples.beam_samples
                      Examples.beam_world)
                   (Examples.narrow_beam_group, Examples.beam_world, [])).
  cbv zeta.
  destruct (beam_search_keeps_top_finished
              (collab := Examples.spec_collaborators) Examples.engine
              Examples.narrow_beam_group 0 Examples.beam_samples
              Examples.beam_world (fst (fst phase1)) (snd (fst phase1))
              (snd phase1) (fst (fst out)) (snd (fst out)))
    as (_ & _ & _ & Htop & _ & Hbelow).
  - reflexivity.
  - apply (bool_decide_unpack _). vm_compute. exact I.
  - apply (bool_decide_unpack _). vm_compute. exact I.
  - vm_compute. reflexivity.
  - vm_compute. reflexivity.
  - split; [vm_compute; reflexivity|]. split.
    + apply (Htop 1 1). vm_compute. apply list_elem_of_here.
    + apply (Hbelow 0). vm_compute. apply list_elem_of_here.
Defined.

(** ** The decision to stop a beam search *)

Lemma NoDup_fst_unique (l : ChildSeqs) (a b c : Z) :
  NoDup (map fst l) -> (a, b) ∈ l -> (a, c) ∈ l -> b = c.
Proof.
  induction l as [|[x y] l IH]; intros Hnd Hb Hc;
    [by apply elem_of_nil in Hb|].
  cbn [map fst] in Hnd. apply NoDup_cons in Hnd as [Hx Hnd].
  assert (Hfst : forall z, (a, z) ∈ l -> a ∈ map fst l).
  { intros z Hz. apply list_elem_of_fmap. by exists (a, z). }
  apply elem_of_cons in Hb as [Hb | Hb]; apply elem_of_cons in Hc as [Hc | Hc].
  - congruence.
  - injection Hb as -> ->. destruct Hx. by apply (Hfst c).
  - injection Hc as -> ->. destruct Hx. by apply (Hfst b).
  - by apply IH.
Qed.

Section BeamDecision.

Context {collab : Collaborators}.
Variable self : LLMEngine.

(** The rule of the decision, over the finished and the running sequences
    themselves: [finished] are the existing finished sequences followed by
    the children that are finished, [running] the children that are not. *)
Lemma stop_beam_search_rule (sp : SamplingParams) (w : World)
    (existing : list Z) (child_seqs : ChildSeqs) :
  use_beam_search sp = true ->
  1 <= best_of sp ->
  let lp := length_penalty sp in
  let score := beam_score self w lp in
  let running := filter (fun e => finished_in w (fst e) = false) child_seqs in
  let finished :=
    existing
    ++ map fst (filter (fun e => finished_in w (fst e) = true) child_seqs) in
  let all_finished_seqs := all_finished_sorted self w lp existing child_seqs in
  let decision :=
    stop_beam_search self sp w all_finished_seqs
      (running_sorted self w lp child_seqs) in
  map fe_seq all_finished_seqs ≡ₚ finished
  /\ (running = [] -> decision = Ok true)
  /\ (running <> [] -> py_len finished < best_of sp -> decision = Ok false)
  /\ (running <> [] -> best_of sp <= py_len finished ->
      exists (best : Z * Z) (worst : Z) (top rest : list Z),
        best ∈ running
        /\ Forall (fun r => (score (fst r) <= score (fst best))%Q) running
        /\ top ++ rest ≡ₚ finished
        /\ py_len top = best_of sp
        /\ worst ∈ top
        /\ Forall (fun s => (score worst <= score s)%Q) top
        /\ Forall (fun s => (score s <= score worst)%Q) rest
        /\ (early_stopping sp = ES_bool true -> decision = Ok true)
        /\ (early_stopping sp = ES_bool false ->
            exists b, decision = Ok b
                      /\ (b = true
                          <-> (score (fst best) <= score worst)%Q))
        /\ (early_stopping sp = ES_str "never" ->
            exists b,
              decision = Ok b
              /\ ((0 < lp)%Q ->
                  (b = true
                   <-> (get_beam_search_score (deref w (fst best)) lp
                          (eos_token_id self)
                          (Some (Z.max (get_prompt_len (deref w (fst best))
                                        + max_tokens sp)
                                   (max_model_len self)))
                        <= score worst)%Q))
              /\ ((lp <= 0)%Q ->
                  (b = true
                   <-> (score (fst best) <= score worst)%Q)))).
Proof.
  intros Hbeam Hbw lp score running finished all_finished_seqs decision.
  assert (Hcontent : map fe_seq all_finished_seqs ≡ₚ finished).
  { subst all_finished_seqs finished. unfold all_finished_sorted.
    rewrite sort_by_key_desc_perm. unfold all_finished_unsorted.
    rewrite map_app, !map_map. cbn [fe_seq].
    by rewrite map_id. }
  assert (Hlen : py_len all_finished_seqs = py_len finished).
  { unfold py_len. by rewrite <- Hcontent, length_map. }
  split; [exact Hcontent|].
  assert (Hperm : running_sorted self w lp child_seqs ≡ₚ running)
    by apply sort_by_key_desc_perm.
  assert (Hsorted : StronglySorted
                      (fun a b => (score (fst b) <= score (fst a))%Q)
                      (running_sorted self w lp child_seqs))
    by apply (sort_by_key_desc_sorted (fun x => score (fst x))).
  subst decision. unfold stop_beam_search.
  generalize dependent (running_sorted self w lp child_seqs).
  intros sorted Hperm Hsorted.
  split; [|split].
  - intros Hnil. rewrite Hnil in Hperm.
    apply Permutation_nil_r in Hperm. by rewrite Hperm.
  - intros Hrun Hlt.
    destruct sorted as [|best rs].
    { apply Permutation_nil in Hperm. done. }
    replace (py_len (best :: rs) =? 0) with false
      by (symmetry; apply Z.eqb_neq; unfold py_len; simpl; lia).
    rewrite <- Hlen in Hlt. by rewrite (proj2 (Z.ltb_lt _ _) Hlt).
  - intros Hrun Hge. rewrite <- Hlen in Hge.
    destruct sorted as [|best rs].
    { apply Permutation_nil in Hperm. done. }
    replace (py_len (best :: rs) =? 0) with false
      by (symmetry; apply Z.eqb_neq; unfold py_len; simpl; lia).
    rewrite (proj2 (Z.ltb_ge _ _) Hge), py_index_head. simpl.
    destruct (py_index_nonneg all_finished_seqs (best_of sp - 1))
      as (worst & -> & Hworst); [lia|]. simpl.
    assert (Hall : StronglySorted
                     (fun a b => (score (fe_seq b) <= score (fe_seq a))%Q)
                     all_finished_seqs)
      by apply (sort_by_key_desc_sorted (fun x => score (fe_seq x))).
    destruct (sorted_desc_at _ _ _ _ Hall Hworst) as (Hw1 & Hw2 & Hw3).
    replace (S (Z.to_nat (best_of sp - 1))) with (Z.to_nat (best_of sp))
      in Hw1, Hw2, Hw3 by lia.
    destruct (check_beam_search_early_stopping_cases self sp
                (deref w (fst best)) (deref w (fe_seq worst)) Hbeam)
      as (Ht & Hf & Hn).
    exists best, (fe_seq worst),
      (map fe_seq (take (Z.to_nat (best_of sp)) all_finished_seqs)),
      (map fe_seq (drop (Z.to_nat (best_of sp)) all_finished_seqs)).
    split; [rewrite <- Hperm; apply list_elem_of_here|].
    split.
    { eapply Permutation_Forall; [exact Hperm|].
      apply StronglySorted_inv in Hsorted as [_ Hrs].
      constructor; [apply Qle_refl | done]. }
    split; [by rewrite <- map_app, take_drop|].
    split.
    { unfold py_len in *. rewrite length_map, length_take. lia. }
    split; [apply list_elem_of_fmap; by exists worst|].
    split; [by apply Forall_fmap|].
    split; [by apply Forall_fmap|].
    split; [intros ->; exact Ht|].
    split.
    + intros ->. rewrite Hf. eexists. split; [done|].
      apply Qle_bool_iff.
    + intros ->. rewrite Hn. eexists. split; [done|]. split.
      * intros Hlp. replace (Qle_bool (length_penalty sp) 0) with false.
        -- apply Qle_bool_iff.
        -- symmetry. apply not_true_is_false. intros Hle.
           apply Qle_bool_iff in Hle. fold lp in Hle.
           by apply (Qlt_not_le _ _ Hlp).
      * intros Hlp.
        rewrite (proj2 (Qle_bool_iff (length_penalty sp) 0) Hlp).
        apply Qle_bool_iff.
Qed.

(** C5: the decision to stop the beam search, in a beam-search call on a
    group whose member ids are distinct and older than the id counter.
    [finished] are the finished members of the group from before the call
    together with the children that finished in this call, [running] the
    children that did not; [all_finished_seqs] holds exactly the sequences
    of [finished].  The decision is the one the call acts on: when it is to
    stop, no running child is a member of the group afterwards; when it is
    to continue, the first [beam_width] running children by score are.
    [best] is a running child with the highest score; [worst] has the lowest
    score among [top], which are [beam_width] finished sequences no other
    finished sequence scores higher than.  No running child: stop.  Fewer
    than [beam_width] finished: continue.  Otherwise [early_stopping = True]
    stops; [False] stops iff the score of [worst] is at least the score of
    [best] at its current length; ["never"] stops iff the score of [worst]
    is at least the score of [best] at the length
    [max(prompt_len + max_tokens, max_model_len)] when [length_penalty > 0],
    and at its current length otherwise. *)
Theorem beam_search_stop_decision (g : SequenceGroup) (chunk : Z)
    (samples : list SequenceOutputs) (w0 : World) (g1 : SequenceGroup)
    (w1 : World) (cs : ChildSeqs) :
  use_beam_search (sampling_params g) = true ->
  1 <= best_of (sampling_params g) ->
  NoDup (seqs g) ->
  Forall (fun id => id < seq_counter w0) (seqs g) ->
  apply_samples g chunk samples w0 = Ok (g1, w1, cs) ->
  let sp := sampling_params g in
  let lp := length_penalty sp in
  let w2 := foldl (decode_and_check self sp) w1 cs in
  let score := beam_score self w2 lp in
  let running := filter (fun e => finished_in w2 (fst e) = false) cs in
  let finished :=
    get_finished_seqs w0 g
    ++ map fst (filter (fun e => finished_in w2 (fst e) = true) cs) in
  let all_finished_seqs :=
    all_finished_sorted self w2 lp (get_finished_seqs w0 g) cs in
  let running_child_seqs := running_sorted self w2 lp cs in
  let decision :=
    stop_beam_search self sp w2 all_finished_seqs running_child_seqs in
  let g' :=
    fst (fst (_process_sequence_group_samples self g chunk samples w0)) in
  map fe_seq all_finished_seqs ≡ₚ finished
  /\ running_child_seqs ≡ₚ running
  /\ (decision = Ok true -> Forall (fun e => fst e ∉ seqs g') running)
  /\ (decision = Ok false ->
      Forall (fun e => fst e ∈ seqs g')
        (py_slice_to running_child_seqs (best_of sp)))
  /\ (running = [] -> decision = Ok true)
  /\ (running <> [] -> py_len finished < best_of sp -> decision = Ok false)
  /\ (running <> [] -> best_of sp <= py_len finished ->
      exists (best : Z * Z) (worst : Z) (top rest : list Z),
        best ∈ running
        /\ Forall (fun r => (score (fst r) <= score (fst best))%Q) running
        /\ top ++ rest ≡ₚ finished
        /\ py_len top = best_of sp
        /\ worst ∈ top
        /\ Forall (fun s => (score worst <= score s)%Q) top
        /\ Forall (fun s => (score s <= score worst)%Q) rest
        /\ (early_stopping sp = ES_bool true -> decision = Ok true)
        /\ (early_stopping sp = ES_bool false ->
            exists b, decision = Ok b
                      /\ (b = true
                          <-> (score (fst best) <= score worst)%Q))
        /\ (early_stopping sp = ES_str "never" ->
            exists b,
              decision = Ok b
              /\ ((0 < lp)%Q ->
                  (b = true
                   <-> (get_beam_search_score (deref w2 (fst best)) lp
                          (eos_token_id self)
                          (Some (Z.max (get_prompt_len (deref w2 (fst best))
                                        + max_tokens sp)
                                   (max_model_len self)))
                        <= score worst)%Q))
              /\ ((lp <= 0)%Q ->
                  (b = true
                   <-> (score (fst best) <= score worst)%Q)))).
Proof.
  intros Hbeam Hbw Hnd Hfresh Happly sp lp w2 score running finished
    all_finished_seqs running_child_seqs decision g'.
  destruct (stop_beam_search_rule sp w2 (get_finished_seqs w0 g) cs
              Hbeam Hbw) as (Hcontent & Hnone & Hfew & Hrule).
  split; [exact Hcontent|].
  split; [apply sort_by_key_desc_perm|].
  destruct (apply_samples_spec g chunk samples w0 g1 w1 cs Happly)
    as (Hg1 & _ & _ & Hcs & Hndcs).
  set (parents := get_seqs w0 g RUNNING) in *.
  assert (Hpar : forall s, s ∈ parents ->
                           s ∈ seqs g /\ finished_in w0 s = false).
  { intros s. apply get_seqs_running_not_finished. }
  rewrite Forall_forall in Hfresh. rewrite Forall_forall in Hcs.
  assert (Hndfst : NoDup (map fst cs)).
  { apply Hndcs.
    - by apply NoDup_filter.
    - apply Forall_forall. intros s Hs. apply Hfresh. by apply Hpar. }
  assert (Hg1s : forall s, s ∈ seqs g1
                           <-> s ∈ seqs g /\ s ∉ childless samples parents).
  { intros s. rewrite Hg1. cbn. rewrite list_elem_of_filter. tauto. }
  assert (Hg' : forall stop, decision = Ok stop ->
            seqs g'
            = filter (fun i => i ∉ dropped_parents
                         (new_pairs (py_slice_from all_finished_seqs
                                       (best_of sp))
                          ++ (if stop then running_child_seqs
                              else py_slice_from running_child_seqs
                                     (best_of sp))))
                (filter (fun i => i ∉ existing_ids
                                        (py_slice_from all_finished_seqs
                                           (best_of sp)))
                   (seqs g1)
                 ++ added_by
                      (new_pairs (py_slice_to all_finished_seqs (best_of sp))
                       ++ (if stop then []
                           else py_slice_to running_child_seqs
                                  (best_of sp))))).
  { intros stop Hdec. subst g'.
    rewrite (process_outcome self g chunk samples w0 g1 w1 cs Happly).
    cbv zeta. fold sp in Hbeam |- *. rewrite Hbeam. cbn [negb].
    fold lp w2 all_finished_seqs running_child_seqs decision.
    by rewrite Hdec. }
  split; [|split; [|split; [exact Hnone | split; [exact Hfew | exact Hrule]]]].
  all: intros Hdec; rewrite (Hg' _ Hdec); clear Hg'.
  - (* stop: no running child stays *)
    apply Forall_forall. intros [c p] Hrun Hmem. cbn [fst] in Hmem.
    apply list_elem_of_filter in Hrun as [Hnf Hin]. cbn [fst] in Hnf.
    assert (Hrs : (c, p) ∈ running_child_seqs).
    { apply running_sorted_elem_of. by split. }
    apply list_elem_of_filter in Hmem as [Hnd' Hmem].
    rewrite app_nil_r in Hmem.
    apply elem_of_app in Hmem as [Hmem | Hmem].
    + apply list_elem_of_filter in Hmem as [_ Hmem].
      apply Hg1s in Hmem as [Hmem _].
      destruct (Hcs _ Hin) as (_ & _ & [Heq | Hge]); cbn in *.
      * subst p. apply Hnd'. apply dropped_parents_elem_of.
        apply elem_of_app. by right.
      * specialize (Hfresh _ Hmem). cbn in Hfresh. lia.
    + apply added_by_elem_of in Hmem as (q & Hq & _).
      apply new_pairs_elem_of, py_slice_to_elem_of in Hq.
      apply all_finished_new_elem_of in Hq as [_ Hq]. congruence.
  - (* continue: the best running children stay *)
    apply Forall_forall. intros [c p] Htop. cbn [fst].
    assert (Hrs : (c, p) ∈ running_child_seqs)
      by by eapply py_slice_to_elem_of.
    apply running_sorted_elem_of in Hrs as [Hin Hnf]. cbn [fst] in Hnf.
    assert (Hndr : NoDup running_child_seqs).
    { subst running_child_seqs. unfold running_sorted.
      rewrite sort_by_key_desc_perm. apply NoDup_filter.
      by apply NoDup_fmap_1 in Hndfst. }
    rewrite <- (py_slice_to_from running_child_seqs (best_of sp)) in Hndr.
    apply NoDup_app in Hndr as (_ & Hdisj & _).
    apply list_elem_of_filter. split.
    + intros Hd. apply dropped_parents_elem_of in Hd.
      apply elem_of_app in Hd as [Hd | Hd].
      * apply new_pairs_elem_of, py_slice_from_elem_of in Hd.
        apply all_finished_new_elem_of in Hd as [_ Hd]. congruence.
      * assert (p = c).
        { apply (NoDup_fst_unique cs c p c Hndfst Hin).
          apply py_slice_from_elem_of in Hd.
          apply running_sorted_elem_of in Hd. tauto. }
        subst p. by apply (Hdisj (c, c)).
    + destruct (decide (c = p)) as [-> | Hne].
      * apply elem_of_app. left.
        destruct (Hcs _ Hin) as (Hp & Hch & _). cbn in Hp, Hch.
        destruct (Hpar _ Hp) as [Hpg Hpf].
        apply list_elem_of_filter. split.
        -- intros He. apply existing_ids_elem_of in He.
           apply py_slice_from_elem_of in He.
           apply all_finished_existing_elem_of in He.
           apply get_finished_seqs_elem_of in He as [_ He]. congruence.
        -- apply Hg1s. split; [done|]. intros Hc.
           apply list_elem_of_filter in Hc as [Hc _]. done.
      * apply elem_of_app. right. apply added_by_elem_of. exists p.
        split; [|done]. apply elem_of_app. by right.
Qed.

End BeamDecision.

Lemma beam_search_stop_decision_witness :
  let out :=
    _process_sequence_group_samples (collab := Examples.spec_collaborators)
      Examples.engine Examples.narrow_beam_group 0 Examples.beam_samples
      Examples.beam_world in
  let phase1 :=
    Examples.returned
      (apply_samples (collab := Examples.spec_collaborators)
         Examples.narrow_beam_group 0 Examples.beam_samples
         Examples.beam_world)
      (Examples.narrow_beam_group, Examples.beam_world, []) in
  let w2 :=
    foldl (decode_and_check (collab := Examples.spec_collaborators)
             Examples.engine (sampling_params Examples.narrow_beam_group))
      (snd (fst phase1)) (snd phase1) in
  stop_beam_search (collab := Examples.spec_collaborators) Examples.engine
    (sampling_params Examples.narrow_beam_group) w2
    (all_finished_sorted (collab := Examples.spec_collaborators)
       Examples.engine w2 1%Q
       (get_finished_seqs Examples.beam_world Examples.narrow_beam_group)
       (snd phase1))
    (running_sorted (collab := Examples.spec_collaborators)
       Examples.engine w2 1%Q (snd phase1))
  = Ok true
  /\ 2 ∉ seqs (fst (fst out)).
Proof.
  set (phase1 := Examples.returned
                   (apply_samples (collab := Examples.spec_collaborators)
                      Examples.narrow_beam_group 0 Examples.beam_samples
                      Examples.beam_world)
                   (Examples.narrow_beam_group, Examples.beam_world, [])).
  cbv zeta.
  destruct (beam_search_stop_decision
              (collab := Examples.spec_collaborators) Examples.engine
              Examples.narrow_beam_group 0 Examples.beam_samples
              Examples.beam_world (fst (fst phase1)) (snd (fst phase1))
              (snd phase1))
    as (Hcontent & _ & Hstop & _ & _ & _ & Hrule).
  - reflexivity.
  - cbn. lia.
  - apply (bool_decide_unpack _). vm_compute. exact I.
  - apply (bool_decide_unpack _). vm_compute. exact I.
  - vm_compute. reflexivity.
  - destruct Hrule as (best & worst & top & rest & Hbest & _ & Hperm & Hlen
                       & Hworst & _ & Hrest & _ & Hfalse & _).
    + vm_compute. discriminate.
    + vm_compute. discriminate.
    + destruct (Hfalse eq_refl) as (b & Hb & Hiff).
      assert (Eb : best = (2, 2)).
      { vm_compute in Hbest. by apply list_elem_of_singleton in Hbest. }
      assert (Ew : worst = 1).
      { destruct top as [|t [|t' top]];
          [by apply elem_of_nil in Hworst |
           | unfold py_len in Hlen; cbn in Hlen; lia].
        apply list_elem_of_singleton in Hworst. subst t.
        assert (Hp : worst :: rest ≡ₚ [0; 1]) by exact Hperm.
        assert (Hin : worst ∈ [0; 1])
          by (rewrite <- Hp; apply list_elem_of_here).
        apply elem_of_cons in Hin as [-> | Hin];
          [|by apply list_elem_of_singleton in Hin].
        exfalso.
        apply Permutation_cons_inv in Hp.
        apply Permutation_singleton_r in Hp. subst rest.
        apply Forall_cons in Hrest as [Hrest _].
        vm_compute in Hrest. by apply Hrest. }
      subst best worst.
      assert (Hd : b = true).
      { apply Hiff. vm_compute. discriminate. }
      subst b. split; [exact Hb|].
      specialize (Hstop Hb).
      apply Forall_forall with (x := (2, 2)) in Hstop; [exact Hstop|].
      vm_compute. apply list_elem_of_here.
Defined.

Lemma forks_follow_only_childless_frees_witness :
  exists aborted forks frees,
    sched_calls
      (snd (fst (_process_sequence_group_samples
                   (collab := Examples.spec_collaborators) Examples.engine
                   Examples.beam_group 0
                   [Examples.sample 1 7; Examples.sample 1 8]
                   Examples.two_beams)))
    = sched_calls Examples.two_beams ++ map free_seq aborted ++ forks ++ frees
    /\ Forall (fun c => is_fork_call c = true) forks
    /\ Forall (fun c => is_free_call c = true) frees.
Proof.
  pose proof (forks_follow_only_childless_frees
                (collab := Examples.spec_collaborators) Examples.engine
                Examples.beam_group 0
                [Examples.sample 1 7; Examples.sample 1 8]
                Examples.two_beams) as H.
  destruct (_process_sequence_group_samples _ _ _ _ _) as [[g' w'] err].
  destruct H as (aborted & forks & frees & H1 & _ & _ & H2 & H3 & _).
  exists aborted, forks, frees. cbn [fst snd]. done.
Defined.

(* ================================================================== *)
(** * Further properties of the engine *)

(** ** The stop check, for every input *)

(** X1: a non-empty stop string that is the first to match is cut off the
    text exactly: the text after the check followed by the stop string is
    the text before it; the sequence is [FINISHED_STOPPED] and its tokens
    are as before. *)
Theorem check_stop_cuts_first_matching_stop_string (self : LLMEngine)
    (seq : Sequence) (sp : SamplingParams) (pre : list string)
    (stop_str : string) (post : list string) :
  stop sp = pre ++ stop_str :: post ->
  Forall (fun s => endswith (output_text seq) s = false) pre ->
  endswith (output_text seq) stop_str = true ->
  stop_str <> EmptyString ->
  String.append (output_text (_check_stop self seq sp)) stop_str
  = output_text seq
  /\ status (_check_stop self seq sp) = FINISHED_STOPPED
  /\ get_token_ids (_check_stop self seq sp) = get_token_ids seq.
Proof.
  intros Hst Hpre Hm Hne.
  destruct (check_stop_rule_order self seq sp) as (H1 & _).
  destruct (H1 pre stop_str post Hst Hpre Hm) as (Hs & _ & Ht).
  pose proof (check_stop_frame self seq sp) as Hf.
  unfold _check_stop.
  destruct (check_stop_traced self seq sp) as [seq' assigned] eqn:E.
  unfold _check_stop in Hs, Ht. rewrite E in Hs, Ht. cbn [fst] in *.
  destruct Hf as (_ & _ & _ & Hp & Ho & _).
  repeat split; [by apply Ht | done |].
  unfold get_token_ids. by rewrite Hp, Ho.
Qed.

Lemma check_stop_cuts_first_matching_stop_string_witness :
  String.append
    (output_text
       (_check_stop Examples.engine
          (Examples.running_seq [1] " quick foxEND"%string)
          (Examples.greedy ["STOP"%string; "END"%string])))
    "END"%string
  = " quick foxEND"%string.
Proof.
  apply (check_stop_cuts_first_matching_stop_string Examples.engine
           (Examples.running_seq [1] " quick foxEND"%string)
           (Examples.greedy ["STOP"%string; "END"%string])
           ["STOP"%string] "END"%string []).
  - reflexivity.
  - repeat constructor.
  - reflexivity.
  - discriminate.
Defined.

Lemma check_stop_strings_some_iff_exists (stops : list string) (c : Checked) :
  is_Some (check_stop_strings stops c)
  <-> Exists (fun s => endswith (output_text (fst c)) s = true) stops.
Proof.
  induction stops as [|s stops IH]; cbn.
  - split; [by intros [? ?] | by inversion 1].
  - destruct (endswith (output_text (fst c)) s) eqn:E.
    + split; [by constructor | by eexists].
    + rewrite IH. split; [by constructor|].
      inversion 1; subst; [congruence | done].
Qed.

(** X2: the stop check finishes a sequence exactly under the stop
    condition (a stop string is a suffix of the text, the sequence is longer
    than [max_model_len], the output has exactly [max_tokens] tokens, or the
    last token is EOS and [ignore_eos] is off); a finished sequence stays
    finished; and without the stop condition the sequence is returned
    untouched.  In particular an output longer than [max_tokens] is not
    capped by the [max_tokens] rule. *)
Theorem check_stop_finishes_iff_stop_condition (self : LLMEngine)
    (seq : Sequence) (sp : SamplingParams) :
  (is_finished (_check_stop self seq sp) = true
   <-> is_finished seq = true \/ stop_condition self seq sp)
  /\ (~ stop_condition self seq sp -> _check_stop self seq sp = seq).
Proof.
  unfold stop_condition, _check_stop.
  destruct (check_stop_strings (stop sp) (seq, [])) as [c'|] eqn:E.
  - assert (Hex : Exists (fun s => endswith (output_text seq) s = true)
                    (stop sp)).
    { apply (check_stop_strings_some_iff_exists (stop sp) (seq, [])).
      rewrite E. by eexists. }
    split; [|tauto].
    unfold check_stop_traced. rewrite E.
    apply check_stop_strings_some in E as (? & ? & ? & _ & _ & _ & ->).
    cbn. split; [tauto | done].
  - assert (Hno : ~ Exists (fun s => endswith (output_text seq) s = true)
                      (stop sp)).
    { intros Hex.
      apply (check_stop_strings_some_iff_exists (stop sp) (seq, [])) in Hex.
      rewrite E in Hex. by destruct Hex. }
    apply check_stop_strings_none in E. cbn [fst] in E.
    rewrite check_stop_traced_no_match by done.
    destruct (Z.ltb_spec (max_model_len self) (get_len seq)) as [Hl | Hl].
    { cbn. split; [tauto|]. intros Hn. exfalso. apply Hn. tauto. }
    destruct (Z.eqb_spec (get_output_len seq) (max_tokens sp)) as [Ho | Ho].
    { cbn. split; [tauto|]. intros Hn. exfalso. apply Hn. tauto. }
    destruct (ignore_eos sp) eqn:Hi; cbn [negb andb].
    { cbn [fst]. split; [|done].
      split; [tauto|]. intros [? | [? | [? | [? | [? _]]]]];
        [done | done | lia | done | done]. }
    case_bool_decide as He.
    { cbn. split; [tauto|]. intros Hn. exfalso. apply Hn. tauto. }
    cbn [fst]. split; [|done].
    split; [tauto|]. intros [? | [? | [? | [? | [_ ?]]]]];
      [done | done | lia | done | done].
Qed.

(** X3: when the last token is EOS and the output has exactly [max_tokens]
    tokens in the same step, and no stop string matches, the sequence ends
    as [FINISHED_LENGTH_CAPPED], not as [FINISHED_STOPPED]: the length rules
    are tried before the EOS rule. *)
Theorem check_stop_length_wins_over_eos (self : LLMEngine) (seq : Sequence)
    (sp : SamplingParams) :
  Forall (fun s => endswith (output_text seq) s = false) (stop sp) ->
  get_output_len seq = max_tokens sp ->
  get_last_token_id seq = Some (eos_token_id self) ->
  _check_stop self seq sp = set_status FINISHED_LENGTH_CAPPED seq.
Proof.
  intros Hno Hout Heos. unfold _check_stop.
  rewrite check_stop_traced_no_match by done.
  destruct (_ <? _); [done|].
  by rewrite (proj2 (Z.eqb_eq _ _) Hout).
Qed.

Lemma check_stop_length_wins_over_eos_witness :
  status
    (_check_stop Examples.engine
       (mkSequence [10; 20] [40; 2] 0%Q RUNNING None 0 0 "ab"%string true)
       (mkSamplingParams 1 1 false 1%Q (ES_bool false) [] false 2))
  = FINISHED_LENGTH_CAPPED.
Proof.
  rewrite (check_stop_length_wins_over_eos Examples.engine
             (mkSequence [10; 20] [40; 2] 0%Q RUNNING None 0 0 "ab"%string
                true)
             (mkSamplingParams 1 1 false 1%Q (ES_bool false) [] false 2)).
  - reflexivity.
  - constructor.
  - reflexivity.
  - reflexivity.
Defined.

(** ** The fan-out, for every method *)



(** X5: when [==] on the results holds only of equal values, the output
    that [_run_workers] returns without [get_all_outputs] is the output of
    every worker. *)
Theorem run_workers_agreed_output {R : Type} (eqb : R -> R -> bool)
    (workers : list Worker) (method : WorkerMethod) (executor : Worker -> R)
    (log : WorkerLog) (output : R) :
  (forall a b, eqb a b = true -> a = b) ->
  snd (_run_workers eqb workers method executor false log)
  = Ok (OneOutput output) ->
  Forall (fun wk => executor wk = output) workers.
Proof.
  intros Heq. unfold _run_workers. cbn [snd].
  destruct workers as [|wk ws]; [done|]. cbn [map].
  destruct (forallb _ (map executor ws)) eqn:E; [|done].
  intros [= <-]. constructor; [done|].
  rewrite forallb_forall in E. apply Forall_forall. intros w Hw.
  symmetry. apply Heq, E. apply in_map. by apply list_elem_of_In.
Qed.

Lemma run_workers_agreed_output_witness :
  Forall (fun wk => get_gpu_id wk = 3)
    [Examples.const_worker [] (8, 4) 3; Examples.const_worker [] (6, 5) 3].
Proof.
  apply (run_workers_agreed_output Z.eqb _ m_get_gpu_id get_gpu_id [] 3).
  - intros a b H. by apply Z.eqb_eq.
  - reflexivity.
Defined.

(** ** The check of the GPU ids *)

Lemma py_insert_sorted_Z (x : Z) (l : list Z) :
  StronglySorted Z.le l -> StronglySorted Z.le (py_insert Z.leb x l).
Proof.
  induction l as [|y l IH]; intros Hs; cbn.
  - repeat constructor.
  - apply StronglySorted_inv in Hs as [Hs Hy].
    destruct (Z.leb_spec x y) as [Hxy | Hxy].
    + constructor; [by constructor|]. constructor; [done|].
      eapply Forall_impl; [exact Hy|]. intros z Hz. cbn in Hz. lia.
    + constructor; [by apply IH|].
      eapply Permutation_Forall; [symmetry; apply py_insert_perm|].
      constructor; [lia | done].
Qed.

(** [sorted] returns its argument in ascending order. *)
Lemma py_sorted_sorted (l : list Z) : StronglySorted Z.le (py_sorted l).
Proof.
  unfold py_sorted, py_sort. induction l as [|x l IH]; cbn; [constructor|].
  by apply py_insert_sorted_Z.
Qed.

Lemma py_sorted_perm (l : list Z) : py_sorted l ≡ₚ l.
Proof. apply py_sort_perm. Qed.

Lemma py_range_seqZ (lo hi : Z) : py_range lo hi = seqZ lo (hi - lo).
Proof.
  unfold py_range, seqZ. apply map_ext. intros i. lia.
Qed.

Lemma seqZ_sorted (lo : Z) (n : nat) :
  StronglySorted Z.le (seqZ lo (Z.of_nat n)).
Proof.
  revert lo. induction n as [|n IH]; intros lo.
  - cbn. constructor.
  - rewrite seqZ_cons by lia. constructor.
    + replace (Z.pred (Z.of_nat (S n))) with (Z.of_nat n) by lia. apply IH.
    + apply Forall_forall. intros x Hx. apply elem_of_seqZ in Hx. lia.
Qed.

Lemma foldl_max_ge (l : list Z) (x : Z) :
  x <= foldl Z.max x l /\ Forall (fun y => y <= foldl Z.max x l) l
  /\ (foldl Z.max x l = x \/ foldl Z.max x l ∈ l).
Proof.
  revert x. induction l as [|y l IH]; intros x; cbn.
  - repeat split; [lia | constructor | by left].
  - destruct (IH (Z.max x y)) as (H1 & H2 & H3).
    repeat split; [lia | constructor; [lia | done] |].
    destruct H3 as [H3 | H3].
    + destruct (Z.max_spec x y) as [[_ E] | [_ E]]; rewrite E in *.
      * right. rewrite H3. apply list_elem_of_here.
      * by left.
    + right. by apply list_elem_of_further.
Qed.

(** [max] returns a greatest element of a non-empty list. *)
Lemma py_max_spec (l : list Z) :
  l <> [] ->
  exists m, py_max l = Ok m /\ m ∈ l /\ Forall (fun y => y <= m) l.
Proof.
  destruct l as [|x l]; [done|]. intros _. cbn.
  destruct (foldl_max_ge l x) as (H1 & H2 & H3).
  eexists; repeat split.
  - destruct H3 as [-> | H3];
      [apply list_elem_of_here | by apply list_elem_of_further].
  - by constructor.
Qed.

(** X6: with remote workers, [_check_consecutive_gpu_allocation] passes
    exactly when the GPU ids of the workers are, in some order, a run of
    consecutive integers without repetition; any other non-empty assignment
    (a gap, a repeated id) raises [AssertionError].  Every worker is asked
    for its id once in both cases. *)
Theorem consecutive_gpu_check_passes_iff (self : LLMEngine)
    (workers : list Worker) (log : WorkerLog) :
  worker_use_ray self = true ->
  workers <> [] ->
  fst (_check_consecutive_gpu_allocation self workers log)
  = log ++ imap (fun i (_ : Worker) => (i, m_get_gpu_id)) workers
  /\ (snd (_check_consecutive_gpu_allocation self workers log) = None
      <-> exists lo, map get_gpu_id workers
                     ≡ₚ consecutive_from lo (List.length workers))
  /\ (snd (_check_consecutive_gpu_allocation self workers log) = None
      \/ snd (_check_consecutive_gpu_allocation self workers log)
         = Some AssertionError).
Proof.
  intros Hray Hne. unfold _check_consecutive_gpu_allocation.
  rewrite Hray. cbn [negb]. rewrite run_workers_all. cbn [all_outputs_of].
  set (ids := map get_gpu_id workers).
  assert (Hids : ids <> []) by (subst ids; by destruct workers).
  assert (Hlen : List.length ids = List.length workers)
    by apply length_map.
  destruct (py_min_spec ids Hids) as (lo & -> & Hlo1 & Hlo2).
  destruct (py_max_spec ids Hids) as (hi & -> & Hhi1 & Hhi2).
  rewrite Forall_forall in Hlo2, Hhi2.
  split; [by case_bool_decide|].
  split; [|case_bool_decide; [by left | by right]].
  rewrite py_range_seqZ.
  case_bool_decide as Hr; cbn [snd]; split; try done.
  - intros _. exists lo. unfold consecutive_from.
    assert (Hl : hi + 1 - lo = Z.of_nat (List.length workers)).
    { pose proof (f_equal (@List.length Z) Hr) as Hl.
      rewrite length_seqZ, (Permutation_length (py_sorted_perm ids)), Hlen
        in Hl.
      destruct workers; [done|]. cbn [List.length] in *. lia. }
    rewrite <- Hl, Hr. symmetry. apply py_sorted_perm.
  - intros [lo' Hp]. exfalso. apply Hr. unfold consecutive_from in Hp.
    assert (Hmem : forall x, x ∈ ids
                             <-> lo' <= x < lo' + Z.of_nat (List.length ids)).
    { intros x. rewrite Hlen, Hp, elem_of_seqZ. done. }
    assert (Hpos : (0 < List.length ids)%nat)
      by (destruct ids; [done | cbn; lia]).
    assert (lo = lo').
    { apply Hmem in Hlo1.
      assert (lo' ∈ ids) as Hin by (apply Hmem; lia).
      specialize (Hlo2 _ Hin). lia. }
    assert (hi = lo' + Z.of_nat (List.length ids) - 1).
    { apply Hmem in Hhi1.
      assert (lo' + Z.of_nat (List.length ids) - 1 ∈ ids) as Hin
        by (apply Hmem; lia).
      specialize (Hhi2 _ Hin). lia. }
    subst lo hi.
    replace (lo' + Z.of_nat (List.length ids) - 1 + 1 - lo')
      with (Z.of_nat (List.length ids)) by lia.
    apply (StronglySorted_unique Z.le).
    + apply seqZ_sorted.
    + apply py_sorted_sorted.
    + rewrite py_sorted_perm, Hlen. symmetry. exact Hp.
Qed.

Lemma consecutive_gpu_check_passes_iff_witness :
  snd (_check_consecutive_gpu_allocation (mkLLMEngine 2048 2 0 2 true)
         [Examples.const_worker [] (8, 4) 1; Examples.const_worker [] (8, 4) 0]
         [])
  = None.
Proof.
  apply (consecutive_gpu_check_passes_iff (mkLLMEngine 2048 2 0 2 true)
           [Examples.const_worker [] (8, 4) 1;
            Examples.const_worker [] (8, 4) 0] []).
  - reflexivity.
  - discriminate.
  - exists 0. cbn. apply Permutation_swap.
Defined.

(** ** The start-up sequence *)

Lemma init_workers_outcome (self : LLMEngine) (worker : Worker)
    (entropy : Z) (log : WorkerLog) :
  _init_workers self worker entropy log
  = if world_size self =? 1
    then ([worker],
          log ++ [(0%nat, m_init_model (rendezvous_id_of self entropy))],
          None)
    else ([], log, Some AssertionError).
Proof. unfold _init_workers. by destruct (world_size self =? 1). Qed.

Lemma init_workers_ray_outcome (self : LLMEngine)
    (bundles : list (Z * Worker)) (entropy : Z) (log : WorkerLog) :
  let ws := map snd (filter (fun b => fst b <> 0) bundles) in
  exists earlier err,
    Forall (fun c => is_init_model c = false
                     /\ is_init_cache_engine c = false) earlier
    /\ _init_workers_ray self bundles entropy log
       = (ws,
          (log ++ earlier)
          ++ match err with
             | None => imap (fun i (_ : Worker) =>
                               (i, m_init_model
                                     (rendezvous_id_of self entropy))) ws
             | Some _ => []
             end,
          err).
Proof.
  intros ws. unfold _init_workers_ray. fold ws. rewrite run_workers_all.
  unfold _check_consecutive_gpu_allocation.
  destruct (worker_use_ray self); cbn [negb].
  - rewrite run_workers_all. cbn [all_outputs_of].
    set (calls := imap (fun i (_ : Worker) => (i, m_init_worker)) ws
                  ++ imap (fun i (_ : Worker) => (i, m_get_gpu_id)) ws).
    assert (Hcalls : Forall (fun c => is_init_model c = false
                                      /\ is_init_cache_engine c = false)
                       calls).
    { apply Forall_app. split; by apply Forall_imap_all. }
    destruct (py_min _) as [lo|e].
    + destruct (py_max _) as [hi|e].
      * case_bool_decide.
        -- exists calls, None. split; [done|].
           rewrite run_workers_all. subst calls. by rewrite !app_assoc.
        -- exists calls, (Some AssertionError). split; [done|].
           subst calls. by rewrite !app_assoc, app_nil_r.
      * exists calls, (Some e). split; [done|].
        subst calls. by rewrite !app_assoc, app_nil_r.
    + exists calls, (Some e). split; [done|].
      subst calls. by rewrite !app_assoc, app_nil_r.
  - exists (imap (fun i (_ : Worker) => (i, m_init_worker)) ws), None.
    split; [by apply Forall_imap_all|]. by rewrite run_workers_all.
Qed.

Lemma init_cache_outcome (workers : list Worker) (cache_config : CacheConfig)
    (log : WorkerLog) :
  let profiling :=
    imap (fun i (_ : Worker) =>
            (i, m_profile_num_available_blocks (block_size cache_config)
                  (gpu_memory_utilization cache_config)
                  (swap_space_bytes cache_config))) workers in
  (exists e, _init_cache workers cache_config log
             = (cache_config, log ++ profiling, Some e))
  \/ (exists gpu cpu,
        0 < gpu /\ workers <> []
        /\ _init_cache workers cache_config log
           = (mkCacheConfig (block_size cache_config)
                (gpu_memory_utilization cache_config)
                (swap_space_bytes cache_config) (Some gpu) (Some cpu),
              (log ++ profiling)
              ++ imap (fun i (_ : Worker) =>
                         (i, m_init_cache_engine
                               (mkCacheConfig (block_size cache_config)
                                  (gpu_memory_utilization cache_config)
                                  (swap_space_bytes cache_config)
                                  (Some gpu) (Some cpu)))) workers,
              None)).
Proof.
  intros profiling. unfold _init_cache. rewrite run_workers_all.
  cbn [all_outputs_of]. fold profiling.
  destruct workers as [|wk ws].
  { left. exists ValueError. reflexivity. }
  cbn [map py_min].
  match goal with
  | |- context [Z.leb ?g 0] => destruct (Z.leb_spec g 0) as [Hg | Hg]
  end.
  - left. by exists ValueError.
  - right. eexists _, _. split; [exact Hg|]. split; [done|].
    unfold _run_workers. cbn [map].
    replace (forallb _ _) with true; [done|].
    symmetry. by apply forallb_forall.
Qed.

(** X7: the start-up of the workers and the cache.  When it succeeds there
    is at least one worker, the stored GPU block count is positive, and the
    calls reached the workers in this order: [init_model] with the
    rendezvous id to every worker, then [profile_num_available_blocks] to
    every worker, then [init_cache_engine] with the final config to every
    worker.  When it fails, no [init_cache_engine] was sent and the cache
    config is the one passed in. *)
Theorem startup_initializes_cache_last (self : LLMEngine)
    (bundles : list (Z * Worker)) (worker : Worker) (entropy : Z)
    (cache_config : CacheConfig) (log : WorkerLog) :
  let '(workers, final, log', err) :=
    init_workers_and_cache self bundles worker entropy cache_config log in
  match err with
  | None =>
      workers <> []
      /\ (exists gpu cpu,
            0 < gpu
            /\ final = mkCacheConfig (block_size cache_config)
                         (gpu_memory_utilization cache_config)
                         (swap_space_bytes cache_config)
                         (Some gpu) (Some cpu))
      /\ exists earlier,
          Forall (fun c => is_init_model c = false
                           /\ is_init_cache_engine c = false) earlier
          /\ log'
             = (((log ++ earlier)
                 ++ imap (fun i (_ : Worker) =>
                            (i, m_init_model (rendezvous_id_of self entropy)))
                      workers)
                ++ imap (fun i (_ : Worker) =>
                           (i, m_profile_num_available_blocks
                                 (block_size cache_config)
                                 (gpu_memory_utilization cache_config)
                                 (swap_space_bytes cache_config))) workers)
               ++ imap (fun i (_ : Worker) => (i, m_init_cache_engine final))
                    workers
  | Some _ =>
      final = cache_config
      /\ exists sent,
          log' = log ++ sent
          /\ Forall (fun c => is_init_cache_engine c = false) sent
  end.
Proof.
  unfold init_workers_and_cache.
  assert (Hinit : exists ws earlier err,
             Forall (fun c => is_init_model c = false
                              /\ is_init_cache_engine c = false) earlier
             /\ (if worker_use_ray self
                 then _init_workers_ray self bundles entropy log
                 else _init_workers self worker entropy log)
                = (ws,
                   (log ++ earlier)
                   ++ match err with
                      | None => imap (fun i (_ : Worker) =>
                                        (i, m_init_model
                                              (rendezvous_id_of self entropy)))
                                  ws
                      | Some _ => []
                      end,
                   err)).
  { destruct (worker_use_ray self).
    - destruct (init_workers_ray_outcome self bundles entropy log)
        as (earlier & err & H1 & H2).
      by eexists _, earlier, err.
    - rewrite init_workers_outcome. destruct (world_size self =? 1).
      + exists [worker], [], None. by rewrite app_nil_r.
      + exists [], [], (Some AssertionError). by rewrite !app_nil_r. }
  destruct Hinit as (ws & earlier & err & Hearlier & ->).
  destruct err as [e|].
  - split; [done|]. exists earlier. rewrite app_nil_r. split; [done|].
    eapply Forall_impl; [exact Hearlier|]. by intros c [_ ?].
  - set (log1 := (log ++ earlier) ++ imap _ ws).
    destruct (init_cache_outcome ws cache_config log1)
      as [[e ->] | (gpu & cpu & Hgpu & Hne & ->)].
    + split; [done|]. eexists. subst log1. rewrite <- !app_assoc.
      split; [reflexivity|].
      apply Forall_app. split.
      { eapply Forall_impl; [exact Hearlier|]. by intros c [_ ?]. }
      apply Forall_app. split; by apply Forall_imap_all.
    + split; [done|]. split; [by exists gpu, cpu|].
      exists earlier. split; [done|]. reflexivity.
Qed.

Lemma startup_initializes_cache_last_witness :
  exists gpu cpu,
    0 < gpu
    /\ snd (fst (fst (init_workers_and_cache Examples.engine []
                        (Examples.const_worker [] (8, 4) 0) 7
                        Examples.cache_config0 [])))
       = mkCacheConfig 16 (9 # 10) 4096 (Some gpu) (Some cpu).
Proof.
  pose proof (startup_initializes_cache_last Examples.engine []
                (Examples.const_worker [] (8, 4) 0) 7
                Examples.cache_config0 []) as H.
  destruct (init_workers_and_cache _ _ _ _ _ _) as [[[ws final] log'] err]
    eqn:E.
  assert (err = None) as -> by (vm_compute in E; congruence).
  destruct H as (_ & H & _). exact H.
Defined.

(** ** Admission of requests *)

Lemma mutate_lookup (f : Sequence -> Sequence) (id : Z) (w : World) (k : Z) :
  store (mutate f id w) !! k
  = if decide (id = k) then f <$> store w !! id else store w !! k.
Proof. unfold mutate. cbn. apply lookup_alter. Qed.

Lemma mutate_is_Some (f : Sequence -> Sequence) (id : Z) (w : World) (k : Z) :
  is_Some (store (mutate f id w) !! k) <-> is_Some (store w !! k).
Proof.
  rewrite mutate_lookup. destruct (decide (id = k)) as [-> | _]; [|done].
  by rewrite fmap_is_Some.
Qed.

Lemma allocate_lookup (id : Z) (s : Sequence) (w : World) (k : Z) :
  store (allocate id s w) !! k
  = if decide (id = k) then Some s else store w !! k.
Proof. unfold allocate. cbn. apply lookup_insert. Qed.

(** X8: [add_request] without a prompt and without token ids raises
    [AssertionError] before an id is drawn, so nothing changes.  A request
    that is admitted keeps the pool well formed: its single sequence gets
    the id the counter showed, an id no earlier group holds; the sequence is
    stored with the given token ids (the tokenizer is consulted only when
    none are given); every sequence stored before is as it was; and all
    stored ids stay below the counter. *)
Theorem add_request_keeps_pool_well_formed (encode : string -> list Z)
    (request_id' : string) (prompt : option string) (sp : SamplingParams)
    (prompt_token_ids : option (list Z)) (pool pool' : Pool) :
  add_request encode request_id' None sp None pool
  = (pool, Some AssertionError)
  /\ (ids_below_counter (pool_world pool) ->
      Forall (group_well_formed (pool_world pool)) (pool_groups pool) ->
      add_request encode request_id' prompt sp prompt_token_ids pool
      = (pool', None) ->
      let w := pool_world pool in
      let w' := pool_world pool' in
      ids_below_counter w'
      /\ Forall (group_well_formed w') (pool_groups pool')
      /\ seq_counter w' = seq_counter w + 1
      /\ (forall id, is_Some (store w !! id) ->
                     store w' !! id = store w !! id)
      /\ Forall (fun g => seq_counter w ∉ seqs g) (pool_groups pool)
      /\ exists tokens,
          pool_groups pool'
          = pool_groups pool
            ++ [mkSequenceGroup request_id' [seq_counter w] sp]
          /\ store w' !! seq_counter w = Some (new_sequence tokens)
          /\ (prompt_token_ids = Some tokens
              \/ (prompt_token_ids = None
                  /\ encode <$> prompt = Some tokens))).
Proof.
  split; [reflexivity|].
  intros Hbelow Hwf Hadd w w'.
  assert (Hshape : exists tokens,
             (prompt_token_ids = Some tokens
              \/ (prompt_token_ids = None /\ encode <$> prompt = Some tokens))
             /\ pool' = mkPool (allocate (seq_counter w) (new_sequence tokens)
                                  (snd (next_seq_id w)))
                          (pool_groups pool
                           ++ [mkSequenceGroup request_id' [seq_counter w]
                                 sp])).
  { unfold add_request in Hadd.
    destruct prompt_token_ids as [ids|].
    - injection Hadd as <-. exists ids. split; [by left | done].
    - destruct prompt as [text|]; [|done]. cbn in Hadd.
      injection Hadd as <-. exists (encode text). split; [by right | done]. }
  destruct Hshape as (tokens & Hsrc & ->). subst w'. cbn [pool_world pool_groups].
  assert (Hfresh : store w !! seq_counter w = None).
  { destruct (store w !! seq_counter w) eqn:E; [|done].
    assert (seq_counter w < seq_counter w) by (apply Hbelow; by eexists).
    lia. }
  assert (Hold : forall id, is_Some (store w !! id) ->
                   store (allocate (seq_counter w) (new_sequence tokens)
                            (snd (next_seq_id w))) !! id
                   = store w !! id).
  { intros id Hid. rewrite allocate_lookup.
    destruct (decide (seq_counter w = id)) as [<- | _]; [|done].
    rewrite Hfresh in Hid. by destruct Hid. }
  assert (Hnot : Forall (fun g => seq_counter w ∉ seqs g) (pool_groups pool)).
  { eapply Forall_impl; [exact Hwf|]. intros g [_ Hg] Hin.
    rewrite Forall_forall in Hg. specialize (Hg _ Hin).
    cbn beta in Hg. fold w in Hg. rewrite Hfresh in Hg. by destruct Hg. }
  split; [|split; [|split; [|split; [|split]]]].
  - intros id Hid. rewrite allocate_lookup in Hid. cbn.
    destruct (decide (seq_counter w = id)) as [<- | _]; [lia|].
    assert (id < seq_counter w) by (apply Hbelow; exact Hid). lia.
  - apply Forall_app. split.
    + eapply Forall_impl; [exact Hwf|]. intros g [Hnd Hg]. split; [done|].
      eapply Forall_impl; [exact Hg|]. intros id Hid. cbn beta.
      by rewrite Hold.
    + constructor; [|constructor]. split; cbn [seqs].
      * apply NoDup_singleton.
      * constructor; [|constructor]. rewrite allocate_lookup.
        rewrite decide_True by done. by eexists.
  - reflexivity.
  - exact Hold.
  - exact Hnot.
  - exists tokens. split; [done|]. split; [|done].
    rewrite allocate_lookup. by rewrite decide_True.
Qed.

Lemma add_request_keeps_pool_well_formed_witness :
  seq_counter
    (pool_world
       (fst (add_request (fun _ => [7; 8]) "r3"%string (Some "hi"%string)
               (Examples.greedy []) None
               (mkPool Examples.running_and_ignored
                  [Examples.running_group; Examples.ignored_group]))))
  = seq_counter Examples.running_and_ignored + 1.
Proof.
  pose (pool := mkPool Examples.running_and_ignored
                  [Examples.running_group; Examples.ignored_group]).
  destruct (add_request_keeps_pool_well_formed (fun _ => [7; 8]) "r3"%string
              (Some "hi"%string) (Examples.greedy []) None pool
              (fst (add_request (fun _ => [7; 8]) "r3"%string
                      (Some "hi"%string) (Examples.greedy []) None pool)))
    as [_ H].
  destruct H as (_ & _ & H & _).
  - intros id [s Hs]. cbn in Hs |- *.
    destruct (decide (id = 0)) as [-> | ?]; [lia|].
    destruct (decide (id = 5)) as [-> | ?]; [lia|].
    rewrite lookup_insert_ne, lookup_insert_ne in Hs by done. done.
  - repeat constructor; cbn; try (by eexists);
      try (apply not_elem_of_nil); try apply NoDup_nil_2.
  - reflexivity.
  - exact H.
Defined.

(** ** What a call does to the heap of sequences *)

Section StoreFrame.

Context {collab : Collaborators}.
Variable self : LLMEngine.

Lemma fork_children_store (parent chunk : Z) (ss : list SequenceOutputs)
    (w : World) (cs : ChildSeqs) :
  let w' := fst (foldl (fork_child parent chunk) (w, cs) ss) in
  seq_counter w' = seq_counter w + Z.of_nat (List.length ss)
  /\ (forall k, k < seq_counter w -> store w' !! k = store w !! k)
  /\ (forall k, is_Some (store w' !! k)
                <-> is_Some (store w !! k)
                    \/ seq_counter w <= k < seq_counter w').
Proof.
  revert w cs. induction ss as [|s ss IH]; intros w cs.
  - cbn. repeat split; [lia | tauto | intros [? | ?]; [done | lia]].
  - change (foldl (fork_child parent chunk) (w, cs) (s :: ss))
      with (foldl (fork_child parent chunk)
              (fork_child parent chunk (w, cs) s) ss).
    unfold fork_child at 2. cbn [fst snd next_seq_id].
    match goal with
    | |- context [foldl _ (?w1, ?cs1) ss] =>
        remember w1 as w1' eqn:Ew1; specialize (IH w1' cs1)
    end.
    cbv zeta in IH |- *. destruct IH as (Hn & Hf & Hd).
    assert (Hc1 : seq_counter w1' = seq_counter w + 1) by by subst w1'.
    assert (Hs1 : forall k, store w1' !! k
                            = if decide (seq_counter w = k)
                              then Some (append_token_id
                                           (fork (deref
                                                    (mkWorld (store w)
                                                       (seq_counter w + 1)
                                                       (sched_calls w))
                                                    parent)) s chunk)
                              else store w !! k).
    { intros k. subst w1'. unfold allocate. cbn. apply lookup_insert. }
    split; [|split].
    + rewrite Hn, Hc1. cbn [List.length]. lia.
    + intros k Hk. rewrite Hf by lia. rewrite Hs1.
      by rewrite decide_False by lia.
    + intros k. rewrite Hd, Hs1, Hn, Hc1. cbn [List.length].
      destruct (decide (seq_counter w = k)) as [<- | Hne].
      * split; [intros _; right; lia | intros _; left; by eexists].
      * split; (intros [? | ?]; [by left | right; lia]).
Qed.

Lemma process_parent_store (samples : list SequenceOutputs) (chunk : Z)
    (g : SequenceGroup) (w : World) (cs : ChildSeqs) (p : Z) :
  let w' := snd (fst (process_parent samples chunk (g, w, cs) p)) in
  seq_counter w <= seq_counter w'
  /\ (forall k, k <> p -> k < seq_counter w -> store w' !! k = store w !! k)
  /\ (forall k, is_Some (store w' !! k)
                <-> is_Some (store w !! k)
                    \/ seq_counter w <= k < seq_counter w')
  /\ (child_samples_of samples p = [] ->
      store w' !! p = set_status FINISHED_ABORTED <$> store w !! p).
Proof.
  unfold process_parent.
  destruct (last (child_samples_of samples p)) as [lst|] eqn:El.
  - pose proof (fork_children_store p chunk
                  (py_slice_to (child_samples_of samples p) (-1)) w cs)
      as Hfc.
    destruct (foldl (fork_child p chunk) (w, cs) _) as [w1 cs1].
    cbv zeta in Hfc. cbn [fst snd] in Hfc |- *.
    destruct Hfc as (Hn & Hf & Hd).
    split; [cbn; lia|]. split; [|split].
    + intros k Hk Hlt. rewrite mutate_lookup.
      rewrite decide_False by done. by apply Hf.
    + intros k. rewrite mutate_is_Some. apply Hd.
    + intros Hnil. rewrite Hnil in El. done.
  - cbn [fst snd]. split; [cbn; lia|]. split; [|split].
    + intros k Hk Hlt. cbn. rewrite lookup_alter_ne by done. done.
    + intros k. cbn. rewrite lookup_alter.
      destruct (decide (p = k)) as [-> | _].
      * rewrite fmap_is_Some. split; [by left | intros [? | ?]; [done | lia]].
      * split; [by left | intros [? | ?]; [done | lia]].
    + intros _. cbn. apply lookup_alter_eq.
Qed.

Lemma process_parents_store (samples : list SequenceOutputs) (chunk : Z)
    (parents : list Z) (g : SequenceGroup) (w : World) (cs : ChildSeqs) :
  let w' :=
    snd (fst (foldl (process_parent samples chunk) (g, w, cs) parents)) in
  seq_counter w <= seq_counter w'
  /\ (forall k, k ∉ parents -> k < seq_counter w ->
                store w' !! k = store w !! k)
  /\ (forall k, is_Some (store w' !! k)
                <-> is_Some (store w !! k)
                    \/ seq_counter w <= k < seq_counter w')
  /\ (NoDup parents -> Forall (fun p => p < seq_counter w) parents ->
      forall p, p ∈ childless samples parents ->
                store w' !! p = set_status FINISHED_ABORTED <$> store w !! p).
Proof.
  revert g w cs. induction parents as [|p parents IH]; intros g w cs.
  - cbn. repeat split; try lia; try tauto.
    + intros [? | ?]; [done | lia].
    + intros _ _ q Hq. by apply elem_of_nil in Hq.
  - change (foldl (process_parent samples chunk) (g, w, cs) (p :: parents))
      with (foldl (process_parent samples chunk)
              (process_parent samples chunk (g, w, cs) p) parents).
    pose proof (process_parent_store samples chunk g w cs p) as Hp.
    destruct (process_parent samples chunk (g, w, cs) p) as [[g1 w1] cs1].
    cbv zeta in Hp. cbn [fst snd] in Hp.
    destruct Hp as (Hn1 & Hf1 & Hd1 & Ha1).
    specialize (IH g1 w1 cs1). cbv zeta in IH |- *.
    destruct IH as (Hn & Hf & Hd & Ha).
    split; [lia|]. split; [|split].
    + intros k Hk Hlt. apply not_elem_of_cons in Hk as [Hkp Hk].
      rewrite Hf by (done || lia). by apply Hf1.
    + intros k. rewrite Hd, Hd1. split.
      * intros [[? | ?] | ?]; [by left | right; lia | right; lia].
      * intros [? | ?]; [by left; left|].
        destruct (decide (k < seq_counter w1)); [left; right; lia|].
        right. lia.
    + intros Hnd Hlt q Hq.
      apply NoDup_cons in Hnd as [Hpn Hnd].
      apply Forall_cons in Hlt as [Hplt Hlt].
      rewrite childless_cons in Hq.
      assert (Hlt1 : Forall (fun p0 => p0 < seq_counter w1) parents).
      { eapply Forall_impl; [exact Hlt|]. intros x Hx. cbn in Hx. lia. }
      destruct (decide (child_samples_of samples p = [])) as [Hc | Hc].
      * apply elem_of_cons in Hq as [-> | Hq].
        -- rewrite Hf by (done || lia). by apply Ha1.
        -- rewrite (Ha Hnd Hlt1 q Hq).
           assert (q ∈ parents)
             by (apply list_elem_of_filter in Hq; tauto).
           rewrite Forall_forall in Hlt.
           rewrite Hf1; [done | congruence | by apply Hlt].
      * rewrite (Ha Hnd Hlt1 q Hq).
        assert (q ∈ parents) by (apply list_elem_of_filter in Hq; tauto).
        rewrite Forall_forall in Hlt.
        rewrite Hf1; [done | congruence | by apply Hlt].
Qed.

Lemma decode_loop_store (sp : SamplingParams) (cs : ChildSeqs) (w : World) :
  let w' := foldl (decode_and_check self sp) w cs in
  (forall k, k ∉ map fst cs -> store w' !! k = store w !! k)
  /\ (forall k, is_Some (store w' !! k) <-> is_Some (store w !! k)).
Proof.
  revert w. induction cs as [|e cs IH]; intros w; [done|].
  cbn [foldl]. specialize (IH (decode_and_check self sp w e)).
  cbv zeta in IH |- *. destruct IH as [Hf Hd]. split.
  - intros k Hk. cbn [map] in Hk. apply not_elem_of_cons in Hk as [Hke Hk].
    rewrite Hf by done. unfold decode_and_check.
    rewrite mutate_lookup. by rewrite decide_False.
  - intros k. rewrite Hd. unfold decode_and_check. apply mutate_is_Some.
Qed.

(** Parents with samples are children of themselves. *)
Lemma process_parents_self_pair (samples : list SequenceOutputs) (chunk : Z)
    (parents : list Z) (g : SequenceGroup) (w : World) (cs : ChildSeqs)
    (p : Z) :
  p ∈ parents -> child_samples_of samples p <> [] ->
  (p, p) ∈ snd (foldl (process_parent samples chunk) (g, w, cs) parents).
Proof.
  revert g w cs. induction parents as [|q parents IH]; intros g w cs Hp Hc.
  { by apply elem_of_nil in Hp. }
  change (foldl (process_parent samples chunk) (g, w, cs) (q :: parents))
    with (foldl (process_parent samples chunk)
            (process_parent samples chunk (g, w, cs) q) parents).
  destruct (process_parent_spec samples chunk g w cs q)
    as (w1 & k & _ & _ & Hnil & Hsome).
  destruct (decide (p = q)) as [<- | Hne].
  - destruct (Hsome Hc) as [-> _].
    match goal with
    | |- context [foldl _ (?g1, ?w1', ?cs1) parents] =>
        destruct (process_parents_spec samples chunk parents g1 w1' cs1)
          as (w' & new & -> & _)
    end.
    cbn [snd]. apply elem_of_app. left. apply elem_of_app. right.
    apply list_elem_of_here.
  - apply elem_of_cons in Hp as [? | Hp]; [done|].
    destruct (process_parent samples chunk (g, w, cs) q) as [[g1 w1'] cs1].
    by apply IH.
Qed.

End StoreFrame.

Section HeapInvariants.

Context {collab : Collaborators}.
Variable self : LLMEngine.

Lemma apply_samples_fold (g : SequenceGroup) (chunk : Z)
    (samples : list SequenceOutputs) (w0 : World) (g1 : SequenceGroup)
    (w1 : World) (cs : ChildSeqs) :
  apply_samples g chunk samples w0 = Ok (g1, w1, cs) ->
  foldl (process_parent samples chunk) (g, w0, []) (get_seqs w0 g RUNNING)
  = (g1, w1, cs).
Proof.
  unfold apply_samples. destruct (forallb _ samples); [|done].
  by intros [= ->].
Qed.

(** The group and the state after a call that got past the bucketing: some
    children [l] of the step were added, some members were removed, and the
    state is the one after the second phase with more scheduler calls. *)
Lemma process_group_shape (g : SequenceGroup) (chunk : Z)
    (samples : list SequenceOutputs) (w0 : World) (g1 : SequenceGroup)
    (w1 : World) (cs : ChildSeqs) :
  apply_samples g chunk samples w0 = Ok (g1, w1, cs) ->
  exists (D E : list Z) (l : ChildSeqs) (calls : list SchedCall)
         (err : option PyError),
    l ⊆+ cs
    /\ _process_sequence_group_samples self g chunk samples w0
       = (with_seqs (filter (fun i => i ∉ D)
                       (filter (fun i => i ∉ E) (seqs g1) ++ added_by l)) g1,
          with_calls calls
            (foldl (decode_and_check self (sampling_params g)) w1 cs),
          err).
Proof.
  intros Ha. rewrite (process_outcome self g chunk samples w0 g1 w1 cs Ha).
  set (w2 := foldl (decode_and_check self (sampling_params g)) w1 cs).
  destruct (use_beam_search (sampling_params g)); cbn [negb].
  - destruct (stop_beam_search _ _ _ _ _) as [stop|e].
    + eexists _, _, _, _, None. split. 2: reflexivity.
      pose proof (selection_partition self w2
                    (length_penalty (sampling_params g))
                    (get_finished_seqs w0 g) cs
                    (best_of (sampling_params g)) stop) as Hp.
      etrans; [|apply Permutation_submseteq; exact Hp].
      by apply submseteq_inserts_r.
    + exists [], (existing_ids
                    (py_slice_from
                       (all_finished_sorted self w2
                          (length_penalty (sampling_params g))
                          (get_finished_seqs w0 g) cs)
                       (best_of (sampling_params g)))), [], [], (Some e).
      split; [apply submseteq_nil_l|].
      rewrite remove_existing_seqs, with_calls_nil.
      unfold added_by. rewrite filter_nil. cbn [map].
      rewrite app_nil_r. cbn [seqs with_seqs].
      rewrite (filter_all (fun i => i ∉ @nil Z))
        by (intros x _; apply not_elem_of_nil).
      done.
  - exists [], [], cs, (forks_of w2 cs ++ frees_of_finished w2 cs), None.
    split; [done|].
    rewrite !(filter_all (fun i => i ∉ @nil Z))
      by (intros x _; apply not_elem_of_nil).
    done.
Qed.

(** The heap after a call, against the heap before it. *)
Lemma process_store (g : SequenceGroup) (chunk : Z)
    (samples : list SequenceOutputs) (w0 : World) :
  let w' :=
    snd (fst (_process_sequence_group_samples self g chunk samples w0)) in
  seq_counter w0 <= seq_counter w'
  /\ (forall k, k ∉ get_seqs w0 g RUNNING -> k < seq_counter w0 ->
                store w' !! k = store w0 !! k)
  /\ (forall k, is_Some (store w' !! k)
                <-> is_Some (store w0 !! k)
                    \/ seq_counter w0 <= k < seq_counter w').
Proof.
  destruct (apply_samples g chunk samples w0) as [[[g1 w1] cs]|e] eqn:Ea.
  2:{ unfold _process_sequence_group_samples. rewrite Ea. cbn.
      repeat split; [lia | tauto | intros [? | ?]; [done | lia]]. }
  destruct (process_group_shape g chunk samples w0 g1 w1 cs Ea)
    as (D & E & l & calls & err & _ & ->).
  cbn [fst snd]. cbv zeta.
  destruct (apply_samples_spec g chunk samples w0 g1 w1 cs Ea)
    as (_ & _ & _ & Hcs & _).
  pose proof (apply_samples_fold g chunk samples w0 g1 w1 cs Ea) as Hfold.
  pose proof (process_parents_store samples chunk (get_seqs w0 g RUNNING)
                g w0 []) as Hp.
  rewrite Hfold in Hp. cbv zeta in Hp. cbn [fst snd] in Hp.
  destruct Hp as (Hn & Hf & Hd & _).
  destruct (decode_loop_store self (sampling_params g) cs w1) as [Hf2 Hd2].
  destruct (decode_and_check_loop self (sampling_params g) cs w1)
    as [_ Hc2].
  cbn [with_calls store seq_counter]. rewrite Hc2.
  split; [done|]. split.
  - intros k Hk Hlt. rewrite Hf2; [by apply Hf|].
    intros Hin. apply list_elem_of_fmap in Hin as ([s p] & -> & Hin).
    rewrite Forall_forall in Hcs.
    destruct (Hcs _ Hin) as (Hp1 & _ & [Heq | Hge]); cbn in *.
    + apply Hk. by rewrite Heq.
    + lia.
  - intros k. rewrite Hd2. apply Hd.
Qed.

End HeapInvariants.

Lemma submseteq_NoDup_fst (l cs : ChildSeqs) :
  l ⊆+ cs -> NoDup (map fst cs) -> NoDup (map fst l).
Proof.
  intros Hsub Hnd. apply submseteq_Permutation in Hsub as [k Hk].
  rewrite Hk, fmap_app in Hnd. by apply NoDup_app in Hnd as [? _].
Qed.

Lemma added_by_NoDup (l : ChildSeqs) :
  NoDup (map fst l) -> NoDup (added_by l).
Proof.
  intros Hnd. unfold added_by. eapply sublist_NoDup; [exact Hnd|].
  apply fmap_sublist, sublist_filter.
Qed.

Section Invariants.

Context {collab : Collaborators}.
Variable self : LLMEngine.

(** X9: a call of [_process_sequence_group_samples] changes no stored
    sequence other than the running members of its group: every sequence
    with an id below the counter that is not a running member of the group
    (a finished, waiting or swapped member, or a sequence of another group)
    is after the call exactly what it was before, whether the call returns
    or raises. *)
Theorem process_leaves_other_sequences_alone (g : SequenceGroup) (chunk : Z)
    (samples : list SequenceOutputs) (w0 : World) (k : Z) :
  k ∉ get_seqs w0 g RUNNING ->
  k < seq_counter w0 ->
  store (snd (fst (_process_sequence_group_samples self g chunk samples w0)))
    !! k
  = store w0 !! k.
Proof.
  intros Hk Hlt.
  destruct (process_store self g chunk samples w0) as (_ & Hf & _).
  by apply Hf.
Qed.

(** The group keeps its request id and its sampling parameters. *)
Lemma process_group_header (g : SequenceGroup) (chunk : Z)
    (samples : list SequenceOutputs) (w0 : World) :
  let g' := fst (fst (_process_sequence_group_samples self g chunk samples w0)) in
  request_id g' = request_id g /\ sampling_params g' = sampling_params g.
Proof.
  cbv zeta.
  destruct (apply_samples g chunk samples w0) as [[[g1 w1] cs]|e] eqn:Ea.
  2:{ unfold _process_sequence_group_samples. by rewrite Ea. }
  destruct (process_group_shape self g chunk samples w0 g1 w1 cs Ea)
    as (D & E & l & calls & err & _ & ->).
  destruct (apply_samples_spec g chunk samples w0 g1 w1 cs Ea) as (-> & _).
  done.
Qed.

(** The members of the group after a call are distinct stored sequences. *)
Lemma process_members (g : SequenceGroup) (chunk : Z)
    (samples : list SequenceOutputs) (w0 : World) :
  ids_below_counter w0 ->
  group_well_formed w0 g ->
  let out := _process_sequence_group_samples self g chunk samples w0 in
  group_well_formed (snd (fst out)) (fst (fst out)).
Proof.
  intros Hbelow [Hnd Hstored]. cbv zeta.
  pose proof (process_store self g chunk samples w0) as Hst.
  destruct (apply_samples g chunk samples w0) as [[[g1 w1] cs]|e] eqn:Ea.
  2:{ unfold _process_sequence_group_samples. rewrite Ea. by split. }
  destruct (process_group_shape self g chunk samples w0 g1 w1 cs Ea)
    as (D & E & l & calls & err & Hsub & Hshape).
  rewrite Hshape in Hst |- *. cbv zeta in Hst. cbn [fst snd] in Hst |- *.
  destruct Hst as (Hn & _ & Hd).
  set (w' := with_calls calls _) in *.
  destruct (apply_samples_spec g chunk samples w0 g1 w1 cs Ea)
    as (Hg1 & _ & _ & Hcs & Hndcs).
  rewrite Forall_forall in Hstored. rewrite Forall_forall in Hcs.
  assert (Hmem : forall x, x ∈ seqs g -> x < seq_counter w0).
  { intros x Hx. apply Hbelow. by apply Hstored. }
  assert (Hndfst : NoDup (map fst cs)).
  { apply Hndcs; [by apply NoDup_filter|].
    apply Forall_forall. intros x Hx. apply Hmem.
    apply list_elem_of_filter in Hx. tauto. }
  assert (Hadded : forall x, x ∈ added_by l ->
                             seq_counter w0 <= x < seq_counter w').
  { intros x Hx. apply added_by_elem_of in Hx as (p & Hin & Hne).
    apply (elem_of_submseteq _ cs) in Hin; [|done].
    destruct (Hcs _ Hin) as (_ & _ & [? | Hr]); [done|].
    cbn in Hr.
    destruct (decode_and_check_loop self (sampling_params g) cs w1)
      as [_ Hc2].
    subst w'. unfold with_calls. cbn [seq_counter]. rewrite Hc2. done. }
  assert (Hg1s : forall x, x ∈ seqs g1 -> x ∈ seqs g).
  { intros x. rewrite Hg1. cbn. rewrite list_elem_of_filter. tauto. }
  split; cbn [seqs with_seqs].
  - apply NoDup_filter, NoDup_app. split; [|split].
    + apply NoDup_filter. rewrite Hg1. cbn. by apply NoDup_filter.
    + intros x Hx Hx'. apply list_elem_of_filter in Hx as [_ Hx].
      apply Hg1s, Hmem in Hx. apply Hadded in Hx'. lia.
    + apply added_by_NoDup. by eapply submseteq_NoDup_fst.
  - apply Forall_forall. intros x Hx.
    apply list_elem_of_filter in Hx as [_ Hx].
    apply elem_of_app in Hx as [Hx | Hx].
    + apply list_elem_of_filter in Hx as [_ Hx].
      apply Hd. left. by apply Hstored, Hg1s.
    + apply Hd. right. by apply Hadded.
Qed.

(** X10: a call of [_process_sequence_group_samples] keeps the heap
    well formed, whether it returns or raises.  If all stored ids are below
    the counter and the members of the group are distinct stored sequences,
    then the same holds after the call; the counter does not go back; no
    stored sequence disappears; and the group keeps its request id and its
    sampling parameters. *)
Theorem process_keeps_heap_well_formed (g : SequenceGroup) (chunk : Z)
    (samples : list SequenceOutputs) (w0 : World) :
  ids_below_counter w0 ->
  group_well_formed w0 g ->
  let '(g', w', _) :=
    _process_sequence_group_samples self g chunk samples w0 in
  ids_below_counter w'
  /\ group_well_formed w' g'
  /\ seq_counter w0 <= seq_counter w'
  /\ (forall k, is_Some (store w0 !! k) -> is_Some (store w' !! k))
  /\ request_id g' = request_id g
  /\ sampling_params g' = sampling_params g.
Proof.
  intros Hbelow Hwf.
  pose proof (process_members g chunk samples w0 Hbelow Hwf) as Hm.
  pose proof (process_store self g chunk samples w0) as Hst.
  pose proof (process_group_header g chunk samples w0) as Hh.
  destruct (_process_sequence_group_samples self g chunk samples w0)
    as [[g' w'] err].
  cbv zeta in Hm, Hst, Hh. cbn [fst snd] in Hm, Hst, Hh.
  destruct Hst as (Hn & _ & Hd). destruct Hh as [Hr Hs].
  split; [|split; [|split; [|split; [|split]]]]; try done.
  - intros k Hk. apply Hd in Hk as [Hk | Hk]; [|lia].
    specialize (Hbelow _ Hk). lia.
  - intros k Hk. apply Hd. by left.
Qed.

End Invariants.

Lemma py_slice_to_length {A : Type} (l : list A) (i : Z) :
  0 <= i -> (List.length (py_slice_to l i) <= Z.to_nat i)%nat.
Proof.
  intros Hi. rewrite py_slice_to_nonneg by done. rewrite length_take. lia.
Qed.

Section BeamWidth.

Context {collab : Collaborators}.
Variable self : LLMEngine.

(** X11: a beam-search call of [_process_sequence_group_samples] that
    returns leaves at most [beam_width = best_of] running sequences in the
    group, whatever number of running sequences and of samples it started
    from (on a well-formed heap, with a non-negative width). *)
Theorem beam_search_keeps_at_most_beam_width_running (g : SequenceGroup)
    (chunk : Z) (samples : list SequenceOutputs) (w0 : World) :
  ids_below_counter w0 ->
  group_well_formed w0 g ->
  use_beam_search (sampling_params g) = true ->
  0 <= best_of (sampling_params g) ->
  let '(g', w', err) :=
    _process_sequence_group_samples self g chunk samples w0 in
  err = None ->
  (List.length (get_seqs w' g' RUNNING)
   <= Z.to_nat (best_of (sampling_params g)))%nat.
Proof.
  intros Hbelow Hwf Hbeam Hbw.
  pose proof (process_members self g chunk samples w0 Hbelow Hwf) as Hinv.
  pose proof (process_store self g chunk samples w0) as Hst.
  cbv zeta in Hinv.
  destruct (apply_samples g chunk samples w0) as [[[g1 w1] cs]|e] eqn:Ea.
  2:{ unfold _process_sequence_group_samples. rewrite Ea. done. }
  pose proof (process_outcome self g chunk samples w0 g1 w1 cs Ea) as Hout.
  cbv zeta in Hout. rewrite Hbeam in Hout. cbn [negb] in Hout.
  pose proof (apply_samples_fold g chunk samples w0 g1 w1 cs Ea) as Hfold.
  destruct (apply_samples_spec g chunk samples w0 g1 w1 cs Ea)
    as (Hg1 & _ & _ & _ & _).
  set (sp := sampling_params g) in *.
  set (w2 := foldl (decode_and_check self sp) w1 cs) in *.
  set (all := all_finished_sorted self w2 (length_penalty sp)
                (get_finished_seqs w0 g) cs) in *.
  set (running := running_sorted self w2 (length_penalty sp) cs) in *.
  destruct (stop_beam_search self sp w2 all running) as [stop|e].
  2:{ rewrite Hout. done. }
  rewrite Hout in Hinv, Hst |- *. intros _.
  cbv zeta in Hst. cbn [fst snd] in Hst.
  destruct Hst as (_ & Hframe & _).
  cbn [fst snd] in Hinv. destruct Hinv as [Hnd' _].
  destruct Hwf as [Hnd Hstored]. rewrite Forall_forall in Hstored.
  set (selected := new_pairs (py_slice_to all (best_of sp))
                   ++ (if stop then [] else py_slice_to running (best_of sp)))
    in *.
  set (unselected := new_pairs (py_slice_from all (best_of sp))
                     ++ (if stop then running
                         else py_slice_from running (best_of sp))) in *.
  set (ids := filter _ (_ ++ added_by selected)) in *.
  set (w' := with_calls _ w2) in *.
  assert (Hstore : store w' = store w2) by done.
  assert (Hsub : forall x, x ∈ get_seqs w' (with_seqs ids g1) RUNNING ->
                           x ∈ map fst (py_slice_to running (best_of sp))).
  { intros x Hx. unfold get_seqs in Hx.
    apply list_elem_of_filter in Hx as [Hrun Hx]. cbn [seqs with_seqs] in Hx.
    assert (Hnf : finished_in w2 x = false).
    { unfold status_of in Hrun. unfold finished_in. rewrite <- Hstore.
      destruct (store w' !! x) as [q|]; [|done]. cbn in Hrun.
      injection Hrun as Hrun. unfold is_finished. by rewrite Hrun. }
    assert (Hsel : forall p, (x, p) ∈ selected ->
                     x ∈ map fst (py_slice_to running (best_of sp))).
    { intros p Hp. subst selected. apply elem_of_app in Hp as [Hp | Hp].
      - apply new_pairs_elem_of in Hp. apply py_slice_to_elem_of in Hp.
        apply all_finished_new_elem_of in Hp as [_ Hp]. congruence.
      - destruct stop; [by apply elem_of_nil in Hp|].
        apply list_elem_of_fmap. by exists (x, p). }
    subst ids. apply list_elem_of_filter in Hx as [Hnd1 Hx].
    apply elem_of_app in Hx as [Hx | Hx].
    - apply list_elem_of_filter in Hx as [_ Hx].
      rewrite Hg1 in Hx. cbn [seqs with_seqs] in Hx.
      apply list_elem_of_filter in Hx as [Hnc Hx].
      destruct (decide (x ∈ get_seqs w0 g RUNNING)) as [Hpar | Hnpar].
      + assert (Hc : child_samples_of samples x <> []).
        { intros Hc. apply Hnc. unfold childless.
          by apply list_elem_of_filter. }
        pose proof (process_parents_self_pair samples chunk _ g w0 [] x
                      Hpar Hc) as Hpair.
        rewrite Hfold in Hpair. cbn [snd] in Hpair.
        assert (Hin : (x, x) ∈ selected ++ unselected).
        { subst selected unselected all running.
          rewrite selection_partition. exact Hpair. }
        apply elem_of_app in Hin as [Hin | Hin]; [by apply (Hsel x)|].
        exfalso. apply Hnd1. by apply dropped_parents_elem_of.
      + exfalso. assert (Hlt : x < seq_counter w0).
        { apply Hbelow. by apply Hstored. }
        specialize (Hframe x Hnpar Hlt).
        apply Hnpar. unfold get_seqs. apply list_elem_of_filter.
        split; [|done]. unfold status_of in *. by rewrite <- Hframe.
    - apply added_by_elem_of in Hx as (p & Hp & _). by apply (Hsel p). }
  etrans.
  - apply submseteq_length, NoDup_submseteq; [|exact Hsub].
    unfold get_seqs. by apply NoDup_filter.
  - rewrite length_fmap. by apply py_slice_to_length.
Qed.

End BeamWidth.

Lemma filter_nil_not_elem_of {A : Type} (P : A -> Prop)
    `{forall x, Decision (P x)} (l : list A) :
  (forall x, x ∈ l -> ~ P x) -> filter P l = [].
Proof.
  intros Hl. destruct (filter P l) as [|x k] eqn:E; [done|].
  assert (Hx : x ∈ filter P l) by (rewrite E; apply list_elem_of_here).
  apply list_elem_of_filter in Hx as [HP Hx]. by destruct (Hl x Hx).
Qed.

Lemma apply_samples_ok {collab : Collaborators} (g : SequenceGroup)
    (chunk : Z) (samples : list SequenceOutputs) (w0 : World) :
  (forall s, s ∈ samples -> parent_seq_id s ∈ get_seqs w0 g RUNNING) ->
  exists g1 w1 cs, apply_samples g chunk samples w0 = Ok (g1, w1, cs).
Proof.
  intros Hall. unfold apply_samples.
  assert (E : forallb (fun s => bool_decide
                         (parent_seq_id s ∈ get_seqs w0 g RUNNING)) samples
              = true).
  { apply forallb_forall. intros s Hs. apply bool_decide_eq_true.
    apply Hall. by apply list_elem_of_In. }
  rewrite E.
  destruct (foldl _ _ _) as [[g1 w1] cs]. by exists g1, w1, cs.
Qed.

Lemma apply_samples_raise {collab : Collaborators} (g : SequenceGroup)
    (chunk : Z) (samples : list SequenceOutputs) (w0 : World) :
  Exists (fun s => parent_seq_id s ∉ get_seqs w0 g RUNNING) samples ->
  apply_samples g chunk samples w0 = Raise KeyError.
Proof.
  intros Hex. unfold apply_samples.
  destruct (forallb _ samples) eqn:E; [|done].
  rewrite forallb_forall in E. apply Exists_exists in Hex as (s & Hs & Hn).
  apply list_elem_of_In in Hs. apply E in Hs.
  by apply bool_decide_eq_true in Hs.
Qed.

Lemma py_index_raises {A : Type} (l : list A) (i : Z) (e : PyError) :
  py_index l i = Raise e -> e = IndexError.
Proof.
  unfold py_index. destruct (_ || _); [by intros [= <-]|].
  destruct (l !! _); [done | by intros [= <-]].
Qed.

Lemma stop_beam_search_raises {collab : Collaborators} (self : LLMEngine)
    (sp : SamplingParams) (w : World) (all : list FinishedEntry)
    (running : ChildSeqs) (e : PyError) :
  stop_beam_search self sp w all running = Raise e ->
  (e = IndexError /\ best_of sp < 1)
  \/ (e = AssertionError
      /\ (use_beam_search sp = false
          \/ exists s, early_stopping sp = ES_str s /\ s <> "never"%string)).
Proof.
  unfold stop_beam_search.
  destruct (py_len running =? 0) eqn:Er; [done|].
  destruct (py_len all <? best_of sp) eqn:Ea; [done|].
  apply Z.eqb_neq in Er. apply Z.ltb_ge in Ea.
  destruct (py_index running 0) as [best|e1] eqn:Eb; cbn [rbind].
  2:{ unfold py_index in Eb. cbn in Eb.
      destruct (py_len running <=? 0) eqn:E0.
      - apply Z.leb_le in E0. unfold py_len in *. lia.
      - destruct running; [done|]. done. }
  destruct (py_index all (best_of sp - 1)) as [worst|e1] eqn:Ew; cbn [rbind].
  2:{ intros [= <-]. left.
      destruct (decide (best_of sp < 1)) as [Hlt | Hge].
      - split; [|done]. by apply py_index_raises in Ew.
      - exfalso. unfold py_index in Ew.
        destruct (best_of sp - 1 <? 0) eqn:E1; [apply Z.ltb_lt in E1; lia|].
        destruct ((best_of sp - 1 <? 0) || (py_len all <=? best_of sp - 1))
          eqn:E2.
        + apply orb_true_iff in E2 as [E2 | E2].
          * apply Z.ltb_lt in E2. lia.
          * apply Z.leb_le in E2. lia.
        + destruct (all !! Z.to_nat (best_of sp - 1)) eqn:E3; [done|].
          apply lookup_ge_None in E3. unfold py_len in *. lia. }
  unfold _check_beam_search_early_stopping.
  destruct (use_beam_search sp); cbn [py_assert rbind].
  2:{ intros [= <-]. right. split; [done|]. by left. }
  destruct (early_stopping sp) as [[|]|s] eqn:Ees; cbn [rbind]; try done.
  case_bool_decide as Hs; cbn [py_assert rbind].
  - by destruct (negb _).
  - intros [= <-]. right. split; [done|]. right. exists s. split; [done|].
    intros ->. by apply Hs.
Qed.

Section CallOutcome.

Context {collab : Collaborators}.
Variable self : LLMEngine.

(** X12: a running member of the group that got no sample is aborted by a
    call of [_process_sequence_group_samples] that gets past the bucketing
    of the samples, whether the call then returns or raises: afterwards it
    is no member of the group, its stored object differs from the one before
    the call in the status [FINISHED_ABORTED] only, and [free_seq] was
    called for it. *)
Theorem parent_without_sample_is_aborted (g : SequenceGroup) (chunk : Z)
    (samples : list SequenceOutputs) (w0 : World) (p : Z) :
  ids_below_counter w0 ->
  group_well_formed w0 g ->
  (forall s, s ∈ samples -> parent_seq_id s ∈ get_seqs w0 g RUNNING) ->
  p ∈ get_seqs w0 g RUNNING ->
  (forall s, s ∈ samples -> parent_seq_id s <> p) ->
  let '(g', w', _) :=
    _process_sequence_group_samples self g chunk samples w0 in
  (p ∉ seqs g')
  /\ store w' !! p = set_status FINISHED_ABORTED <$> store w0 !! p
  /\ free_seq p ∈ sched_calls w'.
Proof.
  intros Hbelow [Hnd Hstored] Hall Hp Hnone.
  rewrite Forall_forall in Hstored.
  destruct (apply_samples_ok g chunk samples w0 Hall) as (g1 & w1 & cs & Ea).
  destruct (process_group_shape self g chunk samples w0 g1 w1 cs Ea)
    as (D & E & l & calls & err & Hsub & ->).
  destruct (apply_samples_spec g chunk samples w0 g1 w1 cs Ea)
    as (Hg1 & Hcalls & Hn & Hcs & _).
  rewrite Forall_forall in Hcs.
  pose proof (apply_samples_fold g chunk samples w0 g1 w1 cs Ea) as Hfold.
  assert (Hmem : forall x, x ∈ get_seqs w0 g RUNNING -> x < seq_counter w0).
  { intros x Hx. apply Hbelow, Hstored.
    unfold get_seqs in Hx. apply list_elem_of_filter in Hx. tauto. }
  assert (Hc : child_samples_of samples p = []).
  { unfold child_samples_of. apply filter_nil_not_elem_of. exact Hnone. }
  assert (Hchildless : p ∈ childless samples (get_seqs w0 g RUNNING)).
  { unfold childless. by apply list_elem_of_filter. }
  assert (Hfresh : forall q, (p, q) ∉ cs).
  { intros q Hin. destruct (Hcs _ Hin) as (_ & Hne & [Heq | Hge]).
    - cbn in Heq, Hne. subst q. done.
    - cbn in Hge. specialize (Hmem p Hp). lia. }
  split; [|split].
  - cbn [seqs with_seqs]. intros Hin.
    apply list_elem_of_filter in Hin as [_ Hin].
    apply elem_of_app in Hin as [Hin | Hin].
    + apply list_elem_of_filter in Hin as [_ Hin].
      rewrite Hg1 in Hin. cbn [seqs with_seqs] in Hin.
      apply list_elem_of_filter in Hin as [Hin _]. done.
    + apply added_by_elem_of in Hin as (q & Hin & _).
      apply (Hfresh q). by eapply elem_of_submseteq.
  - change (store (with_calls calls ?w)) with (store w).
    destruct (decode_loop_store self (sampling_params g) cs w1) as [Hf _].
    rewrite Hf.
    + pose proof (process_parents_store samples chunk
                    (get_seqs w0 g RUNNING) g w0 []) as Hps.
      cbv zeta in Hps. rewrite Hfold in Hps. cbn [fst snd] in Hps.
      destruct Hps as (_ & _ & _ & Ha). apply Ha.
      * unfold get_seqs. by apply NoDup_filter.
      * apply Forall_forall. exact Hmem.
      * exact Hchildless.
    + intros Hin. apply list_elem_of_fmap in Hin as ([c q] & Heq & Hin).
      cbn in Heq. subst c. by apply (Hfresh q).
  - unfold with_calls. cbn [sched_calls].
    destruct (decode_and_check_loop self (sampling_params g) cs w1)
      as [-> _].
    rewrite Hcalls. apply elem_of_app. left. apply elem_of_app. right.
    apply list_elem_of_fmap. by exists p.
Qed.

(** X13: [_process_sequence_group_samples] raises [KeyError] exactly when
    some sample names a parent that is not a running member of the group,
    and then it has changed neither the group nor the state.  Any other
    exception comes from the decision to stop a beam search: [IndexError]
    only for a beam width below one, [AssertionError] only for an
    [early_stopping] string other than [never]. *)
Theorem key_error_iff_sample_of_non_running_parent (g : SequenceGroup)
    (chunk : Z) (samples : list SequenceOutputs) (w0 : World) :
  let out := _process_sequence_group_samples self g chunk samples w0 in
  let sp := sampling_params g in
  (snd out = Some KeyError
   <-> Exists (fun s => parent_seq_id s ∉ get_seqs w0 g RUNNING) samples)
  /\ (snd out = Some KeyError -> out = (g, w0, Some KeyError))
  /\ (snd out = Some IndexError ->
      use_beam_search sp = true /\ best_of sp < 1)
  /\ (snd out = Some AssertionError ->
      use_beam_search sp = true
      /\ exists s, early_stopping sp = ES_str s /\ s <> "never"%string)
  /\ snd out <> Some ValueError.
Proof.
  cbv zeta.
  destruct (decide (Exists (fun s => parent_seq_id s
                                     ∉ get_seqs w0 g RUNNING) samples))
    as [Hex | Hnex].
  - unfold _process_sequence_group_samples.
    rewrite (apply_samples_raise g chunk samples w0 Hex). cbn [snd].
    repeat split; done.
  - assert (Hall : forall s, s ∈ samples
                             -> parent_seq_id s ∈ get_seqs w0 g RUNNING).
    { intros s Hs.
      destruct (decide (parent_seq_id s ∈ get_seqs w0 g RUNNING)); [done|].
      exfalso. apply Hnex. apply Exists_exists. by exists s. }
    destruct (apply_samples_ok g chunk samples w0 Hall)
      as (g1 & w1 & cs & Ea).
    rewrite (process_outcome self g chunk samples w0 g1 w1 cs Ea).
    cbv zeta.
    destruct (use_beam_search (sampling_params g)) eqn:Hb; cbn [negb].
    2:{ cbn [snd]. repeat split; done. }
    destruct (stop_beam_search self _ _ _ _) as [stop|e] eqn:Es.
    { cbn [snd]. repeat split; done. }
    cbn [snd].
    apply stop_beam_search_raises in Es
      as [[-> Hbw] | [-> [Hf | Hs]]].
    + repeat split; done.
    + congruence.
    + repeat split; done.
Qed.


End CallOutcome.

(** Decides [ids_below_counter] of a world written out as insertions. *)
Ltac ids_below_by_cases :=
  let id := fresh "id" in
  let s := fresh "s" in
  let Hs := fresh "Hs" in
  intros id [s Hs]; cbn in Hs |- *;
  repeat match type of Hs with
         | <[?k := _]> _ !! id = Some _ =>
             destruct (decide (id = k)) as [-> | ?]; [lia|];
             rewrite lookup_insert_ne in Hs by done
         end;
  done.

Ltac by_evaluation := apply (bool_decide_unpack _); vm_compute; exact I.

Lemma process_leaves_other_sequences_alone_witness :
  store (snd (fst (_process_sequence_group_samples
                     (collab := Examples.spec_collaborators) Examples.engine
                     Examples.narrow_beam_group 0 Examples.beam_samples
                     Examples.beam_world))) !! 0
  = store Examples.beam_world !! 0.
Proof.
  apply process_leaves_other_sequences_alone.
  - by_evaluation.
  - cbn. lia.
Defined.

Lemma process_keeps_heap_well_formed_witness :
  let out :=
    _process_sequence_group_samples (collab := Examples.spec_collaborators)
      Examples.engine Examples.narrow_beam_group 0 Examples.beam_samples
      Examples.beam_world in
  ids_below_counter (snd (fst out))
  /\ group_well_formed (snd (fst out)) (fst (fst out)).
Proof.
  cbv zeta.
  pose proof (process_keeps_heap_well_formed
                (collab := Examples.spec_collaborators) Examples.engine
                Examples.narrow_beam_group 0 Examples.beam_samples
                Examples.beam_world) as H.
  destruct (_process_sequence_group_samples _ _ _ _ _) as [[g' w'] e].
  cbn [fst snd]. destruct H as (H1 & H2 & _).
  - ids_below_by_cases.
  - split; by_evaluation.
  - by split.
Defined.

Lemma beam_search_keeps_at_most_beam_width_running_witness :
  let out :=
    _process_sequence_group_samples (collab := Examples.spec_collaborators)
      Examples.engine Examples.narrow_beam_group 0 Examples.beam_samples
      Examples.beam_world in
  snd out = None
  /\ (List.length (get_seqs (snd (fst out)) (fst (fst out)) RUNNING) <= 1)%nat.
Proof.
  cbv zeta.
  assert (Hnone : snd (_process_sequence_group_samples
                         (collab := Examples.spec_collaborators)
                         Examples.engine Examples.narrow_beam_group 0
                         Examples.beam_samples Examples.beam_world) = None)
    by (vm_compute; reflexivity).
  split; [exact Hnone|].
  pose proof (beam_search_keeps_at_most_beam_width_running
                (collab := Examples.spec_collaborators) Examples.engine
                Examples.narrow_beam_group 0 Examples.beam_samples
                Examples.beam_world) as H.
  destruct (_process_sequence_group_samples _ _ _ _ _) as [[g' w'] e].
  cbn [fst snd] in *. apply H.
  - ids_below_by_cases.
  - split; by_evaluation.
  - reflexivity.
  - cbn. lia.
  - exact Hnone.
Defined.

Lemma parent_without_sample_is_aborted_witness :
  let out :=
    _process_sequence_group_samples (collab := Examples.spec_collaborators)
      Examples.engine Examples.beam_group 0
      [Examples.sample 1 7; Examples.sample 1 8] Examples.two_beams in
  (0 ∉ seqs (fst (fst out)))
  /\ status_of (snd (fst out)) 0 = Some FINISHED_ABORTED.
Proof.
  cbv zeta.
  pose proof (parent_without_sample_is_aborted
                (collab := Examples.spec_collaborators) Examples.engine
                Examples.beam_group 0
                [Examples.sample 1 7; Examples.sample 1 8]
                Examples.two_beams 0) as H.
  destruct (_process_sequence_group_samples _ _ _ _ _) as [[g' w'] e].
  cbn [fst snd]. destruct H as (H1 & H2 & _).
  - ids_below_by_cases.
  - split; by_evaluation.
  - apply Forall_forall. by_evaluation.
  - by_evaluation.
  - apply Forall_forall. by_evaluation.
  - split; [exact H1|]. unfold status_of. rewrite H2. reflexivity.
Defined.


(** ** What the sequences hold after a call *)

Section Contents.

Context {collab : Collaborators}.
Variable self : LLMEngine.

Lemma fork_children_content (parent chunk : Z) (ss : list SequenceOutputs)
    (w : World) (cs : ChildSeqs) :
  parent < seq_counter w ->
  let w' := fst (foldl (fork_child parent chunk) (w, cs) ss) in
  forall c, seq_counter w <= c < seq_counter w' ->
    exists s, s ∈ ss
              /\ store w' !! c
                 = Some (append_token_id (fork (deref w parent)) s chunk).
Proof.
  revert w cs. induction ss as [|s ss IH]; intros w cs Hp.
  - cbn. intros c Hc. lia.
  - change (foldl (fork_child parent chunk) (w, cs) (s :: ss))
      with (foldl (fork_child parent chunk)
              (fork_child parent chunk (w, cs) s) ss).
    unfold fork_child at 2. cbn [fst snd next_seq_id].
    match goal with
    | |- context [foldl _ (?w1, ?cs1) ss] =>
        remember w1 as w1' eqn:Ew1;
        pose proof (fork_children_store parent chunk ss w1' cs1) as Hst;
        specialize (IH w1' cs1)
    end.
    cbv zeta in IH, Hst |- *. destruct Hst as (Hn & Hf & _).
    assert (Hc1 : seq_counter w1' = seq_counter w + 1) by by subst w1'.
    assert (Hs1 : forall k, store w1' !! k
                            = if decide (seq_counter w = k)
                              then Some (append_token_id
                                           (fork (deref w parent)) s chunk)
                              else store w !! k).
    { intros k. subst w1'. unfold allocate. cbn. apply lookup_insert. }
    intros c Hc. destruct (decide (c = seq_counter w)) as [-> | Hne].
    + exists s. split; [apply list_elem_of_here|].
      rewrite Hf by lia. rewrite Hs1. by rewrite decide_True.
    + destruct (IH ltac:(lia) c ltac:(lia)) as (s' & Hs' & E).
      exists s'. split; [by apply list_elem_of_further|].
      rewrite E. do 3 f_equal. unfold deref. rewrite Hs1.
      by rewrite decide_False by lia.
Qed.

Lemma process_parent_content (samples : list SequenceOutputs) (chunk : Z)
    (g : SequenceGroup) (w : World) (cs : ChildSeqs) (p : Z) :
  p < seq_counter w ->
  is_Some (store w !! p) ->
  let w' := snd (fst (process_parent samples chunk (g, w, cs) p)) in
  (forall s, last (child_samples_of samples p) = Some s ->
             store w' !! p = Some (append_token_id (deref w p) s chunk))
  /\ (forall c, seq_counter w <= c < seq_counter w' ->
        exists s, s ∈ child_samples_of samples p
                  /\ store w' !! c
                     = Some (append_token_id (fork (deref w p)) s chunk)).
Proof.
  intros Hp [old Hold]. unfold process_parent.
  destruct (last (child_samples_of samples p)) as [lst|] eqn:El.
  - pose proof (fork_children_store p chunk
                  (py_slice_to (child_samples_of samples p) (-1)) w cs)
      as Hst.
    pose proof (fork_children_content p chunk
                  (py_slice_to (child_samples_of samples p) (-1)) w cs Hp)
      as Hct.
    destruct (foldl _ _ _) as [w1 cs1]. cbv zeta in Hst, Hct |- *.
    cbn [fst snd] in Hst, Hct |- *. destruct Hst as (Hn & Hf & _).
    split.
    + intros s [= <-]. rewrite mutate_lookup, decide_True by done.
      rewrite Hf by done. unfold deref. by rewrite Hold.
    + intros c Hc. unfold mutate, set_store in Hc. cbn [seq_counter] in Hc.
      destruct (Hct c Hc) as (s & Hs & E). exists s.
      split; [by eapply py_slice_to_elem_of|].
      rewrite mutate_lookup, decide_False by lia. done.
  - cbn [fst snd]. split; [done|].
    intros c Hc. unfold call_scheduler, mutate, set_store in Hc.
    cbn [seq_counter] in Hc. lia.
Qed.

Lemma process_parents_content (samples : list SequenceOutputs) (chunk : Z)
    (parents : list Z) (g : SequenceGroup) (w : World) (cs : ChildSeqs) :
  NoDup parents ->
  Forall (fun p => p < seq_counter w /\ is_Some (store w !! p)) parents ->
  let w' :=
    snd (fst (foldl (process_parent samples chunk) (g, w, cs) parents)) in
  (forall p s, p ∈ parents -> last (child_samples_of samples p) = Some s ->
               store w' !! p = Some (append_token_id (deref w p) s chunk))
  /\ (forall c, seq_counter w <= c < seq_counter w' ->
        exists p s, p ∈ parents /\ s ∈ child_samples_of samples p
                    /\ store w' !! c
                       = Some (append_token_id (fork (deref w p)) s chunk)).
Proof.
  revert g w cs. induction parents as [|q parents IH]; intros g w cs Hnd Hall.
  { cbn. split; [intros p s Hp; by apply elem_of_nil in Hp|].
    intros c Hc. lia. }
  change (foldl (process_parent samples chunk) (g, w, cs) (q :: parents))
    with (foldl (process_parent samples chunk)
            (process_parent samples chunk (g, w, cs) q) parents).
  apply NoDup_cons in Hnd as [Hq Hnd].
  apply Forall_cons in Hall as [[Hqlt Hqs] Hall].
  rewrite Forall_forall in Hall.
  pose proof (process_parent_store samples chunk g w cs q) as Hst1.
  pose proof (process_parent_content samples chunk g w cs q Hqlt Hqs) as Hct1.
  destruct (process_parent samples chunk (g, w, cs) q) as [[g1 w1] cs1].
  cbv zeta in Hst1, Hct1. cbn [fst snd] in Hst1, Hct1.
  destruct Hst1 as (Hn1 & Hf1 & Hd1 & _). destruct Hct1 as [Hpar1 Hnew1].
  pose proof (process_parents_store samples chunk parents g1 w1 cs1) as Hst.
  specialize (IH g1 w1 cs1 Hnd). cbv zeta in IH, Hst |- *.
  destruct Hst as (Hn & Hf & _).
  assert (Hsame : forall p, p ∈ parents -> store w1 !! p = store w !! p).
  { intros p Hp. apply Hf1; [by intros -> | by apply Hall]. }
  destruct IH as [IHpar IHnew].
  { apply Forall_forall. intros p Hp. destruct (Hall p Hp) as [Hlt Hs].
    split; [lia|]. by rewrite Hsame. }
  split.
  - intros p s Hp Hl. apply elem_of_cons in Hp as [-> | Hp].
    + rewrite Hf by (done || lia). by apply Hpar1.
    + rewrite (IHpar p s Hp Hl). unfold deref. by rewrite Hsame.
  - intros c Hc. destruct (decide (c < seq_counter w1)) as [Hlt | Hge].
    + destruct (Hnew1 c ltac:(lia)) as (s & Hs & E).
      exists q, s. split; [apply list_elem_of_here|]. split; [done|].
      rewrite Hf; [done| |done].
      intros Hin. destruct (Hall c Hin). lia.
    + destruct (IHnew c ltac:(lia)) as (p & s & Hp & Hs & E).
      exists p, s. split; [by apply list_elem_of_further|]. split; [done|].
      rewrite E. unfold deref. by rewrite Hsame.
Qed.

Lemma decode_loop_content (sp : SamplingParams) (cs : ChildSeqs) (w : World)
    (k : Z) :
  NoDup (map fst cs) -> k ∈ map fst cs ->
  store (foldl (decode_and_check self sp) w cs) !! k
  = second_phase self sp <$> store w !! k.
Proof.
  revert w. induction cs as [|e cs IH]; intros w Hnd Hk.
  { by apply elem_of_nil in Hk. }
  cbn [map] in Hnd, Hk. apply NoDup_cons in Hnd as [He Hnd].
  cbn [foldl].
  destruct (decide (k = fst e)) as [-> | Hne].
  - destruct (decode_loop_store self sp cs (decode_and_check self sp w e))
      as [Hf _].
    rewrite Hf by done. unfold decode_and_check.
    rewrite mutate_lookup, decide_True by done. done.
  - apply elem_of_cons in Hk as [? | Hk]; [done|].
    rewrite IH by done. unfold decode_and_check.
    rewrite mutate_lookup, decide_False by done. done.
Qed.

(** Every id drawn in the first phase is a child of the call. *)
Lemma process_parents_new_ids (samples : list SequenceOutputs) (chunk : Z)
    (parents : list Z) (g : SequenceGroup) (w : World) (cs : ChildSeqs)
    (c : Z) :
  let r := foldl (process_parent samples chunk) (g, w, cs) parents in
  seq_counter w <= c < seq_counter (snd (fst r)) -> c ∈ map fst (snd r).
Proof.
  revert g w cs. induction parents as [|q parents IH]; intros g w cs.
  { cbn. lia. }
  change (foldl (process_parent samples chunk) (g, w, cs) (q :: parents))
    with (foldl (process_parent samples chunk)
            (process_parent samples chunk (g, w, cs) q) parents).
  destruct (process_parent_spec samples chunk g w cs q)
    as (w1 & k & Hk & Hn1 & Hnil & Hsome).
  cbv zeta. intros Hc.
  destruct (decide (child_samples_of samples q = [])) as [Hq | Hq].
  - destruct (Hnil Hq) as (E & _ & ->). rewrite E in Hc |- *.
    apply (IH (group_remove q g) w1 cs). cbv zeta. lia.
  - destruct (Hsome Hq) as [E _]. rewrite E in Hc |- *.
    destruct (decide (c < seq_counter w1)) as [Hlt | Hge].
    + match goal with
      | |- context [foldl _ (?g1, ?w1', ?cs1) parents] =>
          destruct (process_parents_spec samples chunk parents g1 w1' cs1)
            as (w' & new & -> & _)
      end.
      cbn [snd]. rewrite !fmap_app. apply elem_of_app. left.
      apply elem_of_app. left. apply elem_of_app. right.
      apply list_elem_of_fmap. exists (c, q). split; [done|].
      apply list_elem_of_fmap. exists c. split; [done|].
      apply elem_of_seqZ. lia.
    + match goal with
      | |- context [foldl _ (?g1, ?w1', ?cs1) parents] =>
          apply (IH g1 w1' cs1)
      end.
      cbv zeta. lia.
Qed.

End Contents.

Section Continuation.

Context {collab : Collaborators}.
Variable self : LLMEngine.

(** The state after the first two phases of a call on a well-formed heap. *)
Lemma process_contents (g : SequenceGroup) (chunk : Z)
    (samples : list SequenceOutputs) (w0 : World) :
  ids_below_counter w0 ->
  group_well_formed w0 g ->
  (forall s, s ∈ samples -> parent_seq_id s ∈ get_seqs w0 g RUNNING) ->
  let w' := snd (fst (_process_sequence_group_samples self g chunk samples
                        w0)) in
  let sp := sampling_params g in
  (forall p s, p ∈ get_seqs w0 g RUNNING ->
               last (child_samples_of samples p) = Some s ->
               store w' !! p
               = Some (second_phase self sp
                         (append_token_id (deref w0 p) s chunk)))
  /\ (forall c, seq_counter w0 <= c < seq_counter w' ->
        exists p s, p ∈ get_seqs w0 g RUNNING
                    /\ s ∈ child_samples_of samples p
                    /\ store w' !! c
                       = Some (second_phase self sp
                                 (append_token_id (fork (deref w0 p)) s
                                    chunk))).
Proof.
  intros Hbelow [Hnd Hstored] Hall. rewrite Forall_forall in Hstored.
  destruct (apply_samples_ok g chunk samples w0 Hall) as (g1 & w1 & cs & Ea).
  destruct (process_group_shape self g chunk samples w0 g1 w1 cs Ea)
    as (D & E & l & calls & err & _ & ->).
  cbv zeta. cbn [fst snd].
  change (store (with_calls calls ?w)) with (store w).
  change (seq_counter (with_calls calls ?w)) with (seq_counter w).
  destruct (decode_and_check_loop self (sampling_params g) cs w1)
    as [_ ->].
  pose proof (apply_samples_fold g chunk samples w0 g1 w1 cs Ea) as Hfold.
  assert (Hpar : forall x, x ∈ get_seqs w0 g RUNNING ->
                   x < seq_counter w0 /\ is_Some (store w0 !! x)).
  { intros x Hx. unfold get_seqs in Hx.
    apply list_elem_of_filter in Hx as [_ Hx].
    split; [apply Hbelow|]; by apply Hstored. }
  assert (Hndp : NoDup (get_seqs w0 g RUNNING))
    by (unfold get_seqs; by apply NoDup_filter).
  destruct (apply_samples_spec g chunk samples w0 g1 w1 cs Ea)
    as (_ & _ & _ & _ & Hndcs).
  assert (Hndfst : NoDup (map fst cs)).
  { apply Hndcs; [done|]. apply Forall_forall. intros x Hx.
    by apply Hpar. }
  pose proof (process_parents_content samples chunk (get_seqs w0 g RUNNING)
                g w0 [] Hndp) as Hct.
  cbv zeta in Hct. rewrite Hfold in Hct. cbn [fst snd] in Hct.
  destruct Hct as [Hct1 Hct2]; [by apply Forall_forall|].
  split.
  - intros p s Hp Hl.
    rewrite (decode_loop_content self (sampling_params g) cs w1 p Hndfst).
    + by rewrite (Hct1 p s Hp Hl).
    + assert (Hne : child_samples_of samples p <> []).
      { intros Hnil. by rewrite Hnil in Hl. }
      pose proof (process_parents_self_pair samples chunk _ g w0 [] p
                    Hp Hne) as Hpair.
      rewrite Hfold in Hpair. cbn [snd] in Hpair.
      apply list_elem_of_fmap. by exists (p, p).
  - intros c Hc. destruct (Hct2 c Hc) as (p & s & Hp & Hs & Ec).
    exists p, s. split; [done|]. split; [done|].
    rewrite (decode_loop_content self (sampling_params g) cs w1 c Hndfst).
    + by rewrite Ec.
    + pose proof (process_parents_new_ids samples chunk
                    (get_seqs w0 g RUNNING) g w0 [] c) as Hin.
      cbv zeta in Hin. rewrite Hfold in Hin. by apply Hin.
Qed.

(** X15: a running member that got samples is continued with the last of
    them: after the call (returned or raised in the decision to stop a beam
    search) its stored object is the object from before the call with the
    last sample naming it appended by [append_token_id], then, once its
    prompt is processed, decoded by [_decode_sequence] and checked by
    [_check_stop]. *)
Theorem parent_continues_with_last_sample (g : SequenceGroup) (chunk : Z)
    (samples : list SequenceOutputs) (w0 : World) (p : Z)
    (s : SequenceOutputs) :
  ids_below_counter w0 ->
  group_well_formed w0 g ->
  (forall s, s ∈ samples -> parent_seq_id s ∈ get_seqs w0 g RUNNING) ->
  p ∈ get_seqs w0 g RUNNING ->
  last (child_samples_of samples p) = Some s ->
  store (snd (fst (_process_sequence_group_samples self g chunk samples w0)))
    !! p
  = Some (second_phase self (sampling_params g)
            (append_token_id (deref w0 p) s chunk)).
Proof.
  intros Hbelow Hwf Hall Hp Hl.
  destruct (process_contents g chunk samples w0 Hbelow Hwf Hall) as [H _].
  by apply H.
Qed.

(** X16: every sequence a call creates is a fork of a running member as it
    was before the call, not as the call leaves it: the new object is the
    parent's object from before the call, copied by [fork], with one of the
    samples naming that parent appended, then decoded and checked like the
    parents. *)
Theorem new_sequence_is_fork_of_parent_before_call (g : SequenceGroup)
    (chunk : Z) (samples : list SequenceOutputs) (w0 : World) (c : Z) :
  ids_below_counter w0 ->
  group_well_formed w0 g ->
  (forall s, s ∈ samples -> parent_seq_id s ∈ get_seqs w0 g RUNNING) ->
  let w' := snd (fst (_process_sequence_group_samples self g chunk samples
                        w0)) in
  store w0 !! c = None ->
  is_Some (store w' !! c) ->
  exists p s, p ∈ get_seqs w0 g RUNNING
              /\ s ∈ samples /\ parent_seq_id s = p
              /\ store w' !! c
                 = Some (second_phase self (sampling_params g)
                           (append_token_id (fork (deref w0 p)) s chunk)).
Proof.
  intros Hbelow Hwf Hall w' Hnone Hsome.
  destruct (process_contents g chunk samples w0 Hbelow Hwf Hall) as [_ H].
  destruct (process_store self g chunk samples w0) as (_ & _ & Hd).
  fold w' in H, Hd. apply Hd in Hsome as [Hsome | Hc].
  { rewrite Hnone in Hsome. by destruct Hsome. }
  destruct (H c Hc) as (p & s & Hp & Hs & E).
  unfold child_samples_of in Hs. apply list_elem_of_filter in Hs as [Hps Hs].
  by exists p, s.
Qed.

End Continuation.

Lemma parent_continues_with_last_sample_witness :
  store (snd (fst (_process_sequence_group_samples
                     (collab := Examples.spec_collaborators) Examples.engine
                     Examples.beam_group 0
                     [Examples.sample 1 7; Examples.sample 1 8]
                     Examples.two_beams))) !! 1
  = Some (second_phase (collab := Examples.spec_collaborators)
            Examples.engine (sampling_params Examples.beam_group)
            (Examples.spec_append_token_id (deref Examples.two_beams 1)
               (Examples.sample 1 8) 0)).
Proof.
  apply (parent_continues_with_last_sample
           (collab := Examples.spec_collaborators)).
  - ids_below_by_cases.
  - split; by_evaluation.
  - apply Forall_forall. by_evaluation.
  - by_evaluation.
  - reflexivity.
Defined.

Lemma new_sequence_is_fork_of_parent_before_call_witness :
  exists p s,
    p ∈ get_seqs Examples.two_beams Examples.beam_group RUNNING
    /\ s ∈ [Examples.sample 1 7; Examples.sample 1 8]
    /\ parent_seq_id s = p
    /\ store (snd (fst (_process_sequence_group_samples
                          (collab := Examples.spec_collaborators)
                          Examples.engine Examples.beam_group 0
                          [Examples.sample 1 7; Examples.sample 1 8]
                          Examples.two_beams))) !! 2
       = Some (second_phase (collab := Examples.spec_collaborators)
                 Examples.engine (sampling_params Examples.beam_group)
                 (Examples.spec_append_token_id
                    (fork (deref Examples.two_beams p)) s 0)).
Proof.
  apply (new_sequence_is_fork_of_parent_before_call
           (collab := Examples.spec_collaborators) Examples.engine
           Examples.beam_group 0 [Examples.sample 1 7; Examples.sample 1 8]
           Examples.two_beams 2).
  - ids_below_by_cases.
  - split; by_evaluation.
  - apply Forall_forall. by_evaluation.
  - reflexivity.
  - vm_compute. by eexists.
Defined.

(** ** How many sequences a call creates *)

Lemma py_slice_to_last_length {A : Type} (l : list A) :
  List.length (py_slice_to l (-1)) = (List.length l - 1)%nat.
Proof.
  unfold py_slice_to, py_bound, py_len. cbn [Z.ltb Z.compare].
  rewrite length_take. lia.
Qed.

Lemma count_in_NoDup (x : Z) (l : list Z) :
  NoDup l -> x ∈ l ->
  sum_list (map (fun p => if decide (x = p) then 1%nat else 0%nat) l) = 1%nat.
Proof.
  induction l as [|y l IH]; intros Hnd Hx; [by apply elem_of_nil in Hx|].
  apply NoDup_cons in Hnd as [Hy Hnd]. cbn [map sum_list].
  assert (Hzero : forall k, x ∉ k ->
            sum_list (map (fun p => if decide (x = p) then 1%nat else 0%nat)
                        k) = 0%nat).
  { induction k as [|z k IHk]; intros Hk; [done|].
    apply not_elem_of_cons in Hk as [Hz Hk]. cbn [map sum_list].
    rewrite decide_False by done. by rewrite IHk. }
  destruct (decide (x = y)) as [-> | Hne].
  - by rewrite Hzero.
  - apply elem_of_cons in Hx as [? | Hx]; [done|]. by rewrite IH.
Qed.

Lemma buckets_hold_all_samples (samples : list SequenceOutputs)
    (parents : list Z) :
  NoDup parents ->
  (forall s, s ∈ samples -> parent_seq_id s ∈ parents) ->
  sum_list (map (fun p => List.length (child_samples_of samples p)) parents)
  = List.length samples.
Proof.
  intros Hnd. induction samples as [|s samples IH]; intros Hall.
  - unfold child_samples_of. clear.
    induction parents as [|p parents IHp]; [done|].
    cbn [map sum_list]. by rewrite IHp.
  - cbn [List.length].
    rewrite <- IH by (intros s' Hs'; apply Hall; by right).
    assert (Hc : sum_list (map (fun p => if decide (parent_seq_id s = p)
                                         then 1%nat else 0%nat) parents)
                 = 1%nat)
      by (apply count_in_NoDup; [done | apply Hall; by left]).
    assert (Hsplit :
              sum_list (map (fun p => List.length
                                        (child_samples_of (s :: samples) p))
                          parents)
              = (sum_list (map (fun p => if decide (parent_seq_id s = p)
                                         then 1%nat else 0%nat) parents)
                 + sum_list (map (fun p => List.length
                                             (child_samples_of samples p))
                               parents))%nat).
    { clear. induction parents as [|p parents IHp]; [done|].
      cbn [map sum_list]. rewrite IHp. unfold child_samples_of.
      rewrite filter_cons. unfold id.
      repeat case_decide; cbn [List.length]; (lia || done). }
    lia.
Qed.

Section Counting.

Context {collab : Collaborators}.
Variable self : LLMEngine.

Lemma process_parent_counter (samples : list SequenceOutputs) (chunk : Z)
    (g : SequenceGroup) (w : World) (cs : ChildSeqs) (p : Z) :
  seq_counter (snd (fst (process_parent samples chunk (g, w, cs) p)))
  = seq_counter w
    + Z.of_nat (List.length (child_samples_of samples p) - 1).
Proof.
  unfold process_parent.
  destruct (last (child_samples_of samples p)) as [lst|] eqn:El.
  - pose proof (fork_children_store p chunk
                  (py_slice_to (child_samples_of samples p) (-1)) w cs)
      as Hst.
    destruct (foldl _ _ _) as [w1 cs1]. cbv zeta in Hst.
    cbn [fst snd] in Hst |- *. destruct Hst as (Hn & _).
    unfold mutate, set_store. cbn [seq_counter].
    by rewrite Hn, py_slice_to_last_length.
  - apply last_None in El. rewrite El. cbn. lia.
Qed.

Lemma process_parents_counter (samples : list SequenceOutputs) (chunk : Z)
    (parents : list Z) (g : SequenceGroup) (w : World) (cs : ChildSeqs) :
  seq_counter
    (snd (fst (foldl (process_parent samples chunk) (g, w, cs) parents)))
  + Z.of_nat (List.length (sampled samples parents))
  = seq_counter w
    + Z.of_nat (sum_list (map (fun p => List.length
                                          (child_samples_of samples p))
                            parents)).
Proof.
  revert g w cs. induction parents as [|q parents IH]; intros g w cs.
  { cbn. lia. }
  change (foldl (process_parent samples chunk) (g, w, cs) (q :: parents))
    with (foldl (process_parent samples chunk)
            (process_parent samples chunk (g, w, cs) q) parents).
  pose proof (process_parent_counter samples chunk g w cs q) as Hq.
  destruct (process_parent samples chunk (g, w, cs) q) as [[g1 w1] cs1].
  cbn [fst snd] in Hq. specialize (IH g1 w1 cs1).
  cbn [map sum_list]. unfold id, sampled in *. rewrite filter_cons.
  destruct (decide (child_samples_of samples q <> [])) as [Hne | He].
  - cbn [List.length].
    assert (0 < List.length (child_samples_of samples q))%nat
      by (destruct (child_samples_of samples q); [done | cbn; lia]).
    lia.
  - assert (child_samples_of samples q = []) as Hnil.
    { destruct (child_samples_of samples q); [done|]. by destruct He. }
    rewrite Hnil in Hq |- *. cbn [List.length] in *. lia.
Qed.

(** X17: a call whose samples all name running members draws one new
    sequence id for every sample beyond one per sampled parent: the id
    counter grows by the number of samples minus the number of running
    members that got a sample. *)
Theorem process_creates_one_sequence_per_extra_sample (g : SequenceGroup)
    (chunk : Z) (samples : list SequenceOutputs) (w0 : World) :
  NoDup (seqs g) ->
  (forall s, s ∈ samples -> parent_seq_id s ∈ get_seqs w0 g RUNNING) ->
  seq_counter
    (snd (fst (_process_sequence_group_samples self g chunk samples w0)))
  = seq_counter w0 + Z.of_nat (List.length samples)
    - Z.of_nat (List.length (sampled samples (get_seqs w0 g RUNNING))).
Proof.
  intros Hnd Hall.
  destruct (apply_samples_ok g chunk samples w0 Hall) as (g1 & w1 & cs & Ea).
  destruct (process_group_shape self g chunk samples w0 g1 w1 cs Ea)
    as (D & E & l & calls & err & _ & ->).
  cbn [fst snd].
  change (seq_counter (with_calls calls ?w)) with (seq_counter w).
  destruct (decode_and_check_loop self (sampling_params g) cs w1)
    as [_ ->].
  pose proof (apply_samples_fold g chunk samples w0 g1 w1 cs Ea) as Hfold.
  pose proof (process_parents_counter samples chunk (get_seqs w0 g RUNNING)
                g w0 []) as Hc.
  rewrite Hfold in Hc. cbn [fst snd] in Hc.
  rewrite buckets_hold_all_samples in Hc; [lia | | done].
  unfold get_seqs. by apply NoDup_filter.
Qed.

End Counting.

Lemma process_creates_one_sequence_per_extra_sample_witness :
  seq_counter
    (snd (fst (_process_sequence_group_samples
                 (collab := Examples.spec_collaborators) Examples.engine
                 Examples.beam_group 0
                 [Examples.sample 1 7; Examples.sample 1 8]
                 Examples.two_beams)))
  = 2 + 2 - 1.
Proof.
  apply (process_creates_one_sequence_per_extra_sample
           (collab := Examples.spec_collaborators) Examples.engine
           Examples.beam_group 0 [Examples.sample 1 7; Examples.sample 1 8]
           Examples.two_beams).
  - by_evaluation.
  - apply Forall_forall. by_evaluation.
Defined.

(** ** The loop over the scheduled groups and the step *)

Lemma forks_of_not_free_finished (w : World) (l : ChildSeqs) :
  Forall (fun c => c <> free_finished_seq_groups) (forks_of w l).
Proof.
  apply Forall_forall. intros c Hc. unfold forks_of in Hc.
  apply list_elem_of_fmap in Hc as (e & -> & _). done.
Qed.

Lemma frees_of_finished_not_free_finished (w : World) (l : ChildSeqs) :
  Forall (fun c => c <> free_finished_seq_groups) (frees_of_finished w l).
Proof.
  apply Forall_forall. intros c Hc. unfold frees_of_finished in Hc.
  apply list_elem_of_fmap in Hc as (e & -> & _). done.
Qed.

Lemma free_seq_not_free_finished (l : list Z) :
  Forall (fun c => c <> free_finished_seq_groups) (map free_seq l).
Proof.
  apply Forall_forall. intros c Hc.
  apply list_elem_of_fmap in Hc as (e & -> & _). done.
Qed.

Lemma group_well_formed_mono (w w' : World) (g : SequenceGroup) :
  (forall k, is_Some (store w !! k) -> is_Some (store w' !! k)) ->
  group_well_formed w g -> group_well_formed w' g.
Proof.
  intros Hmono [Hnd Hs]. split; [done|].
  eapply Forall_impl; [exact Hs|]. intros k Hk. by apply Hmono.
Qed.

Section Loop.

Context {collab : Collaborators}.
Variable self : LLMEngine.

(** A call of [_process_sequence_group_samples] only adds [fork_seq] and
    [free_seq] calls to the calls made so far. *)
Lemma process_calls (g : SequenceGroup) (chunk : Z)
    (samples : list SequenceOutputs) (w0 : World) :
  exists calls,
    sched_calls
      (snd (fst (_process_sequence_group_samples self g chunk samples w0)))
    = sched_calls w0 ++ calls
    /\ Forall (fun c => c <> free_finished_seq_groups) calls.
Proof.
  destruct (apply_samples g chunk samples w0) as [[[g1 w1] cs]|e] eqn:Ea.
  2:{ unfold _process_sequence_group_samples. rewrite Ea. exists [].
      by rewrite app_nil_r. }
  rewrite (process_outcome self g chunk samples w0 g1 w1 cs Ea). cbv zeta.
  destruct (apply_samples_spec g chunk samples w0 g1 w1 cs Ea)
    as (_ & Hcalls & _).
  destruct (decode_and_check_loop self (sampling_params g) cs w1)
    as [Hc2 _].
  destruct (negb (use_beam_search (sampling_params g))).
  - eexists. cbn [fst snd]. unfold with_calls at 1. cbn [sched_calls].
    rewrite Hc2, Hcalls, <- app_assoc. split; [done|].
    repeat apply Forall_app_2;
      auto using forks_of_not_free_finished,
        frees_of_finished_not_free_finished, free_seq_not_free_finished.
  - destruct (stop_beam_search self _ _ _ _) as [stop|e].
    + eexists. cbn [fst snd]. unfold with_calls at 1. cbn [sched_calls].
      rewrite Hc2, Hcalls, <- app_assoc. split; [done|].
      repeat apply Forall_app_2;
        auto using forks_of_not_free_finished,
          frees_of_finished_not_free_finished, free_seq_not_free_finished.
    + eexists. cbn [fst snd]. rewrite Hc2, Hcalls. split; [done|].
      apply free_seq_not_free_finished.
Qed.

Lemma process_groups_store (groups : list SequenceGroup) (lens : list Z)
    (output : SamplerOutput) (w : World) :
  let r := process_groups self groups lens output w in
  let w' := snd (fst r) in
  seq_counter w <= seq_counter w'
  /\ (forall k, k < seq_counter w ->
                Forall (fun g => k ∉ get_seqs w g RUNNING) groups ->
                store w' !! k = store w !! k)
  /\ (forall k, is_Some (store w' !! k)
                <-> is_Some (store w !! k)
                    \/ seq_counter w <= k < seq_counter w')
  /\ map request_id (fst (fst r)) = map request_id groups
  /\ exists calls,
       sched_calls w' = sched_calls w ++ calls
       /\ Forall (fun c => c <> free_finished_seq_groups) calls.
Proof.
  cbv zeta. revert lens output w.
  assert (Hbase : forall (gs : list SequenceGroup) (w : World),
    seq_counter w <= seq_counter w
    /\ (forall k, k < seq_counter w ->
                  Forall (fun g => k ∉ get_seqs w g RUNNING) gs ->
                  store w !! k = store w !! k)
    /\ (forall k, is_Some (store w !! k)
                  <-> is_Some (store w !! k)
                      \/ seq_counter w <= k < seq_counter w)
    /\ map request_id gs = map request_id gs
    /\ exists calls,
         sched_calls w = sched_calls w ++ calls
         /\ Forall (fun c => c <> free_finished_seq_groups) calls).
  { intros gs w. split; [lia|]. split; [done|]. split.
    - intros k. split; [by left | intros [? | ?]; [done | lia]].
    - split; [done|]. exists []. by rewrite app_nil_r. }
  induction groups as [|g groups IH]; intros lens output w;
    [apply Hbase|].
  destruct lens as [|len lens]; [apply Hbase|].
  destruct output as [|samples output]; [apply Hbase|].
  cbn [process_groups].
  pose proof (process_store self g len samples w) as Hst.
  pose proof (process_group_header self g len samples w) as Hh.
  pose proof (process_calls g len samples w) as Hca.
  destruct (_process_sequence_group_samples self g len samples w)
    as [[g1 w1] err].
  cbv zeta in Hst, Hh. cbn [fst snd] in Hst, Hh, Hca.
  destruct Hst as (Hn1 & Hf1 & Hd1). destruct Hh as [Hr1 _].
  destruct Hca as (calls1 & Hc1 & Hfa1).
  destruct err as [e|].
  - cbn [fst snd]. split; [done|]. split.
    + intros k Hk Hall. apply Forall_cons in Hall as [Hg _]. by apply Hf1.
    + split; [done|]. split; [cbn [map]; by rewrite Hr1|].
      by exists calls1.
  - specialize (IH lens output w1).
    destruct (process_groups self groups lens output w1) as [[gs w2] err].
    cbn [fst snd] in IH |- *.
    destruct IH as (Hn & Hf & Hd & Hr & calls2 & Hc2 & Hfa2).
    split; [lia|]. split; [|split; [|split]].
    + intros k Hk Hall. apply Forall_cons in Hall as [Hg Hall].
      rewrite Hf; [by apply Hf1 | lia |].
      eapply Forall_impl; [exact Hall|]. intros g' Hg' Hin.
      apply Hg'. unfold get_seqs in *.
      apply list_elem_of_filter in Hin as [Hrun Hin].
      apply list_elem_of_filter. split; [|done].
      unfold status_of in *. by rewrite <- Hf1.
    + intros k. rewrite Hd, Hd1. split.
      * intros [[? | ?] | ?]; [by left | right; lia | right; lia].
      * intros [? | ?]; [by left; left|].
        destruct (decide (k < seq_counter w1));
          [left; right; lia | right; lia].
    + cbn [map]. by rewrite Hr1, Hr.
    + exists (calls1 ++ calls2). rewrite Hc2, Hc1, <- app_assoc.
      split; [done|]. by apply Forall_app_2.
Qed.

Lemma process_groups_members (groups : list SequenceGroup) (lens : list Z)
    (output : SamplerOutput) (w : World) :
  ids_below_counter w ->
  Forall (group_well_formed w) groups ->
  let r := process_groups self groups lens output w in
  Forall (group_well_formed (snd (fst r))) (fst (fst r)).
Proof.
  cbv zeta. revert lens output w.
  induction groups as [|g groups IH]; intros lens output w Hbelow Hwf;
    [done|].
  destruct lens as [|len lens]; [done|].
  destruct output as [|samples output]; [done|].
  cbn [process_groups]. apply Forall_cons in Hwf as [Hg Hwf].
  pose proof (process_store self g len samples w) as Hst.
  pose proof (process_members self g len samples w Hbelow Hg) as Hm.
  destruct (_process_sequence_group_samples self g len samples w)
    as [[g1 w1] err].
  cbv zeta in Hst, Hm. cbn [fst snd] in Hst, Hm.
  destruct Hst as (Hn1 & _ & Hd1).
  assert (Hmono1 : forall k, is_Some (store w !! k)
                             -> is_Some (store w1 !! k)).
  { intros k Hk. apply Hd1. by left. }
  assert (Hwf1 : Forall (group_well_formed w1) groups).
  { eapply Forall_impl; [exact Hwf|]. intros g'.
    by apply group_well_formed_mono. }
  destruct err as [e|].
  - cbn [fst snd]. by constructor.
  - assert (Hbelow1 : ids_below_counter w1).
    { intros k Hk. apply Hd1 in Hk as [Hk | Hk]; [|lia].
      specialize (Hbelow _ Hk). lia. }
    specialize (IH lens output w1 Hbelow1 Hwf1).
    pose proof (process_groups_store groups lens output w1) as Hst2.
    destruct (process_groups self groups lens output w1) as [[gs w2] err].
    cbv zeta in Hst2. cbn [fst snd] in IH, Hst2 |- *.
    destruct Hst2 as (_ & _ & Hd2 & _).
    constructor; [|done].
    eapply group_well_formed_mono; [|exact Hm].
    intros k Hk. apply Hd2. by left.
Qed.

(** X18: the loop of [_process_model_outputs] over the scheduled groups
    keeps the heap well formed, whether it runs to its end or is ended by
    an exception: stored ids stay below the counter, every scheduled group
    still consists of distinct stored sequences, and the groups keep their
    order and their request ids. *)
Theorem process_groups_keeps_groups_well_formed (groups : list SequenceGroup)
    (lens : list Z) (output : SamplerOutput) (w : World) :
  ids_below_counter w ->
  Forall (group_well_formed w) groups ->
  let '(groups', w', _) := process_groups self groups lens output w in
  ids_below_counter w'
  /\ Forall (group_well_formed w') groups'
  /\ map request_id groups' = map request_id groups.
Proof.
  intros Hbelow Hwf.
  pose proof (process_groups_members groups lens output w Hbelow Hwf) as Hm.
  pose proof (process_groups_store groups lens output w) as Hst.
  destruct (process_groups self groups lens output w) as [[gs w'] err].
  cbv zeta in Hm, Hst. cbn [fst snd] in Hm, Hst.
  destruct Hst as (Hn & _ & Hd & Hr & _).
  split; [|by split].
  intros k Hk. apply Hd in Hk as [Hk | Hk]; [|lia].
  specialize (Hbelow _ Hk). lia.
Qed.

(** X19: [_process_model_outputs] calls [free_finished_seq_groups] once,
    after all the [fork_seq] and [free_seq] calls of the groups, when no
    group raises, and not at all when one does.  What it returns are the
    outputs of the scheduled groups in the order of the plan, then those of
    the ignored groups, each under the request id of its group. *)
Theorem process_model_outputs_frees_finished_groups_last
    (output : SamplerOutput) (scheduler_outputs : SchedulerOutputs)
    (w : World) :
  let '(w', r) := _process_model_outputs self output scheduler_outputs w in
  exists calls,
    Forall (fun c => c <> free_finished_seq_groups) calls
    /\ match r with
       | Ok request_outputs =>
           sched_calls w'
           = sched_calls w ++ calls ++ [free_finished_seq_groups]
           /\ map ro_request_id request_outputs
              = map request_id
                  (scheduled_seq_groups scheduler_outputs
                   ++ ignored_seq_groups scheduler_outputs)
       | Raise _ => sched_calls w' = sched_calls w ++ calls
       end.
Proof.
  unfold _process_model_outputs.
  pose proof (process_groups_store (scheduled_seq_groups scheduler_outputs)
                (prompt_chunk_lens scheduler_outputs) output w) as Hst.
  destruct (process_groups self _ _ output w) as [[gs w1] err].
  cbv zeta in Hst. cbn [fst snd] in Hst.
  destruct Hst as (_ & _ & _ & Hr & calls & Hc & Hfa).
  destruct err as [e|]; exists calls; (split; [done|]); [done|].
  split.
  - unfold call_scheduler. cbn [sched_calls]. by rewrite Hc, <- app_assoc.
  - rewrite map_map. cbn [ro_request_id from_seq_group].
    change (fun x : SequenceGroup => request_id x) with request_id.
    rewrite !map_app. by rewrite Hr.
Qed.

Lemma process_triple_raised
    (triples : list (SequenceGroup * Z * list SequenceOutputs))
    (seen : list SequenceGroup) (w : World) (e : PyError) :
  foldl (process_triple self) (seen, w, Some e) triples
  = (seen ++ map (fun t => fst (fst t)) triples, w, Some e).
Proof.
  revert seen. induction triples as [|[[g len] samples] ts IH]; intros seen.
  { cbn. by rewrite app_nil_r. }
  cbn [foldl process_triple map fst]. rewrite IH.
  by rewrite <- app_assoc.
Qed.

Lemma zipped_groups (groups : list SequenceGroup) (lens : list Z)
    (output : SamplerOutput) :
  map (fun t => fst (fst t)) (zip (zip groups lens) output)
  ++ drop (List.length (zip (zip groups lens) output)) groups
  = groups.
Proof.
  revert lens output. induction groups as [|g groups IH];
    intros lens output; [done|].
  destruct lens as [|len lens]; [done|].
  destruct output as [|samples output]; [done|].
  cbn. by rewrite IH.
Qed.

Lemma process_groups_zipped (groups : list SequenceGroup) (lens : list Z)
    (output : SamplerOutput) (w : World) (seen : list SequenceGroup) :
  (let '(seen', w', err) :=
     foldl (process_triple self) (seen, w, None)
       (zip (zip groups lens) output) in
   (seen' ++ drop (List.length (zip (zip groups lens) output)) groups,
    w', err))
  = let '(groups', w', err) := process_groups self groups lens output w in
    (seen ++ groups', w', err).
Proof.
  revert lens output w seen. induction groups as [|g groups IH];
    intros lens output w seen; [done|].
  destruct lens as [|len lens]; [done|].
  destruct output as [|samples output]; [done|].
  cbn [zip_with foldl process_triple process_groups List.length drop].
  destruct (_process_sequence_group_samples self g len samples w)
    as [[g1 w1] [e|]].
  - rewrite process_triple_raised, <- !app_assoc.
    by rewrite zipped_groups.
  - rewrite (IH lens output w1 (seen ++ [g1])).
    destruct (process_groups self groups lens output w1) as [[gs w2] err].
    by rewrite <- app_assoc.
Qed.

(** X20: the loop of [_process_model_outputs] is the loop over the triples
    that [zip] builds from the groups, the chunk lengths and the rows of the
    sampler output: it runs [_process_sequence_group_samples] on the first
    group with the first length and the first row, on the state that leaves
    on the second, and so on, until a call raises or the shortest of the
    three lists ends; lists of different lengths raise nothing, and the
    groups beyond the shortest list come back as they were. *)
Theorem process_groups_stops_at_shortest_list (groups : list SequenceGroup)
    (lens : list Z) (output : SamplerOutput) (w : World) :
  let triples := zip (zip groups lens) output in
  List.length triples
  = (List.length groups `min` (List.length lens `min` List.length output))%nat
  /\ process_groups self groups lens output w
     = let '(seen, w', err) :=
         foldl (process_triple self) ([], w, None) triples in
       (seen ++ drop (List.length triples) groups, w', err).
Proof.
  cbv zeta. split.
  - rewrite !length_zip_with. lia.
  - rewrite (process_groups_zipped groups lens output w []).
    by destruct (process_groups self groups lens output w) as [[gs w'] err].
Qed.

End Loop.

(** X21: what a step does after [self.scheduler.schedule()] has returned
    (the model run, the equality gate and the processing of the outputs)
    changes no stored sequence that is not a running member of one of the
    scheduled groups.  [plan] is what [schedule()] returned, [w] the state
    it left behind, and "running" is meant in that state; what [schedule()]
    itself changes is outside the statement.  So a sequence that the
    scheduler left finished, ignored, waiting or swapped, or in no
    scheduled group, is after the step what the scheduler made of it,
    whether the step returns or raises. *)
Theorem step_leaves_other_sequences_alone {collab : Collaborators}
    (self : LLMEngine) (workers : list Worker)
    (plan : list SequenceGroupMetadata * SchedulerOutputs)
    (w : World) (log : WorkerLog) (k : Z) :
  k < seq_counter w ->
  Forall (fun g => k ∉ get_seqs w g RUNNING)
    (scheduled_seq_groups (snd plan)) ->
  store (fst (fst (step self workers plan w log))) !! k = store w !! k.
Proof.
  intros Hk Hall. destruct plan as [md so]. cbn [snd] in Hall.
  unfold step, _schedule.
  destruct (is_empty so); [done|].
  destruct (_run_workers _ _ _ _ _ _) as [log' r].
  destruct (equality_gate _) as [output|e]; [|done].
  unfold _process_model_outputs.
  pose proof (process_groups_store self (scheduled_seq_groups so)
                (prompt_chunk_lens so) output w) as Hst.
  destruct (process_groups self _ _ output w) as [[gs w1] err].
  cbv zeta in Hst. cbn [fst snd] in Hst. destruct Hst as (_ & Hf & _).
  destruct err as [e|]; cbn [fst snd]; by apply Hf.
Qed.

(** X22: a step keeps the ids of the stored sequences below the id counter,
    never moves the counter back and never drops a stored sequence, whether
    it returns or raises. *)
Theorem step_keeps_ids_below_counter {collab : Collaborators}
    (self : LLMEngine) (workers : list Worker)
    (plan : list SequenceGroupMetadata * SchedulerOutputs)
    (w : World) (log : WorkerLog) :
  ids_below_counter w ->
  let w' := fst (fst (step self workers plan w log)) in
  ids_below_counter w'
  /\ seq_counter w <= seq_counter w'
  /\ (forall k, is_Some (store w !! k) -> is_Some (store w' !! k)).
Proof.
  intros Hbelow. destruct plan as [md so]. cbv zeta.
  assert (Hsame : ids_below_counter w /\ seq_counter w <= seq_counter w
                  /\ (forall k, is_Some (store w !! k)
                                -> is_Some (store w !! k)))
    by (split; [done | split; [lia | done]]).
  unfold step, _schedule.
  destruct (is_empty so); [done|].
  destruct (_run_workers _ _ _ _ _ _) as [log' r].
  destruct (equality_gate _) as [output|e]; [|done].
  unfold _process_model_outputs.
  pose proof (process_groups_store self (scheduled_seq_groups so)
                (prompt_chunk_lens so) output w) as Hst.
  destruct (process_groups self _ _ output w) as [[gs w1] err].
  cbv zeta in Hst. cbn [fst snd] in Hst. destruct Hst as (Hn & _ & Hd & _).
  assert (Hgoal : ids_below_counter w1 /\ seq_counter w <= seq_counter w1
                  /\ (forall k, is_Some (store w !! k)
                                -> is_Some (store w1 !! k))).
  { split; [|split; [done|]].
    - intros k Hk. apply Hd in Hk as [Hk | Hk]; [|lia].
      specialize (Hbelow _ Hk). lia.
    - intros k Hk. apply Hd. by left. }
  destruct err as [e|]; cbn [fst snd]; exact Hgoal.
Qed.

Lemma process_groups_keeps_groups_well_formed_witness :
  let r :=
    process_groups (collab := Examples.spec_collaborators) Examples.engine
      [Examples.running_group; Examples.ignored_group] [0; 0]
      [[Examples.sample 0 40]; []] Examples.running_and_ignored in
  ids_below_counter (snd (fst r))
  /\ map request_id (fst (fst r)) = ["r1"; "r2"]%string.
Proof.
  cbv zeta.
  pose proof (process_groups_keeps_groups_well_formed
                (collab := Examples.spec_collaborators) Examples.engine
                [Examples.running_group; Examples.ignored_group] [0; 0]
                [[Examples.sample 0 40]; []] Examples.running_and_ignored)
    as H.
  destruct (process_groups _ _ _ _ _) as [[gs w'] err]. cbn [fst snd].
  destruct H as (H1 & _ & H2).
  - ids_below_by_cases.
  - repeat constructor; by_evaluation.
  - split; [exact H1 | exact H2].
Defined.

Lemma step_leaves_other_sequences_alone_witness :
  store (fst (fst (step (collab := Examples.spec_collaborators)
                     Examples.engine
                     [Examples.const_worker [[Examples.sample 0 40]] (8, 4) 0]
                     Examples.mixed_plan Examples.running_and_ignored [])))
    !! 5
  = store Examples.running_and_ignored !! 5.
Proof.
  apply step_leaves_other_sequences_alone.
  - cbn. lia.
  - repeat constructor. by_evaluation.
Defined.

Lemma step_keeps_ids_below_counter_witness :
  ids_below_counter
    (fst (fst (step (collab := Examples.spec_collaborators) Examples.engine
                 [Examples.const_worker [[Examples.sample 0 40]] (8, 4) 0]
                 Examples.mixed_plan Examples.running_and_ignored []))).
Proof.
  apply step_keeps_ids_below_counter. ids_below_by_cases.
Defined.

(** ** Detokenizing and checking one sequence *)

Lemma check_stop_fields (self : LLMEngine) (seq : Sequence)
    (sp : SamplingParams) :
  let seq' := _check_stop self seq sp in
  prompt_token_ids seq' = prompt_token_ids seq
  /\ output_token_ids seq' = output_token_ids seq
  /\ cumulative_logprob seq' = cumulative_logprob seq
  /\ tokens seq' = tokens seq
  /\ prefix_offset seq' = prefix_offset seq
  /\ read_offset seq' = read_offset seq
  /\ prompt_processing_finished seq' = prompt_processing_finished seq
  /\ (status seq' = status seq \/ status_is_finished (status seq') = true).
Proof.
  unfold _check_stop.
  destruct (check_stop_strings (stop sp) (seq, [])) as [c'|] eqn:E.
  - unfold check_stop_traced. rewrite E.
    apply check_stop_strings_some in E as (pre & s & post & _ & _ & _ & ->).
    cbn. repeat split. by right.
  - apply check_stop_strings_none in E.
    rewrite check_stop_traced_no_match by done.
    destruct (_ <? _); [|destruct (_ =? _); [|destruct (_ && _)]];
      cbn; repeat split; (by left) || (by right).
Qed.

(** X23: the second phase of a call never changes what was sampled: the
    prompt and output token ids, the cumulative log-probability and the
    prompt-processing flag of a sequence are after [_decode_sequence] and
    [_check_stop] what they were before; the status either stays or becomes
    a finished one; and a sequence whose prompt is still being processed is
    neither detokenized nor checked. *)
Theorem second_phase_keeps_tokens {collab : Collaborators}
    (self : LLMEngine) (sp : SamplingParams) (seq : Sequence) :
  let seq' := second_phase self sp seq in
  get_token_ids seq' = get_token_ids seq
  /\ prompt_token_ids seq' = prompt_token_ids seq
  /\ output_token_ids seq' = output_token_ids seq
  /\ cumulative_logprob seq' = cumulative_logprob seq
  /\ is_prompt_processing_finished seq' = is_prompt_processing_finished seq
  /\ (status seq' = status seq \/ is_finished seq' = true)
  /\ (is_prompt_processing_finished seq = false -> seq' = seq).
Proof.
  cbv zeta. unfold second_phase.
  destruct (is_prompt_processing_finished seq) eqn:Ep; cbn [negb].
  2:{ repeat split; try done. by left. }
  destruct (check_stop_fields self (_decode_sequence seq) sp)
    as (H1 & H2 & H3 & _ & _ & _ & H7 & H8).
  assert (Hd : prompt_token_ids (_decode_sequence seq)
               = prompt_token_ids seq
               /\ output_token_ids (_decode_sequence seq)
                  = output_token_ids seq
               /\ cumulative_logprob (_decode_sequence seq)
                  = cumulative_logprob seq
               /\ prompt_processing_finished (_decode_sequence seq)
                  = prompt_processing_finished seq
               /\ status (_decode_sequence seq) = status seq).
  { unfold _decode_sequence.
    by destruct (detokenize_incrementally _ _ _ _) as [[[? ?] ?] ?]. }
  destruct Hd as (D1 & D2 & D3 & D4 & D5).
  unfold get_token_ids, is_prompt_processing_finished, is_finished in *.
  rewrite H1, H2, H3, H7, D1, D2, D3, D4. rewrite D5 in H8.
  repeat split; done.
Qed.

(** ** Sampling without beam search *)

Lemma added_by_app (l1 l2 : ChildSeqs) :
  added_by (l1 ++ l2) = added_by l1 ++ added_by l2.
Proof. unfold added_by. by rewrite filter_app, fmap_app. Qed.

Lemma added_by_forks (p : Z) (ids : list Z) :
  Forall (fun i => i <> p) ids ->
  added_by (map (fun i => (i, p)) ids) = ids.
Proof.
  induction ids as [|i ids IH]; intros Hall; [done|].
  apply Forall_cons in Hall as [Hi Hall]. cbn [map]. unfold added_by in *.
  rewrite filter_cons. cbn [fst snd]. rewrite decide_True by done.
  cbn [map fst]. by rewrite IH.
Qed.

Section NonBeam.

Context {collab : Collaborators}.
Variable self : LLMEngine.

Lemma process_parents_added (samples : list SequenceOutputs) (chunk : Z)
    (parents : list Z) (g : SequenceGroup) (w : World) (cs : ChildSeqs) :
  Forall (fun p => p < seq_counter w) parents ->
  let r := foldl (process_parent samples chunk) (g, w, cs) parents in
  added_by (snd r)
  = added_by cs
    ++ seqZ (seq_counter w) (seq_counter (snd (fst r)) - seq_counter w).
Proof.
  revert g w cs. induction parents as [|q parents IH]; intros g w cs Hall.
  { cbn. by rewrite Z.sub_diag, app_nil_r. }
  change (foldl (process_parent samples chunk) (g, w, cs) (q :: parents))
    with (foldl (process_parent samples chunk)
            (process_parent samples chunk (g, w, cs) q) parents).
  apply Forall_cons in Hall as [Hq Hall].
  destruct (process_parent_spec samples chunk g w cs q)
    as (w1 & k & Hk & Hn1 & Hnil & Hsome).
  assert (Hall1 : Forall (fun p => p < seq_counter w1) parents).
  { eapply Forall_impl; [exact Hall|]. intros p Hp. cbn beta in *. lia. }
  cbv zeta.
  destruct (decide (child_samples_of samples q = [])) as [Hc | Hc].
  - destruct (Hnil Hc) as (E & _ & ->). rewrite E.
    rewrite (IH (group_remove q g) w1 cs Hall1).
    by rewrite Hn1, Z.add_0_r.
  - destruct (Hsome Hc) as [E _]. rewrite E.
    match goal with
    | |- context [foldl _ (?g1, ?w1', ?cs1) parents] =>
        rewrite (IH g1 w1' cs1 Hall1);
        pose proof (process_parents_store samples chunk parents g1 w1' cs1)
          as Hst
    end.
    cbv zeta in Hst. destruct Hst as (Hn & _).
    rewrite !added_by_app, added_by_forks.
    2:{ apply Forall_forall. intros i Hi. apply elem_of_seqZ in Hi. lia. }
    assert (Enil : added_by [(q, q)] = []).
    { unfold added_by. rewrite filter_cons. cbn [fst snd].
      by rewrite decide_False by (by intros ?). }
    rewrite Enil, app_nil_r, <- app_assoc. f_equal.
    match goal with
    | |- _ = seqZ _ (?c - _) =>
        replace (c - seq_counter w) with (k + (c - seq_counter w1)) by lia
    end.
    rewrite seqZ_app by lia. by rewrite Hn1.
Qed.

(** X24: a call without beam search that returns keeps every member that
    got a sample, finished or not, and adds every sequence it created: the
    members afterwards are the members from before without the running ones
    that got no sample, followed by the new sequences in the order of their
    creation. *)
Theorem sampling_without_beam_search_keeps_every_child (g : SequenceGroup)
    (chunk : Z) (samples : list SequenceOutputs) (w0 : World) :
  ids_below_counter w0 ->
  group_well_formed w0 g ->
  (forall s, s ∈ samples -> parent_seq_id s ∈ get_seqs w0 g RUNNING) ->
  use_beam_search (sampling_params g) = false ->
  let '(g', w', err) :=
    _process_sequence_group_samples self g chunk samples w0 in
  err = None
  /\ seqs g'
     = filter (fun i => i ∉ childless samples (get_seqs w0 g RUNNING))
         (seqs g)
       ++ seqZ (seq_counter w0) (seq_counter w' - seq_counter w0).
Proof.
  intros Hbelow [Hnd Hstored] Hall Hbeam. rewrite Forall_forall in Hstored.
  destruct (apply_samples_ok g chunk samples w0 Hall) as (g1 & w1 & cs & Ea).
  rewrite (process_outcome self g chunk samples w0 g1 w1 cs Ea). cbv zeta.
  rewrite Hbeam. cbn [negb]. split; [done|]. cbn [seqs with_seqs].
  pose proof (apply_samples_fold g chunk samples w0 g1 w1 cs Ea) as Hfold.
  destruct (apply_samples_spec g chunk samples w0 g1 w1 cs Ea) as (Hg1 & _).
  rewrite Hg1 at 1. cbn [seqs with_seqs]. f_equal.
  change (seq_counter (with_calls ?c ?w)) with (seq_counter w).
  destruct (decode_and_check_loop self (sampling_params g) cs w1)
    as [_ ->].
  pose proof (process_parents_added samples chunk (get_seqs w0 g RUNNING)
                g w0 []) as Hadd.
  cbv zeta in Hadd. rewrite Hfold in Hadd. cbn [fst snd] in Hadd.
  rewrite Hadd; [done|].
  apply Forall_forall. intros x Hx. apply Hbelow, Hstored.
  unfold get_seqs in Hx. apply list_elem_of_filter in Hx. tauto.
Qed.

End NonBeam.

Lemma sampling_without_beam_search_keeps_every_child_witness :
  let out :=
    _process_sequence_group_samples (collab := Examples.spec_collaborators)
      Examples.engine Examples.running_group 0 [Examples.sample 0 40]
      Examples.running_and_ignored in
  snd out = None /\ seqs (fst (fst out)) = [0].
Proof.
  cbv zeta.
  pose proof (sampling_without_beam_search_keeps_every_child
                (collab := Examples.spec_collaborators) Examples.engine
                Examples.running_group 0 [Examples.sample 0 40]
                Examples.running_and_ignored) as H.
  destruct (_process_sequence_group_samples _ _ _ _ _) as [[g' w'] e] eqn:E.
  cbn [fst snd]. destruct H as [H1 H2].
  - ids_below_by_cases.
  - split; by_evaluation.
  - apply Forall_forall. by_evaluation.
  - reflexivity.
  - split; [exact H1|].
    assert (Hc : seq_counter w' = 6).
    { change w' with (snd (fst (g', w', e))). rewrite <- E.
      vm_compute. reflexivity. }
    rewrite H2, Hc. vm_compute. reflexivity.
Defined.
